(** * 4CAT job manager: worker pool, delegation loop and interrupt protocol

    A shallow embedding of [backend/lib/manager.py] (class [WorkerManager])
    and of [backend/workers/scrape_boards.py] (class [BoardScraper]).

    Python objects that the manager mutates (the pool dictionary, the lists
    stored in it, the list of stopping workers, the stop flag) live in one
    record [State]; the job table, the clock, the liveness of the worker
    threads and the [threads] table live in [Env], the part of the world the
    manager shares with other processes.  Code that can raise or that sleeps
    is written in a small state-and-error monad. *)

From Stdlib Require Import List String ZArith Lia Bool Arith DecimalString.
Import ListNotations.
Open Scope string_scope.
Open Scope list_scope.

(** [length] is the length of a list throughout. *)
Abbreviation length := List.length (only parsing).

(** ** Python list and dict primitives *)

Module Py.

(** [x in xs] for a list of integers. *)
Definition mem (x : Z) (xs : list Z) : bool := existsb (Z.eqb x) xs.

(** [xs.remove(x)]: drops the first element equal to [x].  (Python raises
    ValueError when there is none; every call site below removes an
    element it has just found in the list.) *)
Fixpoint remove {A} (eqb : A -> A -> bool) (x : A) (xs : list A) : list A :=
  match xs with
  | [] => []
  | y :: ys => if eqb x y then ys else y :: remove eqb x ys
  end.

(** A dict with string keys, in insertion order. *)
Definition dict (V : Type) := list (string * V).

Fixpoint get {V} (k : string) (d : dict V) : option V :=
  match d with
  | [] => None
  | (k', v) :: d' => if String.eqb k k' then Some v else get k d'
  end.

(** [d[k] = v]: overwrites in place, or appends a new key. *)
Fixpoint set {V} (k : string) (v : V) (d : dict V) : dict V :=
  match d with
  | [] => [(k, v)]
  | (k', v') :: d' =>
      if String.eqb k k' then (k', v) :: d' else (k', v') :: set k v d'
  end.

Definition keys {V} (d : dict V) : list string := map fst d.

(** [str(n)] for an integer. *)
Definition str (n : Z) : string := NilZero.string_of_int (Z.to_int n).

End Py.

(** ** Jobs and the job table *)

(** The columns of a job record that the code reads: [job.data["id"]],
    [job.data["jobtype"]], [job.data["remote_id"]], [job.data["instance"]],
    and the scheduling columns of the spec's data model. *)
Record Job : Type := mkJob {
  job_id : Z;
  job_jobtype : string;
  job_remote_id : string;
  job_instance : option string;
  job_details : list (string * string);
  job_interval : option Z;
  job_claim_after : Z;
  is_claimed : bool
}.

Record ThreadRow : Type := mkThreadRow {
  thread_id : Z;
  thread_board : string;
  index_positions : string;
  timestamp_scraped : Z;
  timestamp_modified : Z;
  timestamp_deleted : Z
}.

(** What the manager shares with the rest of the world: the job table
    [rows] with its id sequence [serial], the clock [now], the identities
    [live] of the worker threads that are running, and the [threads] table
    of the board scraper. *)
Record Env : Type := mkEnv {
  rows : list Job;
  serial : Z;
  now : Z;
  live : list nat;
  threads : list ThreadRow
}.

Definition with_rows (r : list Job) (e : Env) : Env :=
  mkEnv r (serial e) (now e) (live e) (threads e).
Definition with_live (l : list nat) (e : Env) : Env :=
  mkEnv (rows e) (serial e) (now e) l (threads e).
Definition with_threads (t : list ThreadRow) (e : Env) : Env :=
  mkEnv (rows e) (serial e) (now e) (live e) t.

(** ** Results and the monad *)

Inductive exn : Type :=
| JobClaimedException
| JobNotFoundException
| JobAlreadyExistsException
| KeyError.

Definition exn_eqb (a b : exn) : bool :=
  match a, b with
  | JobClaimedException, JobClaimedException => true
  | JobNotFoundException, JobNotFoundException => true
  | JobAlreadyExistsException, JobAlreadyExistsException => true
  | KeyError, KeyError => true
  | _, _ => false
  end.

(** [Blocked]: the code is asleep in [time.sleep] and the environment
    schedule that drives the run has ended. *)
Inductive res (A : Type) : Type :=
| Ok (a : A)
| Raise (e : exn)
| Blocked.
Arguments Ok {A} a.
Arguments Raise {A} e.
Arguments Blocked {A}.

Definition M (S A : Type) : Type := S -> res A * S.

Definition ret {S A} (a : A) : M S A := fun s => (Ok a, s).

Definition bind {S A B} (m : M S A) (k : A -> M S B) : M S B :=
  fun s =>
    match m s with
    | (Ok a, s') => k a s'
    | (Raise e, s') => (Raise e, s')
    | (Blocked, s') => (Blocked, s')
    end.

Definition raise {S A} (e : exn) : M S A := fun s => (Raise e, s).

(** [try: m except e: handler]. *)
Definition try_except {S A} (m : M S A) (e : exn) (handler : M S A) : M S A :=
  fun s =>
    match m s with
    | (Raise e', s') => if exn_eqb e e' then handler s' else (Raise e', s')
    | r => r
    end.

Definition gets {S A} (f : S -> A) : M S A := fun s => (Ok (f s), s).
Definition modify {S} (f : S -> S) : M S unit := fun s => (Ok tt, f s).

Declare Scope monad_scope.
Delimit Scope monad_scope with monad.
Notation "x <- c1 ;; c2" := (bind c1 (fun x => c2))
  (at level 100, c1 at next level, right associativity) : monad_scope.
Notation "c1 ;; c2" := (bind c1 (fun _ => c2))
  (at level 100, right associativity) : monad_scope.
Open Scope monad_scope.

(** [for x in xs: body(x)] over a list that the body does not mutate. *)
Fixpoint for_each {S A} (xs : list A) (body : A -> M S unit) : M S unit :=
  match xs with
  | [] => ret tt
  | x :: xs' => body x ;; for_each xs' body
  end.

(** ** The job queue *)

Module Queue.

(** Modelled from the spec: [Job.is_claimable] is missing from the
    sources.  "A job is claimable iff claimed is false and the current
    time >= claim_after." *)
Definition is_claimable (t : Z) (j : Job) : bool :=
  negb (is_claimed j) && (job_claim_after j <=? t)%Z.

(** An optional filter of an enumeration. *)
Definition opt_match (filter : option string) (v : string) : bool :=
  match filter with
  | None => true
  | Some f => String.eqb f v
  end.

(** Modelled from the spec: [JobQueue.get_all_jobs] is missing from the
    sources.  "list(jobtype?, remote_id?, restrict_claimable): when
    restrict_claimable is true, returns only jobs currently eligible; when
    false, returns the full outstanding set." *)
Definition get_all_jobs (jobtype remote_id : option string)
    (restrict_claimable : bool) : M Env (list Job) :=
  gets (fun e =>
    filter (fun j =>
              opt_match jobtype (job_jobtype j)
              && opt_match remote_id (job_remote_id j)
              && (negb restrict_claimable || is_claimable (now e) j))
           (rows e)).

(** The identity of a job: jobtype, remote id and instance. *)
Definition same_identity (jobtype remote_id : string)
    (instance : option string) (j : Job) : bool :=
  String.eqb jobtype (job_jobtype j)
  && String.eqb remote_id (job_remote_id j)
  && match instance, job_instance j with
     | None, None => true
     | Some a, Some b => String.eqb a b
     | _, _ => false
     end.

(** Modelled from the spec: [JobQueue.add_job] is missing from the
    sources.  "create(jobtype, remote_id, instance, details, interval):
    fails with a DuplicateJob condition if an active job with the same
    (jobtype, remote_id, instance) already exists unclaimed."  A new job is
    "created (queued, claimable)". *)
Definition add_job (jobtype remote_id : string)
    (details : list (string * string)) (interval : option Z)
    (instance : option string) : M Env unit :=
  fun e =>
    if existsb (fun j => same_identity jobtype remote_id instance j
                         && negb (is_claimed j)) (rows e)
    then (Raise JobAlreadyExistsException, e)
    else
      let j := mkJob (serial e) jobtype remote_id instance details
                     interval (now e) false in
      (Ok tt, mkEnv (rows e ++ [j]) (Z.succ (serial e)) (now e)
                    (live e) (threads e)).

(** An UPDATE of the records selected by [sel]. *)
Definition update_rows (sel : Job -> bool) (f : Job -> Job) (e : Env) : Env :=
  with_rows (map (fun j => if sel j then f j else j) (rows e)) e.

(** The record with its claimed flag and next-eligible time set. *)
Definition set_claimed (b : bool) (after : Z) (j : Job) : Job :=
  mkJob (job_id j) (job_jobtype j) (job_remote_id j) (job_instance j)
        (job_details j) (job_interval j) after b.

(** Modelled from the spec: [Job.claim] is missing from the sources.
    "claim(job): atomic test-and-set of the claimed flag.  Fails with
    AlreadyClaimed if another caller won the race."  The test is made on
    the record in the table, not on the caller's copy; a record that is no
    longer in the table has no flag left to set, which is a lost race too. *)
Definition claim (j : Job) : M Env unit :=
  fun e =>
    let mine := fun r => (job_id r =? job_id j)%Z && negb (is_claimed r) in
    if existsb mine (rows e)
    then (Ok tt, update_rows mine
                   (fun r => set_claimed true (job_claim_after r) r) e)
    else (Raise JobClaimedException, e).

(** Modelled from the spec: [Job.release] is missing from the sources.
    "release(job, delay, claim_after): clears claimed; sets the job's
    next-eligible time to now + claim_after." *)
Definition release (j : Job) (delay claim_after : Z) : M Env unit :=
  fun e =>
    (Ok tt, update_rows (fun r => (job_id r =? job_id j)%Z)
              (set_claimed false (now e + claim_after)%Z) e).

(** Modelled from the spec: [Job.finish] is missing from the sources.
    "finish(job, delete=false): marks completion; if delete is true the
    record is permanently removed.  If interval was set and not deleting,
    a successor is scheduled for now + interval."  The manager only calls
    it with [delete=True]. *)
Definition finish (j : Job) (delete : bool) : M Env unit :=
  fun e =>
    let mine := fun r => (job_id r =? job_id j)%Z in
    match delete, job_interval j with
    | false, Some i =>
        (Ok tt, update_rows mine (set_claimed false (now e + i)%Z) e)
    | _, _ =>
        (Ok tt, with_rows (filter (fun r => negb (mine r)) (rows e)) e)
    end.

(** Modelled from the spec: [Job.get_by_remote_ID] is missing from the
    sources.  "get_by_identity(remote_id, jobtype, instance?): lookup;
    fails with NotFound if absent."  The manager calls it with
    [own_instance_only=False], that is without an instance. *)
Definition get_by_remote_ID (remote_id jobtype : string) : M Env Job :=
  fun e =>
    match find (fun j => String.eqb jobtype (job_jobtype j)
                         && String.eqb remote_id (job_remote_id j)) (rows e)
    with
    | Some j => (Ok j, e)
    | None => (Raise JobNotFoundException, e)
    end.

End Queue.

(** ** Workers and the manager's state *)

(** A worker thread.  [wid] is the identity of the Python object (list
    membership and [list.remove] compare worker objects by identity), [job]
    is [worker.job], [appname] is [worker.db.appname], the name of the
    worker's own database connection. *)
Record Worker : Type := mkWorker {
  wid : nat;
  job : Job;
  appname : string
}.

Definition worker_eqb (a b : Worker) : bool := Nat.eqb (wid a) (wid b).

(** A worker class as [all_modules.workers] registers it: its declared
    [max_workers], a number of workers, and the connection name its
    instances open for a job. *)
Record WorkerClass : Type := mkWorkerClass {
  max_workers : nat;
  connect : Job -> string
}.

(** [backend.all_modules]: the registry of worker implementations by
    jobtype, and the ["init"] hook of every data source.  The module is not
    part of the sources; it is a parameter of the manager. *)
Record Modules : Type := mkModules {
  workers : Py.dict WorkerClass;
  datasources : Py.dict (M Env unit)
}.

(** Calls the manager makes on its collaborators, in the order made; a call
    on a job object names the object. *)
Inductive event : Type :=
| EvJoin (w : nat)
| EvInterrupt (w : nat) (level : option Z)
| EvStart (w : nat)
| EvClaim (j : Job)
| EvRelease (j : Job) (delay claim_after : Z)
| EvFinish (j : Job) (delete : bool)
| EvAddJob (jobtype remote_id : string) (interval : option Z)
           (instance : option string)
| EvSleep (ms : Z).

(** The fields of [WorkerManager] ([worker_pool], [stopping_workers],
    [looping]), the counter [next_wid] from which new worker objects take
    their identity, the shared world [env], the calls made so far [trace],
    and [sched]: what the rest of the world does to [env] during each of the
    sleeps still to come. *)
Record State : Type := mkState {
  worker_pool : Py.dict (list Worker);
  stopping_workers : list Z;
  looping : bool;
  next_wid : nat;
  env : Env;
  trace : list event;
  sched : list (Env -> Env)
}.

Definition with_pool (p : Py.dict (list Worker)) (s : State) : State :=
  mkState p (stopping_workers s) (looping s) (next_wid s) (env s) (trace s)
          (sched s).
Definition with_stopping (l : list Z) (s : State) : State :=
  mkState (worker_pool s) l (looping s) (next_wid s) (env s) (trace s)
          (sched s).
Definition with_looping (b : bool) (s : State) : State :=
  mkState (worker_pool s) (stopping_workers s) b (next_wid s) (env s)
          (trace s) (sched s).
Definition with_env (e : Env) (s : State) : State :=
  mkState (worker_pool s) (stopping_workers s) (looping s) (next_wid s) e
          (trace s) (sched s).

(** The class attributes [worker_pool = {}], [stopping_workers = []],
    [looping = True] over a given world. *)
Definition fresh_manager (e : Env) (moves : list (Env -> Env)) : State :=
  mkState [] [] true 0 e [] moves.

Definition emit (ev : event) : M State unit :=
  modify (fun s => mkState (worker_pool s) (stopping_workers s) (looping s)
                           (next_wid s) (env s) (trace s ++ [ev]) (sched s)).

(** Runs a queue operation on the shared world. *)
Definition on_env {A} (m : M Env A) : M State A :=
  fun s => let (r, e) := m (env s) in (r, with_env e s).

(** [time.sleep]: the manager yields and the rest of the world makes its
    next scheduled move. *)
Definition time_sleep (ms : Z) : M State unit :=
  fun s =>
    match sched s with
    | [] => (Blocked, s)
    | move :: rest =>
        (Ok tt, mkState (worker_pool s) (stopping_workers s) (looping s)
                        (next_wid s) (move (env s))
                        (trace s ++ [EvSleep ms]) rest)
    end.

(** Calls on job objects and worker objects, recorded in the trace. *)
Definition job_claim (j : Job) : M State unit :=
  emit (EvClaim j) ;; on_env (Queue.claim j).
Definition job_release (j : Job) (delay claim_after : Z) : M State unit :=
  emit (EvRelease j delay claim_after) ;;
  on_env (Queue.release j delay claim_after).
Definition job_finish (j : Job) (delete : bool) : M State unit :=
  emit (EvFinish j delete) ;; on_env (Queue.finish j delete).
Definition queue_add_job (jobtype remote_id : string)
    (interval : option Z) (instance : option string) : M State unit :=
  emit (EvAddJob jobtype remote_id interval instance) ;;
  on_env (Queue.add_job jobtype remote_id [] interval instance).

Definition is_alive (w : Worker) : M State bool :=
  gets (fun s => existsb (Nat.eqb (wid w)) (live (env s))).
Definition worker_join (w : Worker) : M State unit := emit (EvJoin (wid w)).
Definition worker_request_interrupt (w : Worker) (level : option Z)
  : M State unit := emit (EvInterrupt (wid w) level).

(** [worker_class(logger=..., manager=self, job=job, modules=...)] followed
    by [worker.start()]: a new object, whose thread is then running. *)
Definition spawn (worker_class : WorkerClass) (j : Job) : M State Worker :=
  fun s =>
    let w := mkWorker (next_wid s) j (connect worker_class j) in
    (Ok w, mkState (worker_pool s) (stopping_workers s) (looping s)
                   (S (next_wid s))
                   (with_live (live (env s) ++ [wid w]) (env s))
                   (trace s ++ [EvStart (wid w)]) (sched s)).

(** [self.worker_pool[jobtype]]; the call sites read keys that are there. *)
Definition pool_of (jobtype : string) (s : State) : list Worker :=
  match Py.get jobtype (worker_pool s) with
  | Some ws => ws
  | None => []
  end.

Definition set_pool_of (jobtype : string) (ws : list Worker) : M State unit :=
  modify (fun s => with_pool (Py.set jobtype ws (worker_pool s)) s).

(** ** [WorkerManager.delegate] *)

Module WorkerManager.

(** The body of [for worker in all_workers] (lines 87-102). *)
Definition reconcile_worker (known_job_ids : list Z) (jobtype : string)
    (worker : Worker) : M State unit :=
  alive <- is_alive worker ;;
  let id := job_id (job worker) in
  if negb alive then
    worker_join worker ;;
    ws <- gets (pool_of jobtype) ;;
    set_pool_of jobtype (Py.remove worker_eqb worker ws) ;;
    stopping <- gets stopping_workers ;;
    if Py.mem id stopping then
      modify (with_stopping (Py.remove Z.eqb id stopping))
    else ret tt
  else
    stopping <- gets stopping_workers ;;
    if negb (Py.mem id known_job_ids) && negb (Py.mem id stopping) then
      worker_request_interrupt worker None ;;
      modify (fun s => with_stopping (stopping_workers s ++ [id]) s)
    else ret tt.

(** [for worker in all_workers], where [all_workers] is the very list
    object stored in the pool and the body removes from it: the list
    iterator holds an index [i], reads the element at that index of the
    list as it is now, and stops once the index is past the end.  [fuel]
    bounds the number of iterations; the length of the list on entry is
    enough (see [reconcile_from_fuel]). *)
Fixpoint reconcile_from (fuel i : nat) (known_job_ids : list Z)
    (jobtype : string) : M State unit :=
  match fuel with
  | O => ret tt
  | S fuel' =>
      all_workers <- gets (pool_of jobtype) ;;
      match nth_error all_workers i with
      | None => ret tt
      | Some worker =>
          reconcile_worker known_job_ids jobtype worker ;;
          reconcile_from fuel' (S i) known_job_ids jobtype
      end
  end.

Definition reconcile_pool (known_job_ids : list Z) (jobtype : string)
    : M State unit :=
  n <- gets (fun s => List.length (pool_of jobtype s)) ;;
  reconcile_from n 0 known_job_ids jobtype.

(** The body of [for job in jobs] (lines 108-129). *)
Definition assign_job (all_modules : Modules) (j : Job) : M State unit :=
  t <- gets (fun s => now (env s)) ;;
  if negb (Queue.is_claimable t j) then ret tt
  else
    let jobtype := job_jobtype j in
    match Py.get jobtype (workers all_modules) with
    | None => ret tt
    | Some worker_class =>
        known <- gets (fun s => Py.get jobtype (worker_pool s)) ;;
        (match known with
         | None => set_pool_of jobtype []
         | Some _ => ret tt
         end) ;;
        ws <- gets (pool_of jobtype) ;;
        if (List.length ws <? max_workers worker_class)%nat then
          try_except
            (job_claim j ;;
             worker <- spawn worker_class j ;;
             ws' <- gets (pool_of jobtype) ;;
             set_pool_of jobtype (ws' ++ [worker]))
            JobClaimedException
            (ret tt)
        else ret tt
    end.

(** One tick of the delegation loop.  The calls to the logger are not
    modelled. *)
Definition delegate (all_modules : Modules) : M State unit :=
  jobs <- on_env (Queue.get_all_jobs None None false) ;;
  let known_job_ids := map job_id jobs in
  jobtypes <- gets (fun s => Py.keys (worker_pool s)) ;;
  for_each jobtypes (reconcile_pool known_job_ids) ;;
  for_each jobs (assign_job all_modules) ;;
  time_sleep 1000.

(** [n] consecutive iterations of [while self.looping: self.delegate()],
    the stop flag staying up. *)
Fixpoint ticks (all_modules : Modules) (n : nat) : M State unit :=
  match n with
  | O => ret tt
  | S n' => delegate all_modules ;; ticks all_modules n'
  end.

(** ** [WorkerManager.abort] *)

Definition cancel_jobs (remote_id : option string) : M State (list Job) :=
  on_env (Queue.get_all_jobs (Some "cancel-pg-query") remote_id false).

(** Lines 189-194. *)
Definition force_cancel_jobs : M State unit :=
  jobs <- cancel_jobs None ;;
  for_each jobs (fun j => job_claim j ;; job_release j 0 0).

(** [while self.queue.get_all_jobs(...): time.sleep(0.25)].  Every
    iteration that does not leave the loop sleeps, which uses up one move
    of the schedule, so one more iteration than there are moves left is
    never reached. *)
Fixpoint wait_cancel_jobs (fuel : nat) : M State unit :=
  match fuel with
  | O => fun s => (Blocked, s)
  | S fuel' =>
      jobs <- cancel_jobs None ;;
      match jobs with
      | [] => ret tt
      | _ :: _ => time_sleep 250 ;; wait_cancel_jobs fuel'
      end
  end.

Definition abort : M State unit :=
  force_cancel_jobs ;;
  n <- gets (fun s => List.length (sched s)) ;;
  wait_cancel_jobs (S n) ;;
  modify (with_looping false).

(** ** [WorkerManager.request_interrupt] *)

(** The test of line 227, [jobtype] being the job's own type when a job
    is given (a job object counts as true in [if job] and [job and ...]). *)
Definition is_target (j : option Job) (remote_id : option string)
    (jobtype : string) (worker : Worker) : bool :=
  match j with
  | Some j' => (job_id (job worker) =? job_id j')%Z
  | None => false
  end
  || (String.eqb (job_jobtype (job worker)) jobtype
      && match remote_id with
         | Some r => String.eqb (job_remote_id (job worker)) r
         | None => false
         end).

(** The [while True] loop of lines 229-244. *)
Fixpoint drain_queries (fuel : nat) (worker : Worker) : M State unit :=
  match fuel with
  | O => fun s => (Blocked, s)
  | S fuel' =>
      active_queries <- cancel_jobs (Some (appname worker)) ;;
      match active_queries with
      | [] => ret tt
      | _ :: _ =>
          for_each active_queries
            (fun cancel_job =>
               if is_claimed cancel_job then ret tt
               else job_claim cancel_job ;; job_release cancel_job 0 0) ;;
          time_sleep 250 ;;
          drain_queries fuel' worker
      end
  end.

(** [for worker in self.worker_pool[jobtype]], left by [return] at the
    first worker that passes the test. *)
Fixpoint interrupt_first (interrupt_level : Z) (j : option Job)
    (remote_id : option string) (jobtype : string) (ws : list Worker)
    : M State unit :=
  match ws with
  | [] => ret tt
  | worker :: ws' =>
      if is_target j remote_id jobtype worker then
        n <- gets (fun s => List.length (sched s)) ;;
        drain_queries (S n) worker ;;
        worker_request_interrupt worker (Some interrupt_level)
      else interrupt_first interrupt_level j remote_id jobtype ws'
  end.

Definition request_interrupt (interrupt_level : Z) (j : option Job)
    (remote_id jobtype : option string) : M State unit :=
  let jobtype := match j with
                 | Some j' => Some (job_jobtype j')
                 | None => jobtype
                 end in
  match jobtype with
  | None => ret tt
  | Some jt =>
      known <- gets (fun s => Py.get jt (worker_pool s)) ;;
      match known with
      | None => ret tt
      | Some ws => interrupt_first interrupt_level j remote_id jt ws
      end
  end.

(** ** [WorkerManager.request_delete] *)

(** The target is a job object (which counts as true in [if not job]), or
    else the pair [remote_id], [jobtype]. *)
Definition request_delete (j : option Job) (remote_id jobtype : string)
    : M State unit :=
  found <- match j with
           | Some j' => ret (Some j')
           | None =>
               try_except
                 (j' <- on_env (Queue.get_by_remote_ID remote_id jobtype) ;;
                  ret (Some j'))
                 JobNotFoundException
                 (ret None)
           end ;;
  match found with
  | None => ret tt
  | Some j' => job_finish j' true
  end.

(** ** [WorkerManager.__init__] *)

(** Lines 172-176; the logger is not modelled. *)
Definition validate_datasources (all_modules : Modules) : M State unit :=
  for_each (datasources all_modules) (fun d => on_env (snd d)).

(** Lines 49-62: what the constructor does before it enters the loop.
    [instance_id] is the value of [get_instance_id()].  The choice between
    the key poller and the signal handlers (lines 41-47) changes nothing
    of the state and is left out. *)
Definition startup (all_modules : Modules) (instance_id : string)
    : M State unit :=
  validate_datasources all_modules ;;
  queue_add_job "api" instance_id None (Some instance_id) ;;
  queue_add_job "expire-datasets" instance_id (Some 300%Z)
                (Some instance_id) ;;
  queue_add_job "datasource-metrics" instance_id (Some 86400%Z)
                (Some instance_id) ;;
  queue_add_job "clean-temp-files" instance_id (Some 3600%Z)
                (Some instance_id).

(** The constructor: [startup], then [self.loop()]. *)
Definition init (all_modules : Modules) (instance_id : string)
    (loop : M State unit) : M State unit :=
  startup all_modules instance_id ;; loop.

(** ** [WorkerManager.loop] *)

(** [while self.looping: self.delegate()] (lines 141-142).  Nothing in
    the loop takes [self.looping] down: that is done by [abort], which the
    constructor installs as the handler of SIGTERM (line 46) and which
    Python then runs in the main thread, in the middle of the loop, when
    the signal arrives; what it raises is raised in the loop.  The manager
    spends its time in the sleep that ends a tick, and a request is taken
    to arrive there: [stops] tells, tick by tick, whether one arrives
    during that sleep, in which case [abort] runs before the flag is tested
    again.  Every tick ends in a sleep, which uses up one move of the
    schedule, so one more iteration than there are moves left is never
    reached. *)
Fixpoint delegate_while_looping (fuel : nat) (all_modules : Modules)
    (stops : list bool) : M State unit :=
  match fuel with
  | O => fun s => (Blocked, s)
  | S fuel' =>
      go <- gets looping ;;
      if go then
        delegate all_modules ;;
        (if hd false stops then abort else ret tt) ;;
        delegate_while_looping fuel' all_modules (tl stops)
      else ret tt
  end.

(** [for jobtype in self.worker_pool: for worker in
    self.worker_pool[jobtype]: body(worker)], for a body that leaves the
    pool as it is. *)
Definition for_each_worker (body : Worker -> M State unit) : M State unit :=
  jobtypes <- gets (fun s => Py.keys (worker_pool s)) ;;
  for_each jobtypes
    (fun jobtype => ws <- gets (pool_of jobtype) ;; for_each ws body).

(** Lines 147-150.  [has_request_interrupt worker] is
    [hasattr(worker, "request_interrupt")].  [worker_abort] is the [abort]
    method of a worker object without [request_interrupt]; no such class is
    part of the sources, and what the call does to the shared world is a
    parameter. *)
Definition stop_worker (has_request_interrupt : Worker -> bool)
    (worker_abort : Worker -> M Env unit) (worker : Worker) : M State unit :=
  if has_request_interrupt worker then worker_request_interrupt worker None
  else on_env (worker_abort worker).

(** The manager waits without sleeping: the rest of the world makes its
    next scheduled move. *)
Definition wait_move : M State unit :=
  fun s =>
    match sched s with
    | [] => (Blocked, s)
    | move :: rest =>
        (Ok tt, mkState (worker_pool s) (stopping_workers s) (looping s)
                        (next_wid s) (move (env s)) (trace s) rest)
    end.

(** Inside [worker.join()]: the call returns when the thread has ended.
    Every round of waiting uses up one move of the schedule, so one more
    round than there are moves left is never reached. *)
Fixpoint wait_stopped (fuel : nat) (worker : Worker) : M State unit :=
  match fuel with
  | O => fun s => (Blocked, s)
  | S fuel' =>
      running <- is_alive worker ;;
      if running then wait_move ;; wait_stopped fuel' worker else ret tt
  end.

(** [worker.join()] (line 157), without timeout, on a worker that may
    still be running.  ([worker_join] is the same call at line 88, on a
    worker that [is_alive] has just shown to have stopped, where it returns
    at once.) *)
Definition thread_join (worker : Worker) : M State unit :=
  emit (EvJoin (wid worker)) ;;
  n <- gets (fun s => List.length (sched s)) ;;
  wait_stopped (S n) worker.

(** Lines 144-159: what the loop does once the stop flag is down. *)
Definition shutdown (has_request_interrupt : Worker -> bool)
    (worker_abort : Worker -> M Env unit) : M State unit :=
  for_each_worker (stop_worker has_request_interrupt worker_abort) ;;
  for_each_worker thread_join ;;
  time_sleep 1000.

Definition loop (all_modules : Modules)
    (has_request_interrupt : Worker -> bool)
    (worker_abort : Worker -> M Env unit) (stops : list bool)
    : M State unit :=
  n <- gets (fun s => List.length (sched s)) ;;
  delegate_while_looping (S n) all_modules stops ;;
  shutdown has_request_interrupt worker_abort.

End WorkerManager.

(** ** [BoardScraper] *)

Module BoardScraper.

(** [max_workers = 2]. *)
Definition max_workers : nat := 2.

Definition required_fields : list string := ["no"; "last_modified"].

(** The scraper object: [self.position], [self.loop_time], and the world
    it reaches through [self.queue] and [self.db]. *)
Record Scraper : Type := mkScraper {
  position : Z;
  loop_time : Z;
  world : Env
}.

Definition on_world {A} (m : M Env A) : M Scraper A :=
  fun s => let (r, e) := m (world s) in
           (r, mkScraper (position s) (loop_time s) e).

(** [d[k]] on a parsed JSON object. *)
Definition item (k : string) (d : Py.dict Z) : M Scraper Z :=
  match Py.get k d with
  | Some v => ret v
  | None => raise KeyError
  end.

Definition has_key (d : Py.dict Z) (k : string) : bool :=
  match Py.get k d with
  | Some _ => true
  | None => false
  end.

(** [self.db.fetchone("SELECT * FROM threads WHERE id = %s", ...)]. *)
Definition fetch_thread (id : Z) : M Env (option ThreadRow) :=
  gets (fun e => find (fun r => (thread_id r =? id)%Z) (threads e)).

(** [self.db.insert("threads", thread_data)]; the columns that
    [thread_data] does not give start at 0. *)
Definition insert_thread (id : Z) (board index : string) : M Env unit :=
  modify (fun e =>
    with_threads (threads e ++ [mkThreadRow id board index 0 0 0]) e).

(** The UPDATE statement of lines 77-79. *)
Definition update_thread (scraped modified : Z) (update : string) (id : Z)
    : M Env unit :=
  modify (fun e =>
    with_threads
      (map (fun r =>
              if (thread_id r =? id)%Z then
                mkThreadRow (thread_id r) (thread_board r)
                            (index_positions r ++ update)%string scraped modified
                            (timestamp_deleted r)
              else r)
           (threads e)) e).

(** [save_thread(self, thread, job)]; [job] is the job's data.  The result
    is the number of new threads; [return False] is the number 0.  The
    thread number is passed to [add_job] as remote id and is kept as text;
    the two warnings (missing fields, thread deleted) go to the logger only,
    which is not modelled. *)
Definition save_thread (thread : Py.dict Z) (j : Job) : M Scraper Z :=
  if existsb (fun f => negb (has_key thread f)) required_fields then ret 0%Z
  else
    no <- item "no" thread ;;
    let board := job_remote_id j in
    try_except
      (on_world (Queue.add_job "thread" (Py.str no) [("board", board)]
                               None None))
      JobAlreadyExistsException
      (ret tt) ;;
    thread_row <- on_world (fetch_thread no) ;;
    let new_thread := match thread_row with
                      | None => 1%Z
                      | Some _ => 0%Z
                      end in
    (match thread_row with
     | None => on_world (insert_thread no board "")
     | Some _ => ret tt
     end) ;;
    lt <- gets loop_time ;;
    pos <- gets position ;;
    let position_update := (Py.str lt ++ ":" ++ Py.str pos ++ ",")%string in
    last_modified <- item "last_modified" thread ;;
    on_world (update_thread lt last_modified position_update no) ;;
    ret new_thread.

(** [process(self, data, job)]: [data] is the list of pages, each given
    by its ["threads"].  The method returns nothing; the value here is
    [new_threads], the count it logs. *)
Fixpoint process_threads (ts : list (Py.dict Z)) (j : Job) (acc : Z)
    : M Scraper Z :=
  match ts with
  | [] => ret acc
  | thread :: ts' =>
      modify (fun s => mkScraper (position s + 1)%Z (loop_time s) (world s)) ;;
      n <- save_thread thread j ;;
      process_threads ts' j (acc + n)%Z
  end.

Definition process (data : list (list (Py.dict Z))) (j : Job) : M Scraper Z :=
  process_threads (List.concat data) j 0%Z.

(** [get_url(self)]; [self.job["remote_id"]] is the name of the board. *)
Definition get_url (j : Job) : string :=
  ("http://a.4cdn.org/" ++ job_remote_id j ++ "/threads.json")%string.

End BoardScraper.

(** * Notions used in the statements *)

Definition exec {S A} (m : M S A) (s : S) : S := snd (m s).

Definition outcome {S A} (m : M S A) (s : S) : res A := fst (m s).

Definition alive (w : Worker) (e : Env) : bool :=
  existsb (Nat.eqb (wid w)) (live e).

(** The state after a worker that has stopped was met. *)
Definition joined (jobtype : string) (w : Worker) (s : State) : State :=
  mkState
    (Py.set jobtype (Py.remove worker_eqb w (pool_of jobtype s)) (worker_pool s))
    (if Py.mem (job_id (job w)) (stopping_workers s)
     then Py.remove Z.eqb (job_id (job w)) (stopping_workers s)
     else stopping_workers s)
    (looping s) (next_wid s) (env s) (trace s ++ [EvJoin (wid w)]) (sched s).

(** The state after a running worker whose job is gone was met for the
    first time. *)
Definition interrupted (w : Worker) (s : State) : State :=
  mkState (worker_pool s) (stopping_workers s ++ [job_id (job w)])
          (looping s) (next_wid s) (env s)
          (trace s ++ [EvInterrupt (wid w) None]) (sched s).

Definition to_interrupt (known : list Z) (w : Worker) (s : State) : bool :=
  negb (Py.mem (job_id (job w)) known)
  && negb (Py.mem (job_id (job w)) (stopping_workers s)).

Definition reconciled (known : list Z) (jt : string) (w : Worker) (s : State)
  : State :=
  if alive w (env s)
  then if to_interrupt known w s then interrupted w s else s
  else joined jt w s.

(** Every second element of a list, starting with the first ([take = true])
    or with the second ([take = false]). *)
Fixpoint every_other {A} (take : bool) (l : list A) : list A :=
  match l with
  | [] => []
  | x :: r => if take then x :: every_other false r else every_other true r
  end.

(** The state after a worker of class [wc] was started for job [j], the
    claim having left the world as [e']. *)
Definition started (wc : WorkerClass) (j : Job) (e' : Env) (s : State)
  : State :=
  let w := mkWorker (next_wid s) j (connect wc j) in
  mkState (Py.set (job_jobtype j) (pool_of (job_jobtype j) s ++ [w])
                  (worker_pool s))
          (stopping_workers s) (looping s) (S (next_wid s))
          (with_live (live e' ++ [next_wid s]) e')
          (trace s ++ [EvClaim j; EvStart (next_wid s)])
          (sched s).

(** The state after a claim that was lost. *)
Definition claim_lost (j : Job) (s : State) : State :=
  mkState (worker_pool s) (stopping_workers s) (looping s) (next_wid s)
          (env s) (trace s ++ [EvClaim j]) (sched s).

(** [self.worker_pool[jobtype] = []] for a jobtype seen for the first time. *)
Definition with_key (jt : string) (s : State) : State :=
  match Py.get jt (worker_pool s) with
  | None => with_pool (Py.set jt [] (worker_pool s)) s
  | Some _ => s
  end.

Definition assigned (all_modules : Modules) (j : Job) (s : State) : State :=
  if negb (Queue.is_claimable (now (env s)) j) then s
  else
    match Py.get (job_jobtype j) (workers all_modules) with
    | None => s
    | Some wc =>
        let s1 := with_key (job_jobtype j) s in
        if (length (pool_of (job_jobtype j) s1) <? max_workers wc)%nat then
          match Queue.claim j (env s1) with
          | (Ok _, e') => started wc j e' s1
          | _ => claim_lost j s1
          end
        else s1
    end.

(** The tick up to its final sleep. *)
Definition tick_work (all_modules : Modules) : M State unit :=
  jobs <- on_env (Queue.get_all_jobs None None false) ;;
  let known_job_ids := map job_id jobs in
  jobtypes <- gets (fun s => Py.keys (worker_pool s)) ;;
  for_each jobtypes (WorkerManager.reconcile_pool known_job_ids) ;;
  for_each jobs (WorkerManager.assign_job all_modules).

(** What the final sleep of a tick does to the state. *)
Definition slept (ms : Z) (move : Env -> Env) (rest : list (Env -> Env))
    (s : State) : State :=
  mkState (worker_pool s) (stopping_workers s) (looping s) (next_wid s)
          (move (env s)) (trace s ++ [EvSleep ms]) rest.

Definition capacity_ok (all_modules : Modules) (s : State) : Prop :=
  forall jt wc,
    Py.get jt (workers all_modules) = Some wc ->
    length (pool_of jt s) <= max_workers wc.

(** No claim is made on a job of type [jt] among the events [evs]. *)
Definition unclaimed_in (jt : string) (evs : list event) : Prop :=
  forall j, job_jobtype j = jt -> ~ In (EvClaim j) evs.

(** The number of interrupt requests made on the worker object [w]. *)
Fixpoint interrupts_of (w : nat) (tr : list event) : nat :=
  match tr with
  | [] => 0
  | EvInterrupt w' _ :: tr' =>
      (if Nat.eqb w w' then 1 else 0) + interrupts_of w tr'
  | _ :: tr' => interrupts_of w tr'
  end.

(** All worker objects held in the pool. *)
Definition pool_workers (s : State) : list Worker :=
  flat_map snd (worker_pool s).

(** [wk] is the only pool entry with its identity and the only one that
    carries its job id. *)
Definition sole_carrier (wk : Worker) (s : State) : Prop :=
  forall w, In w (pool_workers s) ->
            wid w = wid wk \/ job_id (job w) = job_id (job wk) -> w = wk.

(** The bookkeeping for one worker [wk]: it had received [c0] interrupts
    when the observation began, [stopping0] tells whether its job id was in
    the stopping list then; since then it has received none, or one, and in
    that case the id is in the list now. *)
Definition once (wk : Worker) (c0 : nat) (stopping0 : bool) (s : State)
  : Prop :=
  sole_carrier wk s
  /\ wid wk < next_wid s
  /\ ((interrupts_of (wid wk) (trace s) = c0
       /\ (stopping0 = true -> In (job_id (job wk)) (stopping_workers s)))
      \/ (interrupts_of (wid wk) (trace s) = c0 + 1
          /\ In (job_id (job wk)) (stopping_workers s) /\ stopping0 = false)).

(** At the start of each of the first [n] ticks from [s], the worker is
    running and its job is not in the table. *)
Definition draining (wk : Worker) (all_modules : Modules) (n : nat)
    (s : State) : Prop :=
  forall k, k < n ->
    let sk := exec (WorkerManager.ticks all_modules k) s in
    alive wk (env sk) = true
    /\ ~ In (job_id (job wk)) (map job_id (rows (env sk))).

(** The pass over the pool list of [jt] has not met [wk] yet: the list is
    [pre ++ wk :: post] still, in the world [e]; the job id of [wk] is not
    in the stopping list; [wk] has received [c] interrupts. *)
Definition waiting (wk : Worker) (jt : string) (e : Env)
    (pre post : list Worker) (c : nat) (s : State) : Prop :=
  env s = e
  /\ pool_of jt s = pre ++ wk :: post
  /\ ~ In (job_id (job wk)) (stopping_workers s)
  /\ sole_carrier wk s
  /\ interrupts_of (wid wk) (trace s) = c.

(** The outstanding cancellation jobs, for one connection or for all. *)
Definition cancel_rows (remote_id : option string) (e : Env) : list Job :=
  filter (fun j => Queue.opt_match (Some "cancel-pg-query") (job_jobtype j)
                   && Queue.opt_match remote_id (job_remote_id j)
                   && (negb false || Queue.is_claimable (now e) j))
         (rows e).

(** The manager as the first call left it, over a world [e] that has moved
    on and with a schedule [moves] of its own. *)
Definition later (e : Env) (moves : list (Env -> Env)) (s : State) : State :=
  mkState (worker_pool s) (stopping_workers s) (looping s) (next_wid s) e
          (trace s) moves.

(** The state after [job.claim()] and [job.release(delay=0, claim_after=0)]
    both went through: the records of the job are unclaimed and eligible
    from now on. *)
Definition forced (q : Job) (s : State) : State :=
  mkState (worker_pool s) (stopping_workers s) (looping s) (next_wid s)
          (Queue.update_rows (fun r => (job_id r =? job_id q)%Z)
             (Queue.set_claimed false (now (env s) + 0)%Z) (env s))
          (trace s ++ [EvClaim q; EvRelease q 0%Z 0%Z]) (sched s).

(** Some record of the job [q] is still unclaimed. *)
Definition claimable_row (q : Job) (e : Env) : Prop :=
  exists r, In r (rows e) /\ job_id r = job_id q /\ is_claimed r = false.

(** The events of one round of forcing over the snapshot [qs]; a job that
    the snapshot shows as claimed is passed over. *)
Definition round_events (qs : list Job) : list event :=
  flat_map (fun q => if is_claimed q then []
                     else [EvClaim q; EvRelease q 0%Z 0%Z]) qs.

(** Every record of the job [q] is unclaimed and eligible now. *)
Definition made_claimable (q : Job) (e : Env) : Prop :=
  forall r, In r (rows e) -> job_id r = job_id q ->
            Queue.is_claimable (now e) r = true.

(** The state after a round of forcing over the snapshot [qs]. *)
Definition forced_all (qs : list Job) (s : State) : State :=
  fold_left (fun s q => if is_claimed q then s else forced q s) qs s.

(** No interrupt is requested among the events [evs]. *)
Definition no_interrupt (evs : list event) : Prop :=
  forall w level, ~ In (EvInterrupt w level) evs.

(** The jobtype under which [request_interrupt] looks: the job's own when a
    job object is given. *)
Definition target_jobtype (j : option Job) (jobtype : option string)
  : option string :=
  match j with
  | Some j' => Some (job_jobtype j')
  | None => jobtype
  end.

(** Whether the worker is one the request identifies, by job id or by
    jobtype and remote id. *)
Definition identifies (j : option Job) (remote_id jobtype : option string)
    (w : Worker) : bool :=
  match target_jobtype j jobtype with
  | Some jt => WorkerManager.is_target j remote_id jt w
  | None => false
  end.

(** The pool entry the request is for: the first one, in the order of the
    pool list of the jobtype, that the request identifies. *)
Definition target (j : option Job) (remote_id jobtype : option string)
    (s : State) : option Worker :=
  match target_jobtype j jobtype with
  | Some jt => find (WorkerManager.is_target j remote_id jt) (pool_of jt s)
  | None => None
  end.

(** Draining the worker's cancellation jobs, then interrupting it. *)
Definition drain_and_interrupt (level : Z) (worker : Worker) : M State unit :=
  n <- gets (fun s => length (sched s)) ;;
  WorkerManager.drain_queries (S n) worker ;;
  worker_request_interrupt worker (Some level).

(** Workers are filed under the jobtype of their job. *)
Definition well_filed (s : State) : Prop :=
  forall jt w, In w (pool_of jt s) -> job_jobtype (job w) = jt.

Definition is_interrupt (ev : event) : bool :=
  match ev with
  | EvInterrupt _ _ => true
  | _ => false
  end.

(** The job a delete request is for: the job object given, or else the
    record found for the remote id and jobtype, if there is one. *)
Definition resolve (j : option Job) (remote_id jobtype : string) (e : Env)
  : option Job :=
  match j with
  | Some j' => Some j'
  | None =>
      find (fun r => String.eqb jobtype (job_jobtype r)
                     && String.eqb remote_id (job_remote_id r)) (rows e)
  end.

(** The table holds at most one record for an identity. *)
Definition identity_unique (e : Env) : Prop :=
  forall r1 r2,
    In r1 (rows e) -> In r2 (rows e) ->
    Queue.same_identity (job_jobtype r1) (job_remote_id r1) (job_instance r1) r2
    = true ->
    job_id r1 = job_id r2.

(** The state after [job.finish(delete=True)]. *)
Definition deleted (j : Job) (s : State) : State :=
  mkState (worker_pool s) (stopping_workers s) (looping s) (next_wid s)
          (with_rows (filter (fun r => negb (job_id r =? job_id j)%Z)
                             (rows (env s))) (env s))
          (trace s ++ [EvFinish j true]) (sched s).

(** The [threads] table after a thread was saved: a row for the thread is
    there, inserted if it was not, and carries the time of this scrape, the
    thread's modification time and one more index position. *)
Definition recorded (s : BoardScraper.Scraper) (no last_modified : Z)
    (board : string) : list ThreadRow :=
  let old := threads (BoardScraper.world s) in
  let present :=
    match find (fun r => (thread_id r =? no)%Z) old with
    | None => old ++ [mkThreadRow no board "" 0 0 0]
    | Some _ => old
    end in
  map (fun r =>
         if (thread_id r =? no)%Z then
           mkThreadRow (thread_id r) (thread_board r)
             (index_positions r
              ++ (Py.str (BoardScraper.loop_time s) ++ ":"
                  ++ Py.str (BoardScraper.position s) ++ ","))%string
             (BoardScraper.loop_time s) last_modified (timestamp_deleted r)
         else r)
      present.

Definition new_threads (s : BoardScraper.Scraper) (no : Z) : Z :=
  match find (fun r => (thread_id r =? no)%Z)
             (threads (BoardScraper.world s)) with
  | None => 1%Z
  | Some _ => 0%Z
  end.

(** The maintenance jobs of lines 53-62, by jobtype and interval. *)
Definition maintenance_jobs : list (string * option Z) :=
  [("api", None); ("expire-datasets", Some 300%Z);
   ("datasource-metrics", Some 86400%Z); ("clean-temp-files", Some 3600%Z)].

(** No unclaimed job of the given jobtype is pending for the instance. *)
Definition not_pending (instance_id jobtype : string) (e : Env) : Prop :=
  existsb (fun j => Queue.same_identity jobtype instance_id (Some instance_id) j
                    && negb (is_claimed j)) (rows e) = false.

(** The record [add_job] makes, with id [id], at time [t]. *)
Definition maintenance_job (instance_id : string) (id t : Z)
    (spec : string * option Z) : Job :=
  mkJob id (fst spec) instance_id (Some instance_id) [] (snd spec) t false.

(** The state after a job was queued. *)
Definition queued (instance_id : string) (spec : string * option Z)
    (s : State) : State :=
  mkState (worker_pool s) (stopping_workers s) (looping s) (next_wid s)
          (mkEnv (rows (env s)
                  ++ [maintenance_job instance_id (serial (env s))
                        (now (env s)) spec])
                 (Z.succ (serial (env s))) (now (env s)) (live (env s))
                 (threads (env s)))
          (trace s ++ [EvAddJob (fst spec) instance_id (snd spec)
                         (Some instance_id)])
          (sched s).

(** ** Notions used in the further properties *)

(** The bookkeeping of the pool: no worker object is held twice, every
    worker object held was made by this manager (its identity is below
    [next_wid]), the stopping list holds no id twice, and every id in it is
    the job id of a worker that is still in the pool. *)
Definition pool_consistent (s : State) : Prop :=
  NoDup (map wid (pool_workers s))
  /\ (forall w, In w (pool_workers s) -> wid w < next_wid s)
  /\ NoDup (stopping_workers s)
  /\ (forall id, In id (stopping_workers s) ->
                 exists w, In w (pool_workers s) /\ job_id (job w) = id).

(** The worker objects that the loops over the pool meet, in order. *)
Definition pool_entries (s : State) : list Worker :=
  flat_map (fun jt => pool_of jt s) (Py.keys (worker_pool s)).

(** The life of the worker objects as a trace tells it: the objects
    started so far and the objects joined so far, or [None] once a call
    went against the life of a thread: an object started twice, or a join
    or an interrupt request on an object that was not started before or was
    joined before. *)
Definition life_step (l : option (list nat * list nat)) (ev : event)
  : option (list nat * list nat) :=
  match l with
  | None => None
  | Some (st, jn) =>
      let running v := existsb (Nat.eqb v) st && negb (existsb (Nat.eqb v) jn) in
      match ev with
      | EvStart v => if existsb (Nat.eqb v) st then None else Some (v :: st, jn)
      | EvJoin v => if running v then Some (st, v :: jn) else None
      | EvInterrupt v _ => if running v then Some (st, jn) else None
      | _ => Some (st, jn)
      end
  end.

Definition life (tr : list event) : option (list nat * list nat) :=
  fold_left life_step tr (Some ([], [])).

(** What the manager knows of its workers agrees with the calls made: the
    objects started are among the ones made so far, and the workers in the
    pool are started and not joined. *)
Definition life_inv (s : State) : Prop :=
  NoDup (map wid (pool_workers s))
  /\ exists st jn,
       life (trace s) = Some (st, jn)
       /\ (forall v, In v st -> v < next_wid s)
       /\ (forall v, In v jn -> v < next_wid s)
       /\ (forall w, In w (pool_workers s) -> In (wid w) st /\ ~ In (wid w) jn).

(** The calls that a tick begun in [s] may make on workers: a join of a
    pool entry that was not running, an interrupt request without level on
    a pool entry that was running and whose job was not in the table. *)
Definition tick_calls (s : State) (evs : list event) : Prop :=
  (forall v, In (EvJoin v) evs ->
             exists jt w, In w (pool_of jt s) /\ wid w = v
                          /\ alive w (env s) = false)
  /\ (forall v l, In (EvInterrupt v l) evs ->
                  l = None
                  /\ exists jt w,
                       In w (pool_of jt s) /\ wid w = v
                       /\ alive w (env s) = true
                       /\ ~ In (job_id (job w)) (map job_id (rows (env s)))).

(** A pass in the world [e] over a pool whose list of [jt] holds no worker
    twice: [wk] was joined, or it is in that list behind fewer than [p]
    workers. *)
Definition nearer (wk : Worker) (jt : string) (e : Env) (p : nat) (s : State)
  : Prop :=
  env s = e
  /\ NoDup (map wid (pool_of jt s))
  /\ (In (EvJoin (wid wk)) (trace s)
      \/ exists pre post,
           pool_of jt s = pre ++ wk :: post /\ length pre < p).

(** [wk] was joined, or it is in the list of [jt] behind fewer than [p]
    workers. *)
Definition joined_or_nearer (wk : Worker) (jt : string) (p : nat) (s : State)
  : Prop :=
  In (EvJoin (wid wk)) (trace s)
  \/ exists pre post, pool_of jt s = pre ++ wk :: post /\ length pre < p.

(** Since [s0], at time [t]: the job [j] still waits in the table and its
    jobtype has fewer than [limit] workers. *)
Definition still_waiting (j : Job) (t : Z) (limit : nat) (s0 s : State)
  : Prop :=
  now (env s) = t
  /\ In j (rows (env s))
  /\ length (pool_of (job_jobtype j) s) < limit
  /\ next_wid s0 <= next_wid s
  /\ exists evs, trace s = trace s0 ++ evs.

(** A worker for [j] was started since [s0], right after the claim, and is
    in the pool. *)
Definition started_for (j : Job) (s0 s : State) : Prop :=
  exists w tr1 tr2,
    In w (pool_of (job_jobtype j) s)
    /\ job w = j
    /\ next_wid s0 <= wid w
    /\ trace s = trace s0 ++ tr1 ++ EvClaim j :: EvStart (wid w) :: tr2.

(** The state after calls that only the trace records. *)
Definition traced (evs : list event) (s : State) : State :=
  mkState (worker_pool s) (stopping_workers s) (looping s) (next_wid s)
          (env s) (trace s ++ evs) (sched s).

(** The state after the shutdown calls on the workers [ws]: an interrupt
    request for each, then a join for each. *)
Definition stopped_all (ws : list Worker) (s : State) : State :=
  traced (map (fun w => EvInterrupt (wid w) None) ws
          ++ map (fun w => EvJoin (wid w)) ws) s.

(** What waiting for the worker [w] to stop makes of the world [e] and of
    the moves still scheduled: moves are made as long as the worker is
    running. *)
Fixpoint awaited (w : Worker) (e : Env) (moves : list (Env -> Env))
  : Env * list (Env -> Env) :=
  match moves with
  | [] => (e, [])
  | move :: rest => if alive w e then awaited w (move e) rest else (e, moves)
  end.

(** The state after a wait for the worker [w] to stop. *)
Definition waited (w : Worker) (s : State) : State :=
  mkState (worker_pool s) (stopping_workers s) (looping s) (next_wid s)
          (fst (awaited w (env s) (sched s))) (trace s)
          (snd (awaited w (env s) (sched s))).

(** The interrupt requests of the shutdown, one for each worker of the
    pool. *)
Definition asked_all (s : State) : State :=
  traced (map (fun w => EvInterrupt (wid w) None) (pool_entries s)) s.

(** The state after an [add_job] call that failed. *)
Definition refused (instance_id : string) (spec : string * option Z)
    (s : State) : State :=
  traced [EvAddJob (fst spec) instance_id (snd spec) (Some instance_id)] s.

(** The scraper after [n] more threads were met. *)
Definition moved (n : Z) (s : BoardScraper.Scraper) : BoardScraper.Scraper :=
  BoardScraper.mkScraper (BoardScraper.position s + n)%Z
    (BoardScraper.loop_time s) (BoardScraper.world s).

(** A thread that lacks one of the required fields. *)
Definition incomplete (thread : Py.dict Z) : Prop :=
  Py.get "no" thread = None \/ Py.get "last_modified" thread = None.

(** The calls that a tick begun in [s] may make on the queue: claims of
    jobs of the enumeration that were claimable and whose jobtype is
    registered, and nothing else. *)
Definition tick_queue_calls (all_modules : Modules) (s : State)
    (evs : list event) : Prop :=
  forall ev, In ev evs ->
    match ev with
    | EvClaim j =>
        In j (rows (env s))
        /\ Queue.is_claimable (now (env s)) j = true
        /\ Py.get (job_jobtype j) (workers all_modules) <> None
    | EvRelease _ _ _ | EvFinish _ _ | EvAddJob _ _ _ _ => False
    | _ => True
    end.

(** ** The pass over a pool list, entry by entry *)

(** The workers that a pass over the list [l] meets, in the order met, in
    a world [e]: the iterator of [for worker in all_workers] (line 86) holds
    an index [i] into the list as it is now, and a worker that is met and
    has stopped is removed from that list on the spot (line 89). *)
Fixpoint met_at (e : Env) (fuel i : nat) (l : list Worker) : list Worker :=
  match fuel with
  | O => []
  | S fuel' =>
      match nth_error l i with
      | None => []
      | Some w =>
          w :: met_at e fuel' (S i)
                 (if alive w e then l else Py.remove worker_eqb w l)
      end
  end.

(** The pass over the pool list of [jt] in [s] meets [w]. *)
Definition meets (w : Worker) (jt : string) (s : State) : Prop :=
  In w (met_at (env s) (length (pool_of jt s)) 0 (pool_of jt s)).

(** The same workers, for a list that holds no worker twice: the entry
    behind a stopped worker that is met is stepped over.  [skip] tells
    whether the head of the list is stepped over. *)
Fixpoint met (e : Env) (skip : bool) (l : list Worker) : list Worker :=
  match l with
  | [] => []
  | w :: r => if skip then met e false r else w :: met e (negb (alive w e)) r
  end.

(** The state after the workers [m] were met one after the other. *)
Definition pass_over (known : list Z) (jt : string) (m : list Worker)
    (s : State) : State :=
  fold_left (fun s w => reconciled known jt w s) m s.

(** In the world [e], the job id of [wk] is not in the stopping list, [wk]
    is the only pool entry that carries it, and [wk] has received [c]
    interrupts. *)
Definition pending (wk : Worker) (e : Env) (c : nat) (s : State) : Prop :=
  env s = e
  /\ ~ In (job_id (job wk)) (stopping_workers s)
  /\ sole_carrier wk s
  /\ interrupts_of (wid wk) (trace s) = c.

(** ** The rounds of a targeted interrupt *)

(** The rounds of the loop of lines 229-244 for [worker]: from [s], with
    the snapshots [rounds] of outstanding cancellation jobs taken at line
    230, one per round and none of them empty, the manager has forced each
    snapshot and slept after it, which leaves it in [s']. *)
Inductive drained (worker : Worker) : State -> list (list Job) -> State -> Prop :=
| drained_here s : drained worker s [] s
| drained_round s qs move rest rounds s' :
    cancel_rows (Some (appname worker)) (env s) = qs ->
    qs <> [] ->
    sched s = move :: rest ->
    drained worker (slept 250 move rest (forced_all qs s)) rounds s' ->
    drained worker s (qs :: rounds) s'.

(** The events of these rounds. *)
Definition rounds_events (rounds : list (list Job)) : list event :=
  flat_map (fun qs => round_events qs ++ [EvSleep 250]) rounds.

(** * Concrete runs *)

Module Examples.

(** The board scraper's class, [max_workers = 2]; its workers name their
    connection after their job. *)
Definition board_class : WorkerClass :=
  mkWorkerClass BoardScraper.max_workers
                (fun j => ("worker-" ++ Py.str (job_id j))%string).

Definition registry : Modules := mkModules [("board", board_class)] [].

Definition board_job (id : Z) : Job :=
  mkJob id "board" "b" None [] None 0 false.

Definition board_worker (n : nat) (id : Z) : Worker :=
  mkWorker n (board_job id) (connect board_class (board_job id)).

(** A world with the given job table and running workers. *)
Definition world_of (jobs : list Job) (running : list nat) : Env :=
  mkEnv jobs 100 1000 running [].

(** What the rest of the world does during a sleep: the table and the set
    of running workers become the given ones. *)
Definition becomes (jobs : list Job) (running : list nat) : Env -> Env :=
  fun e => mkEnv jobs (serial e) (now e + 1)%Z running (threads e).

(** Four workers in the pool, all stopped. *)
Definition all_stopped : State :=
  mkState [("board", [board_worker 0 1; board_worker 1 2;
                      board_worker 2 3; board_worker 3 4])]
          [] true 4 (world_of [] []) [] [].

(** Two running workers fill the pool; a third board job is claimable. *)
Definition full_pool : State :=
  mkState [("board", [board_worker 0 1; board_worker 1 2])]
          [] true 2
          (world_of [mkJob 1 "board" "b" None [] None 0 true;
                     mkJob 2 "board" "b" None [] None 0 true;
                     board_job 3] [0; 1])
          [] [becomes [board_job 3] [0; 1]].

(** One running worker whose job has been deleted; nothing else happens
    during the next three sleeps. *)
Definition one_draining : State :=
  mkState [("board", [board_worker 0 5])] [] true 1 (world_of [] [0]) []
          [becomes [] [0]; becomes [] [0]; becomes [] [0]].

(** Job 5 is claimed and a worker started for it; the worker releases the
    job and goes on running; the job is claimed again and a second worker
    started; the job is deleted; the second worker stops; the first one is
    still running two ticks later. *)
Definition shared_job_run : State :=
  fresh_manager (world_of [board_job 5] [])
    [becomes [board_job 5] [0];
     becomes [] [0; 1];
     becomes [] [0];
     becomes [] [0];
     becomes [] [0]].

(** Jobs 1 and 2 are claimed and workers started; the first worker
    finishes its job and stops while job 2 is deleted; then the second
    worker stops of its own. *)
Definition skipped_run : State :=
  fresh_manager (world_of [board_job 1; board_job 2] [])
    [becomes [] [1];
     becomes [] [];
     becomes [] []].

Definition cancel_job (claimed : bool) : Job :=
  mkJob 7 "cancel-pg-query" "worker-7" None [] None 0 claimed.

(** The cancellation job is run and deleted during the first sleep. *)
Definition cancel_done : Env -> Env :=
  fun e => mkEnv [] (serial e) (now e + 1)%Z (live e) (threads e).

(** A cancellation job for connection "worker-7" is outstanding and is
    being run: it is claimed. *)
Definition cancel_running : State :=
  fresh_manager (world_of [cancel_job true] []) [cancel_done].

(** The same, with the worker that owns the connection in the pool. *)
Definition cancel_running_with_worker : State :=
  mkState [("board", [board_worker 0 7])] [] true 1
          (world_of [cancel_job true] [0]) [] [cancel_done].

(** A cancellation job for connection "worker-7" is outstanding and
    unclaimed. *)
Definition cancel_pending : State :=
  fresh_manager (world_of [cancel_job false] []) [cancel_done].

(** A scraper for board "b" while the job for thread 123 is pending. *)
Definition scraper : BoardScraper.Scraper :=
  BoardScraper.mkScraper 4 1000
    (world_of [mkJob 1 "thread" "123" None [("board", "b")] None 0 false] []).

Definition thread_123 : Py.dict Z := [("no", 123%Z); ("last_modified", 990%Z)].

(** Two workers in the pool, both stopped; nothing else happens during
    the next two sleeps. *)
Definition two_stopped : State :=
  mkState [("board", [board_worker 0 1; board_worker 1 2])] [] true 2
          (world_of [] []) []
          [becomes [] []; becomes [] []].

(** The pool of [full_pool] once the stop flag is down. *)
Definition stopping_manager : State := with_looping false full_pool.

(** Workers of the sources all have [request_interrupt]; an [abort] of
    other workers is taken to leave the world as it is. *)
Definition has_request_interrupt : Worker -> bool := fun _ => true.
Definition worker_abort : Worker -> M Env unit := fun _ => ret tt.

(** A manager about to start for instance "4cat" while the job that
    expires datasets is still pending from an earlier run. *)
Definition restarted : State :=
  fresh_manager
    (world_of [mkJob 1 "expire-datasets" "4cat" (Some "4cat") [] (Some 300%Z)
                 0 false] [])
    [].

(** A page of two threads, one without [last_modified] and one without
    [no]. *)
Definition broken_page : list (Py.dict Z) :=
  [[("no", 5%Z)]; [("last_modified", 7%Z)]].

(** Jobs 1 and 2 are claimed and workers started; the first worker
    finishes its job and stops while job 2 is deleted; the second worker
    goes on running. *)
Definition stepped_over_run : State :=
  fresh_manager (world_of [board_job 1; board_job 2] [])
    [becomes [] [1];
     becomes [] [1];
     becomes [] [1]].

(** A running worker whose job is claimed; a stop request arrives during
    the first sleep; the worker stops one move after it was asked to. *)
Definition stop_requested : State :=
  mkState [("board", [board_worker 0 1])] [] true 1
          (world_of [mkJob 1 "board" "b" None [] None 0 true] [0]) []
          [becomes [mkJob 1 "board" "b" None [] None 0 true] [0];
           becomes [] [];
           becomes [] []].

(** The stop flag is down; the first worker of the pool has stopped and
    the second one stops two moves later. *)
Definition winding_down : State :=
  mkState [("board", [board_worker 0 1; board_worker 1 2])] [] false 2
          (world_of [] [1]) []
          [becomes [] [1]; becomes [] []; becomes [] []].

End Examples.

(** * Reasoning about computations *)

Section Laws.
Context {S A B : Type}.

Lemma bind_ok (m : M S A) (k : A -> M S B) s a s1 :
  m s = (Ok a, s1) -> bind m k s = k a s1.
Proof. intros H. unfold bind. now rewrite H. Qed.

Lemma bind_raise (m : M S A) (k : A -> M S B) s e s1 :
  m s = (Raise e, s1) -> bind m k s = (Raise e, s1).
Proof. intros H. unfold bind. now rewrite H. Qed.

Lemma bind_blocked (m : M S A) (k : A -> M S B) s s1 :
  m s = (Blocked, s1) -> bind m k s = (Blocked, s1).
Proof. intros H. unfold bind. now rewrite H. Qed.

Lemma run_eta (m : M S A) s : m s = (outcome m s, exec m s).
Proof. unfold outcome, exec. now destruct (m s). Qed.

End Laws.

Lemma bind_assoc {S A B C} (m : M S A) (k : A -> M S B) (h : B -> M S C) s :
  bind (bind m k) h s = bind m (fun a => bind (k a) h) s.
Proof. unfold bind. now destruct (m s) as [[a| |] s1]. Qed.

Lemma bind_ext {S A B} (m : M S A) (k k' : A -> M S B) s :
  (forall a s', k a s' = k' a s') -> bind m k s = bind m k' s.
Proof. intros E. unfold bind. destruct (m s) as [[a| |] s1]; auto. Qed.

Lemma for_each_app {S A} (xs ys : list A) (body : A -> M S unit) s s1 :
  for_each xs body s = (Ok tt, s1) ->
  for_each (xs ++ ys) body s = for_each ys body s1.
Proof.
  revert s. induction xs as [|x xs IH]; intros s H; simpl in *.
  - now inversion H.
  - unfold bind in *. destruct (body x s) as [[[]| |] s2]; try discriminate.
    now apply IH.
Qed.

(** ** Dictionaries and lists *)

Lemma get_set_same {V} k (v : V) d : Py.get k (Py.set k v d) = Some v.
Proof.
  induction d as [|[k' v'] d IH]; simpl.
  - now rewrite String.eqb_refl.
  - destruct (String.eqb k k') eqn:E; simpl; now rewrite E.
Qed.

Lemma get_set_other {V} k k' (v : V) d :
  k' <> k -> Py.get k' (Py.set k v d) = Py.get k' d.
Proof.
  intros N. induction d as [|[k0 v0] d IH]; simpl.
  - destruct (String.eqb k' k) eqn:E; auto.
    apply String.eqb_eq in E. contradiction.
  - destruct (String.eqb k k0) eqn:E; simpl.
    + apply String.eqb_eq in E. subst k0.
      destruct (String.eqb k' k) eqn:E'; auto.
      apply String.eqb_eq in E'. contradiction.
    + now rewrite IH.
Qed.

Lemma pool_of_set_same jt ws s :
  pool_of jt (with_pool (Py.set jt ws (worker_pool s)) s) = ws.
Proof. unfold pool_of. simpl. now rewrite get_set_same. Qed.

Lemma pool_of_set_other jt jt' ws s :
  jt' <> jt ->
  pool_of jt' (with_pool (Py.set jt ws (worker_pool s)) s) = pool_of jt' s.
Proof. intros N. unfold pool_of. simpl. now rewrite get_set_other. Qed.

Lemma keys_set_known {V} k (v v0 : V) d :
  Py.get k d = Some v0 -> Py.keys (Py.set k v d) = Py.keys d.
Proof.
  unfold Py.keys.
  induction d as [|[k' v'] d IH]; simpl; intros H; [discriminate|].
  destruct (String.eqb k k') eqn:E; simpl; auto.
  f_equal. now apply IH.
Qed.

Lemma remove_absent (x : Worker) xs :
  ~ In (wid x) (map wid xs) -> Py.remove worker_eqb x xs = xs.
Proof.
  induction xs as [|y ys IH]; simpl; intros N; auto.
  unfold worker_eqb at 1.
  destruct (Nat.eqb (wid x) (wid y)) eqn:E.
  - apply Nat.eqb_eq in E. exfalso. apply N. now left.
  - f_equal. apply IH. intros I. apply N. now right.
Qed.

Lemma remove_middle (x : Worker) pre post :
  ~ In (wid x) (map wid pre) ->
  Py.remove worker_eqb x (pre ++ x :: post) = pre ++ post.
Proof.
  induction pre as [|y ys IH]; simpl; intros N.
  - unfold worker_eqb. now rewrite Nat.eqb_refl.
  - unfold worker_eqb at 1.
    destruct (Nat.eqb (wid x) (wid y)) eqn:E.
    + apply Nat.eqb_eq in E. exfalso. apply N. now left.
    + f_equal. apply IH. intros I. apply N. now right.
Qed.

Lemma mem_true x xs : Py.mem x xs = true <-> In x xs.
Proof.
  unfold Py.mem. rewrite existsb_exists. split.
  - intros [y [I E]]. apply Z.eqb_eq in E. now subst.
  - intros I. exists x. split; auto. apply Z.eqb_refl.
Qed.

Lemma mem_false x xs : Py.mem x xs = false <-> ~ In x xs.
Proof.
  split; intros H.
  - intros I. apply mem_true in I. congruence.
  - destruct (Py.mem x xs) eqn:E; auto. apply mem_true in E. contradiction.
Qed.

(** ** One step of the reconciliation pass *)

Lemma state_eta s :
  mkState (worker_pool s) (stopping_workers s) (looping s) (next_wid s)
          (env s) (trace s) (sched s) = s.
Proof. now destruct s. Qed.

Lemma reconcile_worker_eq known jt w s :
  WorkerManager.reconcile_worker known jt w s =
  (Ok tt,
   if alive w (env s)
   then if to_interrupt known w s then interrupted w s else s
   else joined jt w s).
Proof.
  unfold WorkerManager.reconcile_worker, to_interrupt, alive, bind, is_alive,
    gets.
  destruct (existsb (Nat.eqb (wid w)) (live (env s))); simpl.
  - destruct (Py.mem (job_id (job w)) known); simpl; auto.
    destruct (Py.mem (job_id (job w)) (stopping_workers s)); simpl; auto.
  - unfold joined, pool_of. simpl.
    destruct (Py.mem (job_id (job w)) (stopping_workers s)); reflexivity.
Qed.

Lemma pool_of_joined jt jt' w s :
  pool_of jt' (joined jt w s) =
  if String.eqb jt' jt then Py.remove worker_eqb w (pool_of jt s)
  else pool_of jt' s.
Proof.
  unfold joined, pool_of at 1. simpl.
  destruct (String.eqb jt' jt) eqn:E.
  - apply String.eqb_eq in E. subst. now rewrite get_set_same.
  - apply String.eqb_neq in E. rewrite get_set_other by auto. reflexivity.
Qed.

Lemma reconcile_from_eq fuel i known jt s :
  WorkerManager.reconcile_from (S fuel) i known jt s =
  match nth_error (pool_of jt s) i with
  | None => (Ok tt, s)
  | Some w =>
      WorkerManager.reconcile_from fuel (S i) known jt (reconciled known jt w s)
  end.
Proof.
  simpl. unfold bind at 1, gets at 1.
  destruct (nth_error (pool_of jt s) i) as [w|]; auto.
  unfold bind. now rewrite reconcile_worker_eq.
Qed.

(** ** A pass over workers that have all stopped *)

Lemma every_other_In {A} (x : A) l : forall b, In x (every_other b l) -> In x l.
Proof.
  induction l as [|y l IH]; simpl; intros b H; auto.
  destruct b; simpl in H.
  - destruct H; eauto.
  - eauto.
Qed.

Lemma every_other_map {A B} (f : A -> B) l :
  forall b, map f (every_other b l) = every_other b (map f l).
Proof.
  induction l as [|y l IH]; simpl; intros b; auto.
  destruct b; simpl; now rewrite IH.
Qed.

Lemma every_other_NoDup {A} (l : list A) :
  NoDup l -> forall b, NoDup (every_other b l).
Proof.
  induction 1 as [|x l N ND IH]; simpl; intros b; [constructor|].
  destruct b; auto. constructor; auto.
  intros I. apply N. eapply every_other_In; eauto.
Qed.

Lemma every_other_length {A} (l : list A) :
  length (every_other false l) = Nat.div2 (length l)
  /\ length (every_other true l) = Nat.div2 (S (length l)).
Proof.
  induction l as [|x l [IH1 IH2]]; [now split|].
  split.
  - exact IH2.
  - change (S (length (every_other false l)) = S (Nat.div2 (length l))).
    now rewrite IH1.
Qed.

Lemma reconcile_from_stopped known jt :
  forall fuel rest pre s,
    pool_of jt s = pre ++ rest ->
    NoDup (map wid (pre ++ rest)) ->
    (forall w, In w rest -> alive w (env s) = false) ->
    length rest <= fuel ->
    exists s',
      WorkerManager.reconcile_from fuel (length pre) known jt s = (Ok tt, s')
      /\ pool_of jt s' = pre ++ every_other false rest
      /\ trace s' = trace s ++ map (fun w => EvJoin (wid w)) (every_other true rest)
      /\ env s' = env s.
Proof.
  induction fuel as [|fuel IH]; intros rest pre s P ND D L.
  - destruct rest; [|simpl in L; lia]. exists s. simpl.
    rewrite !app_nil_r in *. repeat split; auto.
  - rewrite reconcile_from_eq, P.
    destruct rest as [|w rest].
    + rewrite app_nil_r.
      replace (nth_error pre (length pre)) with (@None Worker)
        by (symmetry; apply nth_error_None; lia).
      exists s. simpl. rewrite !app_nil_r in *. repeat split; auto.
    + rewrite nth_error_app2, Nat.sub_diag by lia. simpl nth_error.
      unfold reconciled. rewrite (D w) by now left.
      assert (Nw : ~ In (wid w) (map wid pre)).
      { rewrite map_app in ND. simpl in ND.
        apply NoDup_remove_2 in ND. intros I. apply ND.
        apply in_or_app. now left. }
      assert (P1 : pool_of jt (joined jt w s) = pre ++ rest).
      { unfold joined, pool_of at 1. simpl. rewrite get_set_same.
        rewrite P. now apply remove_middle. }
      assert (ND1 : NoDup (map wid (pre ++ rest))).
      { rewrite map_app in *. simpl in ND. now apply NoDup_remove_1 in ND. }
      destruct rest as [|x rest].
      * clear IH. destruct fuel.
        -- exists (joined jt w s).
           simpl. rewrite app_nil_r in *. repeat split; auto.
        -- rewrite reconcile_from_eq, P1, app_nil_r.
           replace (nth_error pre (S (length pre))) with (@None Worker)
             by (symmetry; apply nth_error_None; lia).
           exists (joined jt w s). simpl. rewrite app_nil_r in *.
           repeat split; auto.
      * destruct (IH rest (pre ++ [x]) (joined jt w s)) as [s' [R [Q [T E]]]].
        { rewrite P1. now rewrite <- app_assoc. }
        { now rewrite <- app_assoc. }
        { intros w' I. simpl. apply D. right. now right. }
        { simpl in L. lia. }
        exists s'. rewrite length_app, Nat.add_comm in R. simpl in R.
        split; [exact R|]. split; [|split].
        -- rewrite Q. simpl. now rewrite <- app_assoc.
        -- rewrite T. simpl. now rewrite <- app_assoc.
        -- rewrite E. reflexivity.
Qed.

Lemma reconcile_pool_stopped known jt s :
  NoDup (map wid (pool_of jt s)) ->
  (forall w, In w (pool_of jt s) -> alive w (env s) = false) ->
  exists s',
    WorkerManager.reconcile_pool known jt s = (Ok tt, s')
    /\ pool_of jt s' = every_other false (pool_of jt s)
    /\ trace s' = trace s ++ map (fun w => EvJoin (wid w))
                                 (every_other true (pool_of jt s))
    /\ env s' = env s.
Proof.
  intros ND D.
  destruct (reconcile_from_stopped known jt (length (pool_of jt s))
              (pool_of jt s) [] s) as [s' [R Q]]; auto.
  exists s'. split; auto.
Qed.

(** Once the pass is at index [length A], the entries [A] before that
    index stay where they are, whatever happens to the rest. *)
Lemma reconcile_from_tail known jt :
  forall fuel A B s,
    pool_of jt s = A ++ B ->
    NoDup (map wid (A ++ B)) ->
    exists s' B' evs,
      WorkerManager.reconcile_from fuel (length A) known jt s = (Ok tt, s')
      /\ pool_of jt s' = A ++ B'
      /\ (forall w, In w B' -> In w B)
      /\ trace s' = trace s ++ evs
      /\ (forall v, In (EvJoin v) evs -> In v (map wid B)).
Proof.
  induction fuel as [|fuel IH]; intros A B s P ND.
  { exists s, B, []. rewrite app_nil_r.
    repeat split; auto; try (intros v []). }
  rewrite reconcile_from_eq, P.
  destruct B as [|w B1].
  { rewrite app_nil_r.
    replace (nth_error A (length A)) with (@None Worker)
      by (symmetry; apply nth_error_None; lia).
    exists s, [], []. rewrite !app_nil_r in *.
    repeat split; auto; try (intros v []). }
  rewrite nth_error_app2, Nat.sub_diag by lia. cbn [nth_error].
  assert (Nw : ~ In (wid w) (map wid A)).
  { rewrite map_app in ND. cbn [map] in ND. apply NoDup_remove_2 in ND.
    intros I. apply ND. apply in_or_app. now left. }
  unfold reconciled. destruct (alive w (env s)).
  - assert (K : exists s1 ev1,
               (if to_interrupt known w s then interrupted w s else s) = s1
               /\ pool_of jt s1 = (A ++ [w]) ++ B1
               /\ trace s1 = trace s ++ ev1
               /\ forall v, ~ In (EvJoin v) ev1).
    { destruct (to_interrupt known w s).
      - exists (interrupted w s), [EvInterrupt (wid w) None].
        repeat split; auto.
        + unfold interrupted, pool_of. cbn [worker_pool].
          fold (pool_of jt s). now rewrite P, <- app_assoc.
        + intros v [I|[]]. discriminate.
      - exists s, []. rewrite app_nil_r. repeat split; auto.
        now rewrite P, <- app_assoc. }
    destruct K as [s1 [ev1 [E1 [P1 [T1 J1]]]]]. rewrite E1.
    destruct (IH (A ++ [w]) B1 s1 P1) as [s' [B' [evs [R [Q [Sub [T J]]]]]]].
    { now rewrite <- app_assoc. }
    rewrite length_app, Nat.add_comm in R. cbn [length Nat.add] in R.
    exists s', (w :: B'), (ev1 ++ evs). split; [exact R|].
    split; [now rewrite Q, <- app_assoc|].
    split; [intros w' [I|I]; [now left|right; auto]|].
    split; [now rewrite T, T1, app_assoc|].
    intros v I. apply in_app_or in I. destruct I as [I|I].
    + exfalso. eapply J1; eauto.
    + cbn [map]. right. auto.
  - assert (P1 : pool_of jt (joined jt w s) = A ++ B1).
    { rewrite pool_of_joined, String.eqb_refl, P. now apply remove_middle. }
    assert (ND1 : NoDup (map wid (A ++ B1))).
    { rewrite map_app in *. cbn [map] in ND. now apply NoDup_remove_1 in ND. }
    destruct B1 as [|x B2].
    + exists (joined jt w s), [], [EvJoin (wid w)].
      split.
      { destruct fuel; [reflexivity|].
        rewrite reconcile_from_eq, P1, app_nil_r.
        replace (nth_error A (S (length A))) with (@None Worker)
          by (symmetry; apply nth_error_None; lia).
        reflexivity. }
      split; [exact P1|]. split; [intros w' []|]. split; [reflexivity|].
      intros v [I|[]]. inversion I. now left.
    + destruct (IH (A ++ [x]) B2 (joined jt w s))
        as [s' [B' [evs [R [Q [Sub [T J]]]]]]].
      { now rewrite P1, <- app_assoc. }
      { now rewrite <- app_assoc. }
      rewrite length_app, Nat.add_comm in R. cbn [length Nat.add] in R.
      exists s', (x :: B'), (EvJoin (wid w) :: evs). split; [exact R|].
      split; [now rewrite Q, <- app_assoc|].
      split; [intros w' [I|I]; [right; now left|right; right; auto]|].
      split.
      { rewrite T. unfold joined. cbn [trace]. now rewrite <- app_assoc. }
      intros v [I|I].
      * inversion I. now left.
      * cbn [map]. right. right. auto.
Qed.

(** Over entries that are running the pass moves on, one index at a time,
    without touching the list. *)
Lemma reconcile_from_running known jt :
  forall pre2 pre1 rest s fuel,
    pool_of jt s = pre1 ++ pre2 ++ rest ->
    (forall w, In w pre2 -> alive w (env s) = true) ->
    exists s1 evs,
      WorkerManager.reconcile_from (length pre2 + fuel) (length pre1) known jt s
      = WorkerManager.reconcile_from fuel (length pre1 + length pre2) known jt s1
      /\ pool_of jt s1 = pool_of jt s
      /\ env s1 = env s
      /\ trace s1 = trace s ++ evs
      /\ (forall v, ~ In (EvJoin v) evs).
Proof.
  induction pre2 as [|w pre2 IH]; intros pre1 rest s fuel P A.
  { exists s, []. cbn [length Nat.add]. rewrite Nat.add_0_r, app_nil_r.
    repeat split; auto. }
  cbn [length Nat.add]. rewrite reconcile_from_eq, P.
  rewrite nth_error_app2, Nat.sub_diag by lia. cbn [app nth_error].
  unfold reconciled. rewrite (A w) by now left.
  assert (K : exists s0 ev0,
             (if to_interrupt known w s then interrupted w s else s) = s0
             /\ pool_of jt s0 = pool_of jt s
             /\ env s0 = env s
             /\ trace s0 = trace s ++ ev0
             /\ forall v, ~ In (EvJoin v) ev0).
  { destruct (to_interrupt known w s).
    - exists (interrupted w s), [EvInterrupt (wid w) None].
      repeat split; auto. intros v [I|[]]. discriminate.
    - exists s, []. rewrite app_nil_r. repeat split; auto. }
  destruct K as [s0 [ev0 [E0 [P0 [En0 [T0 J0]]]]]]. rewrite E0.
  destruct (IH (pre1 ++ [w]) rest s0 fuel) as [s1 [evs [R [P1 [En1 [T1 J1]]]]]].
  { rewrite P0, P, <- app_assoc. reflexivity. }
  { intros w' I. rewrite En0. apply A. now right. }
  rewrite length_app in R. cbn [length] in R.
  replace (length pre1 + 1) with (S (length pre1)) in R by lia.
  replace (S (length pre1) + length pre2)
    with (length pre1 + S (length pre2)) in R by lia.
  exists s1, (ev0 ++ evs). split; [exact R|].
  split; [now rewrite P1, P0, P|]. split; [congruence|].
  split; [now rewrite T1, T0, app_assoc|].
  intros v I. apply in_app_or in I. destruct I as [I|I]; [eapply J0|eapply J1];
    eauto.
Qed.

(** A stopped worker met by the pass, directly followed by another entry:
    the first is joined and removed, the second is stepped over. *)
Lemma reconcile_pool_pair known jt s pre w1 w2 post :
  NoDup (map wid (pool_of jt s)) ->
  pool_of jt s = pre ++ w1 :: w2 :: post ->
  (forall w, In w pre -> alive w (env s) = true) ->
  alive w1 (env s) = false ->
  exists s' post' evs1 evs2,
    WorkerManager.reconcile_pool known jt s = (Ok tt, s')
    /\ pool_of jt s' = pre ++ w2 :: post'
    /\ (forall w, In w post' -> In w post)
    /\ trace s' = trace s ++ evs1 ++ EvJoin (wid w1) :: evs2
    /\ ~ In (EvJoin (wid w2)) (evs1 ++ evs2)
    /\ ~ In (wid w1) (map wid (pool_of jt s')).
Proof.
  intros ND P A D1.
  unfold WorkerManager.reconcile_pool, bind, gets.
  rewrite P, length_app. cbn [length].
  destruct (reconcile_from_running known jt pre [] (w1 :: w2 :: post) s
              (S (S (length post))) P A)
    as [s1 [evs1 [R [P1 [En1 [T1 J1]]]]]].
  cbn [length Nat.add] in R. rewrite R, reconcile_from_eq, P1, P.
  rewrite nth_error_app2, Nat.sub_diag by lia. cbn [nth_error].
  unfold reconciled. rewrite En1, D1.
  rewrite P in ND.
  assert (Nw : ~ In (wid w1) (map wid pre)).
  { rewrite map_app in ND. cbn [map] in ND. apply NoDup_remove_2 in ND.
    intros I. apply ND. apply in_or_app. now left. }
  assert (ND1 : NoDup (map wid (pre ++ w2 :: post))).
  { rewrite map_app in *. cbn [map] in ND. now apply NoDup_remove_1 in ND. }
  assert (P2 : pool_of jt (joined jt w1 s1) = (pre ++ [w2]) ++ post).
  { rewrite pool_of_joined, String.eqb_refl, P1, P, <- app_assoc.
    now apply remove_middle. }
  destruct (reconcile_from_tail known jt (S (length post)) (pre ++ [w2]) post
              (joined jt w1 s1) P2)
    as [s' [post' [evs2 [R2 [Q [Sub [T J]]]]]]].
  { now rewrite <- app_assoc. }
  rewrite length_app, Nat.add_comm in R2. cbn [length Nat.add] in R2.
  exists s', post', evs1, evs2. split; [exact R2|].
  split; [now rewrite Q, <- app_assoc|]. split; [exact Sub|].
  assert (N2 : ~ In (wid w2) (map wid post)).
  { rewrite map_app in ND1. cbn [map] in ND1.
    apply NoDup_remove_2 in ND1. intros I. apply ND1. apply in_or_app.
    now right. }
  split.
  { rewrite T. unfold joined. cbn [trace]. rewrite T1, <- !app_assoc.
    reflexivity. }
  split.
  { intros I. apply in_app_or in I. destruct I as [I|I].
    - eapply J1; eauto.
    - apply N2. now apply J. }
  rewrite Q, <- app_assoc, map_app. cbn [app map].
  rewrite map_app in ND. cbn [map] in ND. apply NoDup_remove_2 in ND.
  intros I. apply ND. apply in_app_or in I. apply in_or_app.
  destruct I as [I|[I|I]]; auto.
  - right. now left.
  - right. right. apply in_map_iff in I. destruct I as [w [E I]].
    apply in_map_iff. exists w. split; auto.
Qed.

(** ** One step of the assignment pass *)

Lemma claim_cases j e :
  (Queue.claim j e = (Raise JobClaimedException, e))
  \/ (exists e', Queue.claim j e = (Ok tt, e')
                 /\ live e' = live e /\ now e' = now e
                 /\ map job_id (rows e') = map job_id (rows e)).
Proof.
  unfold Queue.claim.
  destruct (existsb _ (rows e)); [right|left; reflexivity].
  eexists. split; [reflexivity|]. simpl. repeat split.
  rewrite map_map. apply map_ext. intros r.
  now destruct ((job_id r =? job_id j)%Z && negb (is_claimed r)).
Qed.

Lemma pool_of_with_key jt jt' s : pool_of jt' (with_key jt s) = pool_of jt' s.
Proof.
  unfold with_key. destruct (Py.get jt (worker_pool s)) eqn:G; auto.
  destruct (String.eqb jt' jt) eqn:E.
  - apply String.eqb_eq in E. subst. rewrite pool_of_set_same.
    unfold pool_of. now rewrite G.
  - apply String.eqb_neq in E. now apply pool_of_set_other.
Qed.

Lemma assign_job_eq all_modules j s :
  WorkerManager.assign_job all_modules j s = (Ok tt, assigned all_modules j s).
Proof.
  unfold WorkerManager.assign_job, assigned.
  unfold bind at 1, gets at 1.
  destruct (negb (Queue.is_claimable (now (env s)) j)); [reflexivity|].
  destruct (Py.get (job_jobtype j) (workers all_modules)) as [wc|];
    [|reflexivity].
  unfold bind at 1, gets at 1.
  assert (K : (match Py.get (job_jobtype j) (worker_pool s) with
               | Some _ => ret tt
               | None => set_pool_of (job_jobtype j) []
               end) s = (Ok tt, with_key (job_jobtype j) s)).
  { unfold with_key. now destruct (Py.get (job_jobtype j) (worker_pool s)). }
  rewrite (bind_ok _ _ _ _ _ K). clear K.
  set (s1 := with_key (job_jobtype j) s).
  unfold bind at 1, gets at 1.
  destruct (length (pool_of (job_jobtype j) s1) <? max_workers wc)%nat;
    [|reflexivity].
  unfold try_except, job_claim, bind, emit, modify, on_env. simpl.
  destruct (claim_cases j (env s1)) as [C|[e' [C _]]]; rewrite C; simpl.
  - reflexivity.
  - unfold started, spawn, gets, set_pool_of, modify, pool_of. simpl.
    rewrite <- app_assoc. reflexivity.
Qed.

(** ** Invariants of a tick *)

Lemma reconciled_env known jt w s : env (reconciled known jt w s) = env s.
Proof.
  unfold reconciled.
  destruct (alive w (env s)); [destruct (to_interrupt known w s)|]; reflexivity.
Qed.

Lemma reconcile_from_inv (P : State -> Prop) known jt :
  (forall w s, P s -> In w (pool_of jt s) -> P (reconciled known jt w s)) ->
  forall fuel i s,
    P s ->
    exists s', WorkerManager.reconcile_from fuel i known jt s = (Ok tt, s')
               /\ P s'.
Proof.
  intros Step. induction fuel as [|fuel IH]; intros i s H.
  - exists s. now split.
  - rewrite reconcile_from_eq.
    destruct (nth_error (pool_of jt s) i) as [w|] eqn:N.
    + apply IH. apply Step; auto. eapply nth_error_In; eauto.
    + exists s. now split.
Qed.

Lemma reconcile_pool_inv (P : State -> Prop) known jt :
  (forall w s, P s -> In w (pool_of jt s) -> P (reconciled known jt w s)) ->
  forall s, P s ->
    exists s', WorkerManager.reconcile_pool known jt s = (Ok tt, s') /\ P s'.
Proof.
  intros Step s H. unfold WorkerManager.reconcile_pool, bind, gets.
  now apply reconcile_from_inv.
Qed.

Lemma reconcile_all_inv (P : State -> Prop) known :
  (forall jt w s, P s -> In w (pool_of jt s) -> P (reconciled known jt w s)) ->
  forall jts s, P s ->
    exists s', for_each jts (WorkerManager.reconcile_pool known) s = (Ok tt, s')
               /\ P s'.
Proof.
  intros Step. induction jts as [|jt jts IH]; intros s H; simpl.
  - exists s. now split.
  - destruct (reconcile_pool_inv P known jt (Step jt) s H) as [s1 [R H1]].
    rewrite (bind_ok _ _ _ _ _ R). now apply IH.
Qed.

Lemma assign_all_inv (P : State -> Prop) all_modules :
  forall jobs,
    (forall j s, P s -> In j jobs -> P (assigned all_modules j s)) ->
    forall s, P s ->
      exists s', for_each jobs (WorkerManager.assign_job all_modules) s
                 = (Ok tt, s') /\ P s'.
Proof.
  induction jobs as [|j jobs IH]; intros Step s H; simpl.
  - exists s. now split.
  - rewrite (bind_ok _ _ _ _ _ (assign_job_eq all_modules j s)).
    apply IH.
    + intros j' s' H' I. apply Step; auto. now right.
    + apply Step; auto. now left.
Qed.

Lemma snapshot_all e :
  Queue.get_all_jobs None None false e = (Ok (rows e), e).
Proof.
  unfold Queue.get_all_jobs, gets. simpl. f_equal. f_equal.
  induction (rows e) as [|j l IH]; simpl; auto. now rewrite IH.
Qed.

Lemma with_env_same s : with_env (env s) s = s.
Proof. now destruct s. Qed.

Lemma delegate_split all_modules s :
  WorkerManager.delegate all_modules s =
  bind (tick_work all_modules) (fun _ => time_sleep 1000) s.
Proof.
  unfold WorkerManager.delegate, tick_work. cbv zeta.
  rewrite bind_assoc. apply bind_ext; intros jobs s1.
  rewrite bind_assoc. apply bind_ext; intros jts s2.
  now rewrite bind_assoc.
Qed.

(** A tick's work keeps [P] when each step of the reconciliation pass
    (made in the world the tick started in) and each step of the
    assignment pass keep it. *)
Lemma tick_work_inv (P : State -> Prop) all_modules s :
  P s ->
  (forall jt w s', P s' -> env s' = env s -> In w (pool_of jt s') ->
                   P (reconciled (map job_id (rows (env s))) jt w s')) ->
  (forall j s', P s' -> In j (rows (env s)) -> P (assigned all_modules j s')) ->
  exists s', tick_work all_modules s = (Ok tt, s') /\ P s'.
Proof.
  intros H Rec Asg. unfold tick_work.
  assert (G : on_env (Queue.get_all_jobs None None false) s
              = (Ok (rows (env s)), s)).
  { unfold on_env. rewrite snapshot_all. now rewrite with_env_same. }
  rewrite (bind_ok _ _ _ _ _ G). unfold bind at 1, gets at 1.
  destruct (reconcile_all_inv (fun s' => P s' /\ env s' = env s)
              (map job_id (rows (env s)))) with (jts := Py.keys (worker_pool s))
              (s := s) as [s1 [R [H1 E1]]].
  { intros jt w s' [H' E'] I. split; [now apply Rec|].
    now rewrite reconciled_env. }
  { now split. }
  rewrite (bind_ok _ _ _ _ _ R).
  now apply assign_all_inv.
Qed.

Lemma delegate_inv (P : State -> Prop) all_modules s :
  P s ->
  (forall jt w s', P s' -> env s' = env s -> In w (pool_of jt s') ->
                   P (reconciled (map job_id (rows (env s))) jt w s')) ->
  (forall j s', P s' -> In j (rows (env s)) -> P (assigned all_modules j s')) ->
  (forall s' move rest, P s' -> P (slept 1000 move rest s')) ->
  P (exec (WorkerManager.delegate all_modules) s).
Proof.
  intros H Rec Asg Slp.
  destruct (tick_work_inv P all_modules s H Rec Asg) as [s1 [W H1]].
  unfold exec. rewrite delegate_split, (bind_ok _ _ _ _ _ W).
  unfold time_sleep. destruct (sched s1) as [|move rest]; simpl; auto.
  now apply Slp.
Qed.

(** ** The capacity bound *)

Lemma remove_length {A} (eqb : A -> A -> bool) x xs :
  length (Py.remove eqb x xs) <= length xs.
Proof.
  induction xs as [|y ys IH]; simpl; auto.
  destruct (eqb x y); simpl; lia.
Qed.

Lemma reconciled_pool_length known jt jt' w s :
  length (pool_of jt' (reconciled known jt w s)) <= length (pool_of jt' s).
Proof.
  unfold reconciled.
  destruct (alive w (env s)); [destruct (to_interrupt known w s); auto|].
  rewrite pool_of_joined. destruct (String.eqb jt' jt) eqn:E; auto.
  apply String.eqb_eq in E. subst. apply remove_length.
Qed.

(** The fuel given to a pass, the length of the list on entry, is enough:
    the pass ends on an index past the end of the list, and more fuel would
    change nothing. *)
Lemma reconcile_from_fuel known jt :
  forall fuel i s extra,
    length (pool_of jt s) <= i + fuel ->
    WorkerManager.reconcile_from (fuel + extra) i known jt s
    = WorkerManager.reconcile_from fuel i known jt s.
Proof.
  induction fuel as [|fuel IH]; intros i s extra L.
  - cbn [Nat.add]. destruct extra; [reflexivity|].
    rewrite reconcile_from_eq.
    replace (nth_error (pool_of jt s) i) with (@None Worker)
      by (symmetry; apply nth_error_None; lia).
    reflexivity.
  - cbn [Nat.add]. rewrite !reconcile_from_eq.
    destruct (nth_error (pool_of jt s) i) as [w|]; [|reflexivity].
    apply IH.
    pose proof (reconciled_pool_length known jt jt w s). lia.
Qed.

Lemma pool_of_started wc j e' s jt' :
  pool_of jt' (started wc j e' s) =
  if String.eqb jt' (job_jobtype j)
  then pool_of (job_jobtype j) s ++ [mkWorker (next_wid s) j (connect wc j)]
  else pool_of jt' s.
Proof.
  unfold started, pool_of at 1. simpl.
  destruct (String.eqb jt' (job_jobtype j)) eqn:E.
  - apply String.eqb_eq in E. subst. now rewrite get_set_same.
  - apply String.eqb_neq in E. rewrite get_set_other by auto. reflexivity.
Qed.

(** What an assignment step does, by cases. *)
Lemma assigned_cases all_modules j s :
  (assigned all_modules j s = s)
  \/ (assigned all_modules j s = with_key (job_jobtype j) s)
  \/ (Queue.is_claimable (now (env s)) j = true
      /\ exists wc,
           Py.get (job_jobtype j) (workers all_modules) = Some wc
           /\ length (pool_of (job_jobtype j) s) < max_workers wc
           /\ (assigned all_modules j s
                 = claim_lost j (with_key (job_jobtype j) s)
               \/ exists e',
                    Queue.claim j (env s) = (Ok tt, e')
                    /\ assigned all_modules j s
                       = started wc j e' (with_key (job_jobtype j) s))).
Proof.
  unfold assigned.
  destruct (Queue.is_claimable (now (env s)) j) eqn:C; simpl; auto.
  destruct (Py.get (job_jobtype j) (workers all_modules)) as [wc|] eqn:G; auto.
  destruct (length (pool_of (job_jobtype j) (with_key (job_jobtype j) s))
            <? max_workers wc)%nat eqn:L; auto.
  right. right. split; auto. exists wc. split; auto.
  apply Nat.ltb_lt in L. rewrite pool_of_with_key in L. split; auto.
  assert (E : env (with_key (job_jobtype j) s) = env s).
  { unfold with_key. now destruct (Py.get (job_jobtype j) (worker_pool s)). }
  rewrite E.
  destruct (claim_cases j (env s)) as [K|[e' [K _]]]; rewrite K; auto.
  right. now exists e'.
Qed.

Lemma assigned_capacity all_modules j s :
  capacity_ok all_modules s -> capacity_ok all_modules (assigned all_modules j s).
Proof.
  intros H jt wc G.
  destruct (assigned_cases all_modules j s)
    as [E|[E|[_ [wc' [G' [L [E|[e' [_ E]]]]]]]]]; rewrite E.
  - now apply H.
  - rewrite pool_of_with_key. now apply H.
  - unfold claim_lost, pool_of. simpl. fold (pool_of jt (with_key (job_jobtype j) s)).
    rewrite pool_of_with_key. now apply H.
  - rewrite pool_of_started, !pool_of_with_key.
    destruct (String.eqb jt (job_jobtype j)) eqn:Q; [|now apply H].
    apply String.eqb_eq in Q. subst jt. rewrite G in G'. inversion G'; subst.
    rewrite length_app. simpl. lia.
Qed.

Lemma delegate_capacity all_modules s :
  capacity_ok all_modules s ->
  capacity_ok all_modules (exec (WorkerManager.delegate all_modules) s).
Proof.
  intros H. apply delegate_inv; auto.
  - intros jt w s' H' _ _ jt' wc G.
    eapply Nat.le_trans; [apply reconciled_pool_length|]. now apply H'.
  - intros j s' H' _. now apply assigned_capacity.
Qed.

(** A tick never raises; it ends asleep only when the schedule of the run
    has no move left for its final sleep. *)
Lemma delegate_outcome all_modules s :
  outcome (WorkerManager.delegate all_modules) s = Ok tt
  \/ (outcome (WorkerManager.delegate all_modules) s = Blocked
      /\ sched (exec (WorkerManager.delegate all_modules) s) = []).
Proof.
  destruct (tick_work_inv (fun s' => sched s' = sched s) all_modules s)
    as [s1 [W H1]]; auto.
  - intros jt w s' H' _ _. rewrite <- H'. unfold reconciled.
    destruct (alive w (env s')); [destruct (to_interrupt _ w s')|];
      reflexivity.
  - intros j s' H' _. rewrite <- H'.
    destruct (assigned_cases all_modules j s')
      as [E|[E|[_ [wc [_ [_ [E|[e' [_ E]]]]]]]]]; rewrite E; try reflexivity;
      unfold with_key; destruct (Py.get (job_jobtype j) (worker_pool s'));
      reflexivity.
  - unfold outcome, exec. rewrite delegate_split, (bind_ok _ _ _ _ _ W).
    unfold time_sleep. destruct (sched s1) eqn:E; simpl; auto.
Qed.

Lemma ticks_inv (P : State -> Prop) all_modules :
  (forall s, P s -> P (exec (WorkerManager.delegate all_modules) s)) ->
  forall n s, P s -> P (exec (WorkerManager.ticks all_modules n) s).
Proof.
  intros Step. induction n as [|n IH]; intros s H; simpl; auto.
  unfold exec, bind.
  pose proof (Step s H) as H1. unfold exec in H1.
  destruct (WorkerManager.delegate all_modules s) as [[[]| |] s1]; simpl in *;
    auto.
  now apply IH.
Qed.

Lemma delegate_at_capacity all_modules s jt wc :
  Py.get jt (workers all_modules) = Some wc ->
  max_workers wc <= length (pool_of jt s) ->
  (forall w, In w (pool_of jt s) -> alive w (env s) = true) ->
  let s' := exec (WorkerManager.delegate all_modules) s in
  pool_of jt s' = pool_of jt s
  /\ exists evs, trace s' = trace s ++ evs /\ unclaimed_in jt evs.
Proof.
  intros G Full Live.
  apply (delegate_inv
           (fun s' => pool_of jt s' = pool_of jt s
                      /\ exists evs, trace s' = trace s ++ evs
                                     /\ unclaimed_in jt evs)).
  - split; auto. exists []. rewrite app_nil_r. split; auto. intros j _ [].
  - intros jt2 w s' [Pl [evs [T U]]] E I. unfold reconciled.
    destruct (alive w (env s')) eqn:A.
    + destruct (to_interrupt _ w s'); [|split; eauto].
      split; auto. exists (evs ++ [EvInterrupt (wid w) None]).
      simpl. rewrite T, app_assoc. split; auto.
      intros j J K. apply in_app_or in K. destruct K as [K|[K|[]]].
      * now apply (U j).
      * discriminate.
    + rewrite pool_of_joined. destruct (String.eqb jt jt2) eqn:Q.
      * apply String.eqb_eq in Q. subst jt2. rewrite Pl in I.
        apply Live in I. rewrite E in A. congruence.
      * split; auto. exists (evs ++ [EvJoin (wid w)]).
        simpl. rewrite T, app_assoc. split; auto.
        intros j J K. apply in_app_or in K. destruct K as [K|[K|[]]].
        -- now apply (U j).
        -- discriminate.
  - intros j s' [Pl [evs [T U]]] _.
    destruct (assigned_cases all_modules j s')
      as [E|[E|[_ [wc' [G' [L [E|[e' [_ E]]]]]]]]]; rewrite E.
    + split; eauto.
    + rewrite pool_of_with_key. split; auto. exists evs. split; auto.
      unfold with_key. now destruct (Py.get (job_jobtype j) (worker_pool s')).
    + assert (N : job_jobtype j <> jt).
      { intros Q. subst jt. rewrite G in G'. inversion G'; subst.
        rewrite Pl in L. lia. }
      split.
      * unfold claim_lost, pool_of. simpl.
        fold (pool_of jt (with_key (job_jobtype j) s')).
        now rewrite pool_of_with_key.
      * exists (evs ++ [EvClaim j]). simpl.
        replace (trace (with_key (job_jobtype j) s')) with (trace s')
          by (unfold with_key;
              now destruct (Py.get (job_jobtype j) (worker_pool s'))).
        rewrite T, app_assoc. split; auto.
        intros j' J K. apply in_app_or in K. destruct K as [K|[K|[]]].
        -- now apply (U j').
        -- inversion K; subst. contradiction.
    + assert (N : job_jobtype j <> jt).
      { intros Q. subst jt. rewrite G in G'. inversion G'; subst.
        rewrite Pl in L. lia. }
      split.
      * rewrite pool_of_started.
        apply String.eqb_neq in N. rewrite String.eqb_sym in N.
        rewrite N. now rewrite pool_of_with_key.
      * exists (evs ++ [EvClaim j; EvStart (next_wid (with_key (job_jobtype j) s'))]).
        simpl.
        replace (trace (with_key (job_jobtype j) s')) with (trace s')
          by (unfold with_key;
              now destruct (Py.get (job_jobtype j) (worker_pool s'))).
        rewrite T, app_assoc. split; auto.
        intros j' J K. apply in_app_or in K.
        destruct K as [K|[K|[K|[]]]].
        -- now apply (U j').
        -- inversion K; subst. contradiction.
        -- discriminate.
  - intros s' move rest [Pl [evs [T U]]]. split; auto.
    exists (evs ++ [EvSleep 1000]). simpl. rewrite T, app_assoc. split; auto.
    intros j J K. apply in_app_or in K. destruct K as [K|[K|[]]].
    + now apply (U j).
    + discriminate.
Qed.

Lemma assign_job_guard all_modules j s :
  let s' := exec (WorkerManager.assign_job all_modules j) s in
  (trace s' <> trace s \/ next_wid s' <> next_wid s
   \/ exists jt, pool_of jt s' <> pool_of jt s) ->
  Queue.is_claimable (now (env s)) j = true
  /\ exists wc,
       Py.get (job_jobtype j) (workers all_modules) = Some wc
       /\ length (pool_of (job_jobtype j) s) < max_workers wc.
Proof.
  unfold exec. rewrite assign_job_eq. simpl.
  assert (K : forall jt,
             trace (with_key jt s) = trace s
             /\ next_wid (with_key jt s) = next_wid s).
  { intros jt. unfold with_key. now destruct (Py.get jt (worker_pool s)). }
  destruct (assigned_cases all_modules j s)
    as [E|[E|[C [wc [G [L _]]]]]].
  - rewrite E. intros [N|[N|[jt N]]]; congruence.
  - rewrite E. destruct (K (job_jobtype j)) as [K1 K2].
    intros [N|[N|[jt N]]]; try congruence.
    rewrite pool_of_with_key in N. congruence.
  - intros _. split; auto. now exists wc.
Qed.

(** C2.  From a state in which no pool list is longer than its type's
    [max_workers], a tick leaves every pool list within that bound, and so
    does any number of ticks from the start of the manager.  An assignment
    step calls [claim], starts a worker or touches a pool list only for a
    job that is claimable, of a type with a registered worker class, and
    while that type's pool list is strictly shorter than the class's
    [max_workers].  When the pool list of a registered type is full and all
    its workers are running, a tick leaves that list as it is and calls
    [claim] on no job of that type. *)
Theorem delegate_respects_max_workers all_modules s :
  capacity_ok all_modules s ->
  capacity_ok all_modules (exec (WorkerManager.delegate all_modules) s)
  /\ (forall e moves n,
        capacity_ok all_modules
          (exec (WorkerManager.ticks all_modules n) (fresh_manager e moves)))
  /\ (forall j s0,
        let s1 := exec (WorkerManager.assign_job all_modules j) s0 in
        (trace s1 <> trace s0 \/ next_wid s1 <> next_wid s0
         \/ exists jt, pool_of jt s1 <> pool_of jt s0) ->
        Queue.is_claimable (now (env s0)) j = true
        /\ exists wc,
             Py.get (job_jobtype j) (workers all_modules) = Some wc
             /\ length (pool_of (job_jobtype j) s0) < max_workers wc)
  /\ (forall jt wc,
        Py.get jt (workers all_modules) = Some wc ->
        max_workers wc <= length (pool_of jt s) ->
        (forall w, In w (pool_of jt s) -> alive w (env s) = true) ->
        let s' := exec (WorkerManager.delegate all_modules) s in
        pool_of jt s' = pool_of jt s
        /\ exists evs, trace s' = trace s ++ evs /\ unclaimed_in jt evs).
Proof.
  intros H. split; [now apply delegate_capacity|].
  split.
  { intros e moves n. apply ticks_inv.
    - intros s'. apply delegate_capacity.
    - intros jt wc _. unfold pool_of. simpl. lia. }
  split.
  { intros j s0. apply assign_job_guard. }
  intros jt wc. apply delegate_at_capacity.
Qed.

(** ** Interrupts issued by the delegation loop *)

Lemma interrupts_of_app w tr1 tr2 :
  interrupts_of w (tr1 ++ tr2) = interrupts_of w tr1 + interrupts_of w tr2.
Proof.
  induction tr1 as [|ev tr1 IH]; simpl; auto.
  destruct ev; auto. rewrite IH. lia.
Qed.

Lemma pool_of_workers jt w s : In w (pool_of jt s) -> In w (pool_workers s).
Proof.
  unfold pool_of, pool_workers.
  induction (worker_pool s) as [|[k v] d IH]; simpl; [intros []|].
  destruct (String.eqb jt k); intros I; apply in_or_app; auto.
Qed.

Lemma workers_set jt ws d w :
  In w (flat_map snd (Py.set jt ws d)) ->
  In w ws \/ In w (flat_map (@snd string (list Worker)) d).
Proof.
  induction d as [|[k v] d IH]; simpl.
  - rewrite app_nil_r. auto.
  - destruct (String.eqb jt k); simpl; intros I; apply in_app_or in I.
    + destruct I; auto. right. apply in_or_app. auto.
    + destruct I as [I|I].
      * right. apply in_or_app. auto.
      * destruct (IH I); auto. right. apply in_or_app. auto.
Qed.

Lemma remove_In {A} (eqb : A -> A -> bool) x y xs :
  In y (Py.remove eqb x xs) -> In y xs.
Proof.
  induction xs as [|z zs IH]; simpl; auto.
  destruct (eqb x z); simpl; intuition.
Qed.

Lemma remove_other x y xs :
  In y xs -> y <> x -> In y (Py.remove Z.eqb x xs).
Proof.
  induction xs as [|z zs IH]; simpl; auto.
  intros [E|I] N.
  - subst z. destruct (Z.eqb x y) eqn:Q.
    + apply Z.eqb_eq in Q. congruence.
    + now left.
  - destruct (Z.eqb x z); auto. right. auto.
Qed.

Section OneInterrupt.
(** The worker [wk] that is followed, the number [c0] of interrupts it had
    received and whether its job id was in the stopping list when the
    observation began. *)
Variable wk : Worker.
Variable c0 : nat.
Variable stopping0 : bool.

Let j := job_id (job wk).

Lemma once_reconciled known jt w s :
  once wk c0 stopping0 s ->
  alive wk (env s) = true ->
  ~ In j known ->
  In w (pool_of jt s) ->
  once wk c0 stopping0 (reconciled known jt w s).
Proof.
  intros [Sole [Fresh Cnt]] A NK I.
  pose proof (pool_of_workers _ _ _ I) as Iw.
  unfold reconciled. destruct (alive w (env s)) eqn:Aw.
  - destruct (to_interrupt known w s) eqn:T; [|now repeat split].
    unfold to_interrupt in T. apply andb_true_iff in T.
    destruct T as [_ T]. apply negb_true_iff, mem_false in T.
    split; [exact Sole|]. split; [exact Fresh|].
    simpl. rewrite interrupts_of_app. simpl.
    destruct (Nat.eqb (wid wk) (wid w)) eqn:Q.
    + apply Nat.eqb_eq in Q.
      assert (w = wk) by (apply Sole; auto). subst w. fold j in T.
      destruct Cnt as [[C S0]|[_ [S1 _]]]; [|contradiction].
      right. split; [lia|]. split.
      * apply in_or_app. right. now left.
      * destruct stopping0; auto. exfalso. apply T. now apply S0.
    + rewrite Nat.add_0_r.
      destruct Cnt as [[C S0]|[C [S1 S0]]]; [left|right]; repeat split;
        auto; intros; apply in_or_app; auto.
  - assert (Nw : wid w <> wid wk).
    { intros Q. unfold alive in *. rewrite Q in Aw. congruence. }
    assert (Nj : j <> job_id (job w)).
    { intros Q. apply Nw. now rewrite (Sole w Iw (or_intror (eq_sym Q))). }
    assert (Keep : In j (stopping_workers s) ->
                   In j (stopping_workers (joined jt w s))).
    { intros S1. unfold joined. simpl.
      destruct (Py.mem (job_id (job w)) (stopping_workers s)); auto.
      now apply remove_other. }
    split; [|split; [exact Fresh|]].
    + intros w' I' Q. apply Sole; auto.
      unfold pool_workers, joined in I'. simpl in I'.
      apply workers_set in I'. destruct I' as [I'|I']; auto.
      apply remove_In in I'. eapply pool_of_workers; eauto.
    + replace (interrupts_of (wid wk) (trace (joined jt w s)))
        with (interrupts_of (wid wk) (trace s))
        by (unfold joined; simpl; rewrite interrupts_of_app; simpl; lia).
      destruct Cnt as [[C S0]|[C [S1 S0]]]; [left|right]; repeat split; auto.
Qed.

Lemma once_with_key jt s :
  once wk c0 stopping0 s -> once wk c0 stopping0 (with_key jt s).
Proof.
  unfold with_key. destruct (Py.get jt (worker_pool s)); auto.
  intros [Sole R]. split; [|exact R].
  intros w I. apply Sole. unfold pool_workers in I. simpl in I.
  apply workers_set in I. now destruct I.
Qed.

Lemma once_assigned all_modules jb s :
  once wk c0 stopping0 s -> job_id jb <> j -> once wk c0 stopping0 (assigned all_modules jb s).
Proof.
  intros H N.
  destruct (assigned_cases all_modules jb s)
    as [E|[E|[_ [wc [_ [_ [E|[e' [_ E]]]]]]]]]; rewrite E; clear E.
  - exact H.
  - now apply once_with_key.
  - apply (once_with_key (job_jobtype jb)) in H.
    destruct H as [Sole [Fresh Cnt]]. split; [exact Sole|].
    split; [exact Fresh|]. simpl. rewrite interrupts_of_app. simpl.
    now rewrite Nat.add_0_r.
  - apply (once_with_key (job_jobtype jb)) in H.
    set (s1 := with_key (job_jobtype jb) s) in *.
    destruct H as [Sole [Fresh Cnt]]. split; [|split].
    + intros w I Q. unfold pool_workers, started in I. simpl in I.
      apply workers_set in I. destruct I as [I|I]; [|now apply Sole].
      apply in_app_or in I. destruct I as [I|[I|[]]].
      * apply Sole; auto. eapply pool_of_workers; eauto.
      * subst w. simpl in Q. destruct Q as [Q|Q]; [lia|contradiction].
    + simpl. lia.
    + simpl. rewrite interrupts_of_app. simpl. now rewrite Nat.add_0_r.
Qed.

Lemma once_delegate all_modules s :
  once wk c0 stopping0 s ->
  alive wk (env s) = true ->
  ~ In j (map job_id (rows (env s))) ->
  once wk c0 stopping0 (exec (WorkerManager.delegate all_modules) s).
Proof.
  intros H A NK. apply delegate_inv; auto.
  - intros jt w s' H' E I. apply once_reconciled; auto. now rewrite E.
  - intros jb s' H' I. apply once_assigned; auto.
    intros Q. apply NK. rewrite <- Q. now apply in_map.
  - intros s' move rest [Sole [Fresh Cnt]]. split; [exact Sole|].
    split; [exact Fresh|]. simpl. rewrite interrupts_of_app. simpl.
    now rewrite Nat.add_0_r.
Qed.

Lemma once_ticks all_modules :
  forall n s, once wk c0 stopping0 s -> draining wk all_modules n s ->
              once wk c0 stopping0 (exec (WorkerManager.ticks all_modules n) s).
Proof.
  induction n as [|n IH]; intros s H D; [exact H|].
  destruct (D 0) as [A NK]; [lia|]. simpl in A, NK.
  pose proof (once_delegate all_modules s H A NK) as H1.
  simpl. unfold exec, bind in *.
  destruct (WorkerManager.delegate all_modules s) as [[[]| |] s1] eqn:R;
    simpl in *; auto.
  apply IH; auto.
  intros k L. specialize (D (S k)). simpl in D. unfold exec, bind in D.
  rewrite R in D. apply D. lia.
Qed.

End OneInterrupt.

(** ** The tick that reaches a draining worker interrupts it *)

Lemma reconciled_interrupts known jt w s v :
  interrupts_of v (trace s) <= interrupts_of v (trace (reconciled known jt w s)).
Proof.
  unfold reconciled.
  destruct (alive w (env s)); [destruct (to_interrupt known w s)|]; simpl;
    rewrite ?interrupts_of_app; lia.
Qed.

Lemma assigned_interrupts all_modules jb s v :
  interrupts_of v (trace (assigned all_modules jb s)) = interrupts_of v (trace s).
Proof.
  assert (K : forall jt, trace (with_key jt s) = trace s).
  { intros jt. unfold with_key. now destruct (Py.get jt (worker_pool s)). }
  destruct (assigned_cases all_modules jb s)
    as [E|[E|[_ [wc [_ [_ [E|[e' [_ E]]]]]]]]]; rewrite E; simpl;
    rewrite ?interrupts_of_app, ?K; simpl; lia.
Qed.

Lemma reconcile_from_interrupts known jt v c :
  forall fuel i s,
    c <= interrupts_of v (trace s) ->
    exists s', WorkerManager.reconcile_from fuel i known jt s = (Ok tt, s')
               /\ c <= interrupts_of v (trace s').
Proof.
  intros fuel i s H.
  apply (reconcile_from_inv (fun s => c <= interrupts_of v (trace s))); auto.
  intros w s0 H0 _. eapply Nat.le_trans; [exact H0|].
  apply reconciled_interrupts.
Qed.

Section Reached.
Variable wk : Worker.
Variable known : list Z.
Variable jt : string.
Variable e : Env.
Variables pre post : list Worker.

Hypothesis wk_alive : alive wk e = true.
Hypothesis pre_alive : forall w, In w pre -> alive w e = true.
Hypothesis job_gone : ~ In (job_id (job wk)) known.

Lemma waiting_interrupted c s :
  waiting wk jt e pre post c s ->
  reconciled known jt wk s = interrupted wk s
  /\ interrupts_of (wid wk) (trace (interrupted wk s)) = c + 1.
Proof.
  intros [E [_ [NS [_ C]]]]. unfold reconciled, to_interrupt.
  rewrite E, wk_alive.
  apply mem_false in NS. apply mem_false in job_gone.
  rewrite NS, job_gone. simpl. split; auto.
  rewrite interrupts_of_app. simpl. rewrite Nat.eqb_refl. lia.
Qed.

Lemma waiting_passed c s w :
  waiting wk jt e pre post c s -> In w pre -> w <> wk ->
  waiting wk jt e pre post c (reconciled known jt w s).
Proof.
  intros [E [P [NS [Sole C]]]] I N.
  assert (Iw : In w (pool_workers s)).
  { apply (pool_of_workers jt). rewrite P. apply in_or_app. now left. }
  unfold reconciled. rewrite E, (pre_alive w I).
  destruct (to_interrupt known w s); [|now repeat split].
  split; [exact E|]. split; [exact P|]. split; [|split; [exact Sole|]].
  - simpl. intros K. apply in_app_or in K.
    destruct K as [K|[K|[]]]; [contradiction|].
    apply N. apply Sole; auto.
  - simpl. rewrite interrupts_of_app. simpl.
    destruct (Nat.eqb (wid wk) (wid w)) eqn:Q; [|lia].
    apply Nat.eqb_eq in Q. exfalso. apply N. apply Sole; auto.
Qed.

Lemma reconcile_from_reaches c :
  forall fuel i s,
    waiting wk jt e pre post c s -> i <= length pre -> length pre - i < fuel ->
    exists s', WorkerManager.reconcile_from fuel i known jt s = (Ok tt, s')
               /\ c + 1 <= interrupts_of (wid wk) (trace s').
Proof.
  induction fuel as [|fuel IH]; intros i s W L F; [lia|].
  rewrite reconcile_from_eq.
  destruct W as [E [P R]]. rewrite P.
  assert (W : waiting wk jt e pre post c s) by (split; [|split]; assumption).
  destruct (Nat.eq_dec i (length pre)) as [Q|Q].
  - subst i. rewrite nth_error_app2, Nat.sub_diag by lia. simpl.
    destruct (waiting_interrupted c s W) as [R1 R2]. rewrite R1.
    apply reconcile_from_interrupts. lia.
  - assert (Li : i < length pre) by lia.
    rewrite nth_error_app1 by lia.
    destruct (nth_error pre i) as [w|] eqn:N;
      [|apply nth_error_None in N; lia].
    apply nth_error_In in N.
    destruct (Nat.eq_dec (wid w) (wid wk)) as [Qw|Qw].
    + assert (w = wk).
      { destruct R as [_ [Sole _]]. apply Sole; auto.
        apply (pool_of_workers jt). rewrite P. apply in_or_app. now left. }
      subst w. destruct (waiting_interrupted c s W) as [R1 R2]. rewrite R1.
      apply reconcile_from_interrupts. lia.
    + apply IH; try lia. apply waiting_passed; auto. congruence.
Qed.

End Reached.

Lemma reconcile_some_inv (P : State -> Prop) known :
  forall jts,
    (forall jt w s, In jt jts -> P s -> In w (pool_of jt s) ->
                    P (reconciled known jt w s)) ->
    forall s, P s ->
      exists s', for_each jts (WorkerManager.reconcile_pool known) s = (Ok tt, s')
                 /\ P s'.
Proof.
  induction jts as [|jt jts IH]; intros Step s H; simpl.
  - exists s. now split.
  - destruct (reconcile_pool_inv P known jt) with (s := s) as [s1 [R H1]]; auto.
    { intros w s0. apply Step. now left. }
    rewrite (bind_ok _ _ _ _ _ R). apply IH; auto.
    intros jt' w s0 I. apply Step. now right.
Qed.

Lemma split_first (x : string) l :
  In x l -> exists l1 l2, l = l1 ++ x :: l2 /\ ~ In x l1.
Proof.
  induction l as [|y l IH]; [intros []|]. intros I.
  destruct (string_dec y x) as [E|N].
  - subst y. exists [], l. split; auto.
  - destruct I as [I|I]; [contradiction|].
    destruct (IH I) as [l1 [l2 [E N1]]]. exists (y :: l1), l2. subst l.
    split; auto. intros [K|K]; auto.
Qed.

Lemma get_in_keys {V} k (d : Py.dict V) :
  Py.get k d <> None -> In k (Py.keys d).
Proof.
  induction d as [|[k' v] d IH]; simpl; [congruence|].
  destruct (String.eqb k k') eqn:E; auto.
  apply String.eqb_eq in E. auto.
Qed.

Lemma waiting_elsewhere wk known jt e pre post c jt2 w s :
  alive wk e = true ->
  ~ In (job_id (job wk)) known ->
  jt2 <> jt ->
  waiting wk jt e pre post c s \/ c + 1 <= interrupts_of (wid wk) (trace s) ->
  In w (pool_of jt2 s) ->
  waiting wk jt e pre post c (reconciled known jt2 w s)
  \/ c + 1 <= interrupts_of (wid wk) (trace (reconciled known jt2 w s)).
Proof.
  intros A NK N [W|R] I.
  2:{ right. eapply Nat.le_trans; [exact R|]. apply reconciled_interrupts. }
  pose proof W as [E [P [NS [Sole C]]]].
  pose proof (pool_of_workers _ _ _ I) as Iw.
  destruct (Nat.eq_dec (wid w) (wid wk)) as [Q|Q].
  - assert (w = wk) by (apply Sole; auto). subst w. right.
    unfold reconciled, to_interrupt. rewrite E, A.
    apply mem_false in NS. apply mem_false in NK. rewrite NS, NK. simpl.
    rewrite interrupts_of_app. simpl. rewrite Nat.eqb_refl. lia.
  - assert (Nj : job_id (job w) <> job_id (job wk)).
    { intros K. apply Q. now rewrite (Sole w Iw (or_intror K)). }
    left. unfold reconciled.
    destruct (alive w (env s)).
    + destruct (to_interrupt known w s); auto.
      split; [exact E|]. split; [exact P|]. split; [|split; [exact Sole|]].
      * simpl. intros K. apply in_app_or in K.
        destruct K as [K|[K|[]]]; [contradiction|congruence].
      * simpl. rewrite interrupts_of_app. simpl.
        destruct (Nat.eqb (wid wk) (wid w)) eqn:K; [|lia].
        apply Nat.eqb_eq in K. congruence.
    + split; [exact E|]. split; [|split; [|split]].
      * rewrite pool_of_joined. apply not_eq_sym in N.
        apply String.eqb_neq in N. now rewrite N.
      * unfold joined. simpl.
        destruct (Py.mem (job_id (job w)) (stopping_workers s)); auto.
        intros K. apply NS. eapply remove_In; eauto.
      * intros w' I' K. apply Sole; auto.
        unfold pool_workers, joined in I'. simpl in I'.
        apply workers_set in I'. destruct I' as [I'|I']; auto.
        apply remove_In in I'. eapply pool_of_workers; eauto.
      * unfold joined. simpl. rewrite interrupts_of_app. simpl. lia.
Qed.

Lemma delegate_reaches all_modules wk jt pre post s :
  pool_of jt s = pre ++ wk :: post ->
  alive wk (env s) = true ->
  (forall w, In w pre -> alive w (env s) = true) ->
  ~ In (job_id (job wk)) (map job_id (rows (env s))) ->
  ~ In (job_id (job wk)) (stopping_workers s) ->
  sole_carrier wk s ->
  interrupts_of (wid wk) (trace s) + 1
  <= interrupts_of (wid wk) (trace (exec (WorkerManager.delegate all_modules) s)).
Proof.
  intros P A PA NK NS Sole.
  set (c := interrupts_of (wid wk) (trace s)).
  set (known := map job_id (rows (env s))) in *.
  assert (W : waiting wk jt (env s) pre post c s) by now repeat split.
  assert (K : In jt (Py.keys (worker_pool s))).
  { apply get_in_keys. unfold pool_of in P.
    destruct (Py.get jt (worker_pool s)); [discriminate|].
    destruct pre; discriminate. }
  destruct (split_first _ _ K) as [k1 [k2 [EK N1]]].
  (* the lists before [jt] *)
  destruct (reconcile_some_inv
              (fun s' => waiting wk jt (env s) pre post c s'
                         \/ c + 1 <= interrupts_of (wid wk) (trace s'))
              known k1) with (s := s) as [s1 [R1 H1]]; auto.
  { intros jt2 w s' I H' Iw. apply waiting_elsewhere; auto.
    intros Q. subst jt2. contradiction. }
  (* the list of [jt] *)
  assert (R2 : exists s2,
             WorkerManager.reconcile_pool known jt s1 = (Ok tt, s2)
             /\ c + 1 <= interrupts_of (wid wk) (trace s2)).
  { unfold WorkerManager.reconcile_pool, bind, gets.
    destruct H1 as [W1|H1].
    - apply (reconcile_from_reaches wk known jt (env s) pre post); auto.
      + lia.
      + destruct W1 as [_ [P1 _]]. rewrite P1, length_app. simpl. lia.
    - now apply reconcile_from_interrupts. }
  destruct R2 as [s2 [R2 H2]].
  (* the lists after it *)
  destruct (reconcile_some_inv
              (fun s' => c + 1 <= interrupts_of (wid wk) (trace s'))
              known k2) with (s := s2) as [s3 [R3 H3]]; auto.
  { intros jt2 w s' _ H' _. eapply Nat.le_trans; [exact H'|].
    apply reconciled_interrupts. }
  destruct (assign_all_inv
              (fun s' => c + 1 <= interrupts_of (wid wk) (trace s'))
              all_modules (rows (env s))) with (s := s3) as [s4 [R4 H4]]; auto.
  { intros jb s' H' _. now rewrite assigned_interrupts. }
  assert (TW : tick_work all_modules s = (Ok tt, s4)).
  { unfold tick_work.
    assert (G : on_env (Queue.get_all_jobs None None false) s
                = (Ok (rows (env s)), s)).
    { unfold on_env. rewrite snapshot_all. now rewrite with_env_same. }
    rewrite (bind_ok _ _ _ _ _ G). unfold bind at 1, gets at 1.
    rewrite EK. fold known.
    assert (R12 : for_each (k1 ++ jt :: k2)
                    (WorkerManager.reconcile_pool known) s = (Ok tt, s3)).
    { rewrite (for_each_app _ _ _ _ _ R1). simpl.
      now rewrite (bind_ok _ _ _ _ _ R2). }
    now rewrite (bind_ok _ _ _ _ _ R12). }
  unfold exec. rewrite delegate_split, (bind_ok _ _ _ _ _ TW).
  unfold time_sleep. destruct (sched s4); simpl; auto.
  rewrite interrupts_of_app. simpl. lia.
Qed.

Lemma delegate_interrupts all_modules v c s :
  c <= interrupts_of v (trace s) ->
  c <= interrupts_of v (trace (exec (WorkerManager.delegate all_modules) s)).
Proof.
  intros H. apply delegate_inv; auto.
  - intros jt w s' H' _ _. eapply Nat.le_trans; [exact H'|].
    apply reconciled_interrupts.
  - intros jb s' H' _. now rewrite assigned_interrupts.
  - intros s' move rest H'. simpl. rewrite interrupts_of_app. simpl. lia.
Qed.

(** An interrupt goes to a running worker whose job id is neither among the
    known ids nor in the stopping list, and the id is then appended to the
    list. *)
Lemma reconcile_worker_interrupt known jt w v s :
  let s' := exec (WorkerManager.reconcile_worker known jt w) s in
  interrupts_of v (trace s') <> interrupts_of v (trace s) ->
  v = wid w
  /\ alive w (env s) = true
  /\ ~ In (job_id (job w)) known
  /\ ~ In (job_id (job w)) (stopping_workers s)
  /\ stopping_workers s' = stopping_workers s ++ [job_id (job w)].
Proof.
  unfold exec. rewrite reconcile_worker_eq. simpl.
  destruct (alive w (env s)) eqn:A.
  - destruct (to_interrupt known w s) eqn:T; [|congruence].
    unfold to_interrupt in T. apply andb_true_iff in T. destruct T as [T1 T2].
    apply negb_true_iff, mem_false in T1. apply negb_true_iff, mem_false in T2.
    simpl. rewrite interrupts_of_app. simpl.
    destruct (Nat.eqb v (wid w)) eqn:Q; [|lia].
    apply Nat.eqb_eq in Q. intros _. now repeat split.
  - unfold joined. simpl. rewrite interrupts_of_app. simpl. lia.
Qed.

(** An id leaves the stopping list only when a stopped worker with that job
    id is met. *)
Lemma reconcile_worker_forget known jt w id s :
  let s' := exec (WorkerManager.reconcile_worker known jt w) s in
  In id (stopping_workers s) ->
  ~ In id (stopping_workers s') ->
  alive w (env s) = false /\ id = job_id (job w).
Proof.
  unfold exec. rewrite reconcile_worker_eq. simpl. intros I N.
  destruct (alive w (env s)) eqn:A.
  - exfalso. apply N.
    destruct (to_interrupt known w s); simpl; auto. apply in_or_app. auto.
  - split; auto. unfold joined in N. simpl in N.
    destruct (Py.mem (job_id (job w)) (stopping_workers s)); [|contradiction].
    destruct (Z.eq_dec id (job_id (job w))) as [E|E]; auto.
    exfalso. apply N. now apply remove_other.
Qed.

(** ** The graceful stop *)

Lemma cancel_jobs_eq remote_id s :
  WorkerManager.cancel_jobs remote_id s = (Ok (cancel_rows remote_id (env s)), s).
Proof.
  unfold WorkerManager.cancel_jobs, on_env, Queue.get_all_jobs, gets.
  simpl. now rewrite with_env_same.
Qed.

Lemma cancel_rows_In remote_id e j :
  In j (cancel_rows remote_id e) <->
  In j (rows e) /\ job_jobtype j = "cancel-pg-query"
  /\ Queue.opt_match remote_id (job_remote_id j) = true.
Proof.
  unfold cancel_rows. rewrite filter_In. unfold Queue.opt_match at 1.
  change (negb false) with true. rewrite orb_true_l, andb_true_r.
  rewrite andb_true_iff, String.eqb_eq.
  intuition.
Qed.

(** Left alone, the wait ends only when no cancellation job is left, and
    it changes nothing of the manager but sleeps. *)
Lemma wait_cancel_jobs_ok :
  forall fuel s s',
    WorkerManager.wait_cancel_jobs fuel s = (Ok tt, s') ->
    cancel_rows None (env s') = []
    /\ worker_pool s' = worker_pool s
    /\ stopping_workers s' = stopping_workers s
    /\ looping s' = looping s
    /\ next_wid s' = next_wid s
    /\ exists k, trace s' = trace s ++ repeat (EvSleep 250) k.
Proof.
  induction fuel as [|fuel IH]; intros s s' H; simpl in H; [discriminate|].
  rewrite (bind_ok _ _ _ _ _ (cancel_jobs_eq None s)) in H.
  destruct (cancel_rows None (env s)) as [|q qs] eqn:Q.
  - inversion H; subst s'. repeat split; auto.
    exists 0. simpl. now rewrite app_nil_r.
  - unfold bind, time_sleep in H.
    destruct (sched s) as [|move rest]; [discriminate|].
    apply IH in H. simpl in H.
    destruct H as [C [P [St [Lo [Nw [k T]]]]]]. repeat split; auto.
    exists (S k). rewrite T. simpl. now rewrite <- app_assoc.
Qed.

(** A call to [abort] when no cancellation job is outstanding. *)
Lemma abort_idle s :
  cancel_rows None (env s) = [] ->
  WorkerManager.abort s = (Ok tt, with_looping false s).
Proof.
  intros C. unfold WorkerManager.abort, WorkerManager.force_cancel_jobs.
  rewrite bind_assoc.
  rewrite (bind_ok _ _ _ _ _ (cancel_jobs_eq None s)), C. simpl.
  unfold bind at 1. unfold ret at 1.
  unfold bind at 1, gets at 1.
  unfold bind at 1. simpl.
  rewrite (bind_ok _ _ _ _ _ (cancel_jobs_eq None s)), C. reflexivity.
Qed.

(** A call to [abort] that returns has taken the stop flag down, with no
    cancellation job outstanding at that moment; until then the flag is as
    it was. *)
Lemma abort_ok s s' :
  WorkerManager.abort s = (Ok tt, s') ->
  looping s' = false /\ cancel_rows None (env s') = [].
Proof.
  unfold WorkerManager.abort. unfold bind at 1.
  destruct (WorkerManager.force_cancel_jobs s) as [[[]| |] s1]; try discriminate.
  unfold bind at 1, gets at 1. unfold bind at 1.
  destruct (WorkerManager.wait_cancel_jobs _ s1) as [[[]| |] s2] eqn:W;
    try discriminate.
  intros H. inversion H; subst s'. simpl.
  apply wait_cancel_jobs_ok in W. now destruct W as [C _].
Qed.

(** When a call to [abort] has returned and no cancellation job has
    been created since, a second call returns normally as well, calls
    neither [claim] nor [release] (it makes no call at all: the trace is
    unchanged), and leaves the stop flag down, where the first call put
    it. *)
Theorem abort_twice s s1 e moves :
  WorkerManager.abort s = (Ok tt, s1) ->
  (forall j, In j (rows e) -> job_jobtype j = "cancel-pg-query" ->
             exists j0, In j0 (rows (env s1))
                        /\ job_jobtype j0 = "cancel-pg-query"
                        /\ job_id j0 = job_id j) ->
  looping s1 = false
  /\ WorkerManager.abort (later e moves s1) = (Ok tt, later e moves s1)
  /\ trace (exec WorkerManager.abort (later e moves s1)) = trace s1
  /\ looping (exec WorkerManager.abort (later e moves s1)) = false.
Proof.
  intros H New. apply abort_ok in H. destruct H as [L C].
  assert (C' : cancel_rows None e = []).
  { destruct (cancel_rows None e) as [|j js] eqn:Q; auto.
    assert (I : In j (cancel_rows None e)) by (rewrite Q; now left).
    apply cancel_rows_In in I. destruct I as [I [T _]].
    destruct (New j I T) as [j0 [I0 [T0 _]]].
    assert (I1 : In j0 (cancel_rows None (env s1))).
    { apply cancel_rows_In. repeat split; auto. }
    rewrite C in I1. destruct I1. }
  assert (R : WorkerManager.abort (later e moves s1)
              = (Ok tt, later e moves s1)).
  { rewrite abort_idle by exact C'. unfold with_looping, later. simpl.
    now rewrite L. }
  split; [exact L|]. split; [exact R|].
  unfold exec. rewrite R. simpl. now split.
Qed.

(** ** Forcing a cancellation job *)

Lemma force_eq q s :
  claimable_row q (env s) ->
  (job_claim q ;; job_release q 0%Z 0%Z) s = (Ok tt, forced q s).
Proof.
  intros [r [I [E U]]].
  unfold job_claim, job_release, bind, emit, modify, on_env, Queue.claim,
    Queue.release. simpl.
  replace (existsb _ (rows (env s))) with true.
  2:{ symmetry. apply existsb_exists. exists r. split; auto.
      rewrite E, Z.eqb_refl, U. reflexivity. }
  simpl. unfold forced, Queue.update_rows, with_rows, with_env. simpl.
  rewrite <- app_assoc. simpl. f_equal. f_equal. f_equal.
  rewrite map_map. apply map_ext. intros a.
  destruct (job_id a =? job_id q)%Z eqn:Q; simpl.
  - destruct (negb (is_claimed a)); simpl; rewrite Q; reflexivity.
  - rewrite Q. reflexivity.
Qed.

Lemma force_raise q s :
  (forall r, In r (rows (env s)) -> job_id r = job_id q -> is_claimed r = true) ->
  (job_claim q ;; job_release q 0%Z 0%Z) s
  = (Raise JobClaimedException, claim_lost q s).
Proof.
  intros H.
  unfold job_claim, job_release, bind, emit, modify, on_env, Queue.claim. simpl.
  replace (existsb _ (rows (env s))) with false.
  2:{ symmetry. apply not_true_is_false. intros X.
      apply existsb_exists in X. destruct X as [r [I X]].
      apply andb_true_iff in X. destruct X as [X1 X2].
      apply Z.eqb_eq in X1. rewrite (H r I X1) in X2. discriminate. }
  unfold claim_lost, with_env. simpl. reflexivity.
Qed.

Lemma claimable_row_forced q q' s :
  claimable_row q' (env s) -> claimable_row q' (env (forced q s)).
Proof.
  intros [r [I [E U]]]. unfold forced, claimable_row. simpl.
  exists (if (job_id r =? job_id q)%Z
          then Queue.set_claimed false (now (env s) + 0)%Z r else r).
  split.
  - apply (in_map (fun j => if (job_id j =? job_id q)%Z
                            then Queue.set_claimed false (now (env s) + 0)%Z j
                            else j)) in I. exact I.
  - destruct (job_id r =? job_id q)%Z; simpl; auto.
Qed.

Lemma made_claimable_forced q q' s :
  made_claimable q' (env s) -> made_claimable q' (env (forced q s)).
Proof.
  intros H r I E. unfold forced in I. simpl in I.
  apply in_map_iff in I. destruct I as [r0 [R I]].
  unfold forced. simpl.
  destruct (job_id r0 =? job_id q)%Z; subst r.
  - unfold Queue.is_claimable. simpl. apply Z.leb_le. lia.
  - now apply H.
Qed.

Lemma made_claimable_forced_same q s : made_claimable q (env (forced q s)).
Proof.
  intros r I E. unfold forced in I. simpl in I.
  apply in_map_iff in I. destruct I as [r0 [R I]].
  unfold forced. simpl.
  destruct (job_id r0 =? job_id q)%Z eqn:Q; subst r.
  - unfold Queue.is_claimable. simpl. apply Z.leb_le. lia.
  - apply Z.eqb_neq in Q. contradiction.
Qed.

(** One round of the loop of [request_interrupt] over a snapshot whose
    unclaimed jobs still have an unclaimed record: no call fails, the calls
    are those of [round_events], and the jobs that were forced are eligible
    afterwards. *)
Lemma force_round :
  forall qs s,
    (forall q, In q qs -> is_claimed q = false -> claimable_row q (env s)) ->
    exists s',
      for_each qs
        (fun cancel_job =>
           if is_claimed cancel_job then ret tt
           else job_claim cancel_job ;; job_release cancel_job 0%Z 0%Z) s
      = (Ok tt, s')
      /\ trace s' = trace s ++ round_events qs
      /\ worker_pool s' = worker_pool s
      /\ stopping_workers s' = stopping_workers s
      /\ looping s' = looping s
      /\ next_wid s' = next_wid s
      /\ sched s' = sched s
      /\ (forall q, made_claimable q (env s) -> made_claimable q (env s'))
      /\ (forall q, In q qs -> is_claimed q = false -> made_claimable q (env s')).
Proof.
  induction qs as [|q qs IH]; intros s H.
  - exists s. simpl. rewrite app_nil_r. repeat split; auto.
    intros q [].
  - simpl. unfold round_events. simpl. fold (round_events qs).
    destruct (is_claimed q) eqn:C.
    + unfold bind at 1, ret at 1.
      destruct (IH s) as [s' [R [T [P [St [Lo [Nw [Sc [K1 K2]]]]]]]]].
      { intros q' I. apply H. now right. }
      exists s'. repeat split; auto.
      intros q' [E|I] U; [subst; congruence|]. now apply K2.
    + rewrite (bind_ok _ _ _ _ _ (force_eq q s (H q (or_introl eq_refl) C))).
      destruct (IH (forced q s)) as [s' [R [T [P [St [Lo [Nw [Sc [K1 K2]]]]]]]]].
      { intros q' I U. apply claimable_row_forced. apply H; auto. now right. }
      exists s'. split; [exact R|]. split.
      { rewrite T. simpl. now rewrite <- app_assoc. }
      repeat split; auto.
      * intros q' M. apply K1. now apply made_claimable_forced.
      * intros q' [E|I] U; [|now apply K2].
        subst q'. apply K1. apply made_claimable_forced_same.
Qed.

Lemma force_round_eq :
  forall qs s,
    (forall q, In q qs -> is_claimed q = false -> claimable_row q (env s)) ->
    for_each qs
      (fun cancel_job =>
         if is_claimed cancel_job then ret tt
         else job_claim cancel_job ;; job_release cancel_job 0%Z 0%Z) s
    = (Ok tt, forced_all qs s).
Proof.
  induction qs as [|q qs IH]; intros s H; [reflexivity|].
  simpl. destruct (is_claimed q) eqn:C.
  - unfold bind at 1, ret at 1. apply IH. intros q' I. apply H. now right.
  - rewrite (bind_ok _ _ _ _ _ (force_eq q s (H q (or_introl eq_refl) C))).
    apply IH. intros q' I U. apply claimable_row_forced. apply H; auto.
    now right.
Qed.

Lemma snapshot_claimable remote_id s q :
  In q (cancel_rows remote_id (env s)) -> is_claimed q = false ->
  claimable_row q (env s).
Proof.
  intros I U. apply cancel_rows_In in I. destruct I as [I _].
  exists q. auto.
Qed.

Lemma no_interrupt_app evs1 evs2 :
  no_interrupt evs1 -> no_interrupt evs2 -> no_interrupt (evs1 ++ evs2).
Proof.
  intros H1 H2 w l I. apply in_app_or in I. destruct I; [eapply H1|eapply H2];
    eauto.
Qed.

Lemma no_interrupt_round qs : no_interrupt (round_events qs).
Proof.
  intros w l I. unfold round_events in I. apply in_flat_map in I.
  destruct I as [q [_ I]]. destruct (is_claimed q); simpl in I; intuition;
    discriminate.
Qed.

(** The loop of lines 229-244, one round at a time: with no cancellation
    job outstanding for the worker's connection it is left; otherwise every
    job of the snapshot that is not claimed is forced, the manager sleeps,
    and the loop starts over. *)
Lemma drain_queries_eq fuel worker s :
  WorkerManager.drain_queries (S fuel) worker s =
  match cancel_rows (Some (appname worker)) (env s) with
  | [] => (Ok tt, s)
  | qs =>
      let s1 := forced_all qs s in
      match sched s1 with
      | [] => (Blocked, s1)
      | move :: rest =>
          WorkerManager.drain_queries fuel worker (slept 250 move rest s1)
      end
  end.
Proof.
  simpl.
  rewrite (bind_ok _ _ _ _ _ (cancel_jobs_eq (Some (appname worker)) s)).
  destruct (cancel_rows (Some (appname worker)) (env s)) as [|q qs] eqn:Q;
    [reflexivity|].
  assert (R := force_round_eq (q :: qs) s).
  rewrite (bind_ok _ _ _ _ _ (R (fun q' I U =>
             snapshot_claimable (Some (appname worker)) s q'
               (eq_ind_r (fun l => In q' l) I Q) U))).
  cbv zeta. unfold bind at 1, time_sleep at 1. simpl forced_all.
  destruct (sched _); reflexivity.
Qed.

Lemma forced_all_facts qs :
  forall s,
    trace (forced_all qs s) = trace s ++ round_events qs
    /\ worker_pool (forced_all qs s) = worker_pool s
    /\ stopping_workers (forced_all qs s) = stopping_workers s
    /\ looping (forced_all qs s) = looping s
    /\ next_wid (forced_all qs s) = next_wid s
    /\ sched (forced_all qs s) = sched s
    /\ now (env (forced_all qs s)) = now (env s)
    /\ (forall q, made_claimable q (env s) ->
                  made_claimable q (env (forced_all qs s)))
    /\ (forall q, In q qs -> is_claimed q = false ->
                  made_claimable q (env (forced_all qs s))).
Proof.
  induction qs as [|q qs IH]; intros s.
  - simpl. rewrite app_nil_r. repeat split; auto. intros q [].
  - unfold round_events. simpl. fold (round_events qs).
    destruct (is_claimed q) eqn:C.
    + destruct (IH s) as [T [P [St [Lo [Nw [Sc [No [K1 K2]]]]]]]].
      repeat split; auto.
      intros q' [E|I] U; [subst; congruence|]. now apply K2.
    + destruct (IH (forced q s)) as [T [P [St [Lo [Nw [Sc [No [K1 K2]]]]]]]].
      split. { rewrite T. simpl. now rewrite <- app_assoc. }
      repeat split; auto.
      * intros q' M. apply K1. now apply made_claimable_forced.
      * intros q' [E|I] U; [|now apply K2].
        subst q'. apply K1. apply made_claimable_forced_same.
Qed.

(** What a whole run of the loop amounts to. *)
Lemma drain_queries_spec worker :
  forall fuel s,
    exists r s' evs,
      WorkerManager.drain_queries fuel worker s = (r, s')
      /\ trace s' = trace s ++ evs
      /\ no_interrupt evs
      /\ worker_pool s' = worker_pool s
      /\ stopping_workers s' = stopping_workers s
      /\ looping s' = looping s
      /\ next_wid s' = next_wid s
      /\ (r = Ok tt \/ r = Blocked)
      /\ (r = Ok tt -> cancel_rows (Some (appname worker)) (env s') = [])
      /\ (r = Blocked -> length (sched s) < fuel -> sched s' = []).
Proof.
  induction fuel as [|fuel IH]; intros s.
  - exists Blocked, s, []. simpl. rewrite app_nil_r.
    repeat split; auto; try discriminate; try lia. intros w l [].
  - rewrite drain_queries_eq.
    destruct (cancel_rows (Some (appname worker)) (env s)) as [|q qs] eqn:Q.
    + exists (Ok tt), s, []. rewrite app_nil_r.
      repeat split; auto; try discriminate. intros w l [].
    + cbv zeta.
      destruct (forced_all_facts (q :: qs) s)
        as [T [P [St [Lo [Nw [Sc _]]]]]].
      destruct (sched (forced_all (q :: qs) s)) as [|move rest] eqn:S1.
      * exists Blocked, (forced_all (q :: qs) s), (round_events (q :: qs)).
        repeat split; auto; try discriminate. apply no_interrupt_round.
      * destruct (IH (slept 250 move rest (forced_all (q :: qs) s)))
          as [r [s' [evs [R [T' [NI [P' [St' [Lo' [Nw' [Rc [Rok Rbl]]]]]]]]]]]].
        exists r, s', (round_events (q :: qs) ++ EvSleep 250 :: evs).
        split; [exact R|]. split.
        { rewrite T'. unfold slept. cbn [trace]. rewrite T.
          rewrite <- !app_assoc. reflexivity. }
        split.
        { apply no_interrupt_app; [apply no_interrupt_round|].
          intros w l [I|I]; [discriminate|]. eapply NI; eauto. }
        unfold slept in P', St', Lo', Nw', Rbl.
        cbn [worker_pool stopping_workers looping next_wid sched]
          in P', St', Lo', Nw', Rbl.
        repeat split; try congruence; auto.
        intros B L. apply Rbl; auto. rewrite <- Sc in L.
        cbn [length] in L. lia.
Qed.

(** ** The targeted interrupt *)

Lemma interrupt_first_find level j remote_id jt ws s :
  WorkerManager.interrupt_first level j remote_id jt ws s =
  match find (WorkerManager.is_target j remote_id jt) ws with
  | Some worker => drain_and_interrupt level worker s
  | None => (Ok tt, s)
  end.
Proof.
  induction ws as [|w ws IH]; simpl; auto.
  destruct (WorkerManager.is_target j remote_id jt w); auto.
Qed.

Lemma request_interrupt_eq level j remote_id jobtype s :
  WorkerManager.request_interrupt level j remote_id jobtype s =
  match target j remote_id jobtype s with
  | Some worker => drain_and_interrupt level worker s
  | None => (Ok tt, s)
  end.
Proof.
  unfold WorkerManager.request_interrupt, target.
  fold (target_jobtype j jobtype).
  destruct (target_jobtype j jobtype) as [jt|]; [|reflexivity].
  unfold bind, gets, pool_of.
  destruct (Py.get jt (worker_pool s)) as [ws|]; [|reflexivity].
  apply interrupt_first_find.
Qed.

Lemma find_none_pool j remote_id jobtype s :
  (forall w, In w (pool_workers s) -> identifies j remote_id jobtype w = false) ->
  target j remote_id jobtype s = None.
Proof.
  unfold identifies, target. intros H.
  destruct (target_jobtype j jobtype) as [jt|]; auto.
  destruct (find _ (pool_of jt s)) as [w|] eqn:F; auto.
  apply find_some in F. destruct F as [I T].
  apply pool_of_workers in I. rewrite (H w I) in T. discriminate.
Qed.

(** A request that found its worker. *)
Lemma drain_and_interrupt_spec level worker s :
  exists r s' evs,
    drain_and_interrupt level worker s = (r, s')
    /\ no_interrupt evs
    /\ worker_pool s' = worker_pool s
    /\ stopping_workers s' = stopping_workers s
    /\ looping s' = looping s
    /\ (r = Ok tt \/ r = Blocked)
    /\ (r = Ok tt ->
        trace s' = trace s ++ evs ++ [EvInterrupt (wid worker) (Some level)]
        /\ cancel_rows (Some (appname worker)) (env s') = [])
    /\ (r = Blocked -> trace s' = trace s ++ evs /\ sched s' = []).
Proof.
  unfold drain_and_interrupt. unfold bind at 1, gets at 1.
  destruct (drain_queries_spec worker (S (length (sched s))) s)
    as [r [s1 [evs [R [T [NI [P [St [Lo [Nw [Rc [Rok Rbl]]]]]]]]]]]].
  destruct Rc as [Rc|Rc]; subst r.
  - rewrite (bind_ok _ _ _ _ _ R).
    eexists (Ok tt), _, evs. split; [reflexivity|]. simpl.
    repeat split; auto; try discriminate.
    rewrite T. now rewrite app_assoc.
  - rewrite (bind_blocked _ _ _ _ R).
    exists Blocked, s1, evs. repeat split; auto; try discriminate.
Qed.

Lemma target_found j remote_id jobtype s jt w :
  target_jobtype j jobtype = Some jt ->
  In w (pool_of jt s) ->
  WorkerManager.is_target j remote_id jt w = true ->
  exists worker, target j remote_id jobtype s = Some worker.
Proof.
  intros TJ I T. unfold target. rewrite TJ.
  destruct (find (WorkerManager.is_target j remote_id jt) (pool_of jt s))
    as [worker|] eqn:F; [eauto|].
  rewrite (find_none _ _ F w I) in T. discriminate.
Qed.

Lemma target_first j remote_id jobtype s jt pre worker post :
  target_jobtype j jobtype = Some jt ->
  pool_of jt s = pre ++ worker :: post ->
  (forall w, In w pre -> WorkerManager.is_target j remote_id jt w = false) ->
  WorkerManager.is_target j remote_id jt worker = true ->
  target j remote_id jobtype s = Some worker.
Proof.
  intros TJ P N T. unfold target. rewrite TJ, P. clear P.
  induction pre as [|w pre IH]; simpl.
  - now rewrite T.
  - rewrite (N w) by now left. apply IH. intros w' I. apply N. now right.
Qed.

Lemma well_filed_delegate all_modules s :
  well_filed s -> well_filed (exec (WorkerManager.delegate all_modules) s).
Proof.
  intros H. apply delegate_inv; auto.
  - intros jt w s' H' _ _ jt' w' I. apply H'. unfold reconciled in I.
    destruct (alive w (env s')); [destruct (to_interrupt _ w s'); auto|].
    rewrite pool_of_joined in I. destruct (String.eqb jt' jt) eqn:E; auto.
    apply String.eqb_eq in E. subst. eapply remove_In; eauto.
  - intros jb s' H' _ jt' w' I.
    destruct (assigned_cases all_modules jb s')
      as [E|[E|[_ [wc [_ [_ [E|[e' [_ E]]]]]]]]]; rewrite E in I.
    + now apply H'.
    + rewrite pool_of_with_key in I. now apply H'.
    + unfold claim_lost, pool_of in I. simpl in I.
      fold (pool_of jt' (with_key (job_jobtype jb) s')) in I.
      rewrite pool_of_with_key in I. now apply H'.
    + rewrite pool_of_started in I.
      destruct (String.eqb jt' (job_jobtype jb)) eqn:Q.
      * apply String.eqb_eq in Q. subst jt'. rewrite pool_of_with_key in I.
        apply in_app_or in I. destruct I as [I|[I|[]]]; [now apply H'|].
        now subst w'.
      * rewrite pool_of_with_key in I. now apply H'.
Qed.

(** ** The rounds of a targeted interrupt *)

Lemma drained_facts worker s rounds s' :
  drained worker s rounds s' ->
  trace s' = trace s ++ rounds_events rounds
  /\ worker_pool s' = worker_pool s
  /\ stopping_workers s' = stopping_workers s
  /\ looping s' = looping s
  /\ next_wid s' = next_wid s
  /\ length (sched s) = length rounds + length (sched s').
Proof.
  induction 1 as [s|s qs move rest rounds s' Q N Sc D IH].
  - cbn. rewrite app_nil_r. repeat split; auto.
  - destruct (forced_all_facts qs s) as [T [P [St [Lo [Nw [Sc' _]]]]]].
    destruct IH as [T' [P' [St' [Lo' [Nw' L']]]]].
    unfold slept in *.
    cbn [trace worker_pool stopping_workers looping next_wid sched] in *.
    split.
    { rewrite T', T. unfold rounds_events. cbn [flat_map].
      now rewrite <- !app_assoc. }
    repeat split; try congruence.
    rewrite Sc. cbn [List.length]. lia.
Qed.

Lemma no_interrupt_rounds rounds : no_interrupt (rounds_events rounds).
Proof.
  induction rounds as [|qs rounds IH]; [intros w l []|].
  unfold rounds_events. cbn [flat_map].
  apply no_interrupt_app; [|exact IH].
  apply no_interrupt_app; [apply no_interrupt_round|].
  intros w l [I|[]]. discriminate.
Qed.

(** With fuel for more rounds than the schedule has moves, the loop goes
    through its rounds until no cancellation job is outstanding, and is
    then left, or until the schedule has ended. *)
Lemma drain_queries_run worker :
  forall fuel s,
    length (sched s) < fuel ->
    exists rounds s1,
      drained worker s rounds s1
      /\ WorkerManager.drain_queries fuel worker s
         = match cancel_rows (Some (appname worker)) (env s1) with
           | [] => (Ok tt, s1)
           | qs => (Blocked, forced_all qs s1)
           end
      /\ (cancel_rows (Some (appname worker)) (env s1) <> [] -> sched s1 = []).
Proof.
  induction fuel as [|fuel IH]; intros s L; [lia|].
  rewrite drain_queries_eq.
  destruct (cancel_rows (Some (appname worker)) (env s)) as [|q qs] eqn:Q.
  - exists [], s. split; [constructor|]. rewrite Q. split; auto.
    intros K. now elim K.
  - cbv zeta.
    destruct (forced_all_facts (q :: qs) s) as [_ [_ [_ [_ [_ [Sc _]]]]]].
    rewrite Sc. destruct (sched s) as [|move rest] eqn:S1.
    + exists [], s. split; [constructor|]. rewrite Q. split; auto.
    + destruct (IH (slept 250 move rest (forced_all (q :: qs) s)))
        as [rounds [s1 [D [R E]]]].
      { cbn [slept sched]. cbn [List.length] in L. lia. }
      exists ((q :: qs) :: rounds), s1. split; [|split; [exact R|exact E]].
      apply (drained_round worker s (q :: qs) move rest); auto. discriminate.
Qed.

(** Rounds that end with no cancellation job outstanding are the run of
    the loop, which is left at that point. *)
Lemma drain_queries_done worker s rounds s1 :
  drained worker s rounds s1 ->
  cancel_rows (Some (appname worker)) (env s1) = [] ->
  forall fuel, length rounds < fuel ->
    WorkerManager.drain_queries fuel worker s = (Ok tt, s1).
Proof.
  induction 1 as [s|s qs move rest rounds s' Q N Sc D IH]; intros E fuel L;
    (destruct fuel as [|fuel]; [lia|]); rewrite drain_queries_eq.
  - now rewrite E.
  - rewrite Q. destruct qs as [|q qs]; [now elim N|]. cbv zeta.
    destruct (forced_all_facts (q :: qs) s) as [_ [_ [_ [_ [_ [Sc' _]]]]]].
    rewrite Sc', Sc. apply IH; auto. cbn [List.length] in L. lia.
Qed.

Lemma drain_and_interrupt_run level worker s :
  exists rounds s1,
    drained worker s rounds s1
    /\ drain_and_interrupt level worker s
       = match cancel_rows (Some (appname worker)) (env s1) with
         | [] => (Ok tt, traced [EvInterrupt (wid worker) (Some level)] s1)
         | qs => (Blocked, forced_all qs s1)
         end
    /\ (cancel_rows (Some (appname worker)) (env s1) <> [] -> sched s1 = []).
Proof.
  destruct (drain_queries_run worker (S (length (sched s))) s (Nat.lt_succ_diag_r _))
    as [rounds [s1 [D [R E]]]].
  exists rounds, s1. split; [exact D|]. split; [|exact E].
  unfold drain_and_interrupt. unfold bind at 1, gets at 1.
  destruct (cancel_rows (Some (appname worker)) (env s1)) as [|q qs].
  - now rewrite (bind_ok _ _ _ _ _ R).
  - now rewrite (bind_blocked _ _ _ _ R).
Qed.

Lemma drain_and_interrupt_done level worker s rounds s1 :
  drained worker s rounds s1 ->
  cancel_rows (Some (appname worker)) (env s1) = [] ->
  drain_and_interrupt level worker s
  = (Ok tt, traced [EvInterrupt (wid worker) (Some level)] s1).
Proof.
  intros D E.
  assert (R : WorkerManager.drain_queries (S (length (sched s))) worker s
              = (Ok tt, s1)).
  { apply (drain_queries_done worker s rounds s1 D E).
    destruct (drained_facts worker s rounds s1 D) as [_ [_ [_ [_ [_ L]]]]]. lia. }
  unfold drain_and_interrupt. unfold bind at 1, gets at 1.
  now rewrite (bind_ok _ _ _ _ _ R).
Qed.

Lemma target_identifies j remote_id jobtype s worker :
  target j remote_id jobtype s = Some worker ->
  identifies j remote_id jobtype worker = true.
Proof.
  unfold target, identifies.
  destruct (target_jobtype j jobtype) as [jt|]; [|discriminate].
  intros T. apply find_some in T. now destruct T.
Qed.

(** C5.  A request that no pool entry matches, by job id or by jobtype and
    remote id, changes nothing.  A request that a pool entry matches goes to
    the first such entry of the jobtype's pool list (in a pool whose workers
    are filed under the jobtype of their job, an entry that matches is in
    that list).  For that worker the call goes through rounds: as long as
    the enumeration of the cancellation jobs for the worker's own
    connection comes back with jobs, the manager forces every one of them
    that is not claimed (claim, then release with delay 0 and claim_after
    0, after which its records are claimable), sleeps and enumerates again.
    The rounds end in a state [s1] that fixes the outcome: when no such
    job is outstanding there, the call makes the interrupt request, with
    the given level, as its one further call and returns; otherwise the
    schedule of the run has ended and the call is still waiting, having
    interrupted nobody.  In particular the interrupt is requested at once
    when no cancellation job is outstanding for the connection, and after
    one round when the jobs are gone after the first sleep.  The rounds
    request no interrupt and leave the pool, the stopping list and the stop
    flag alone; the call never raises. *)
Theorem request_interrupt_drains_first level j remote_id jobtype s :
  let call := WorkerManager.request_interrupt level j remote_id jobtype in
  ((forall w, In w (pool_workers s) -> identifies j remote_id jobtype w = false) ->
   call s = (Ok tt, s))
  /\ (forall jt w,
        target_jobtype j jobtype = Some jt ->
        In w (pool_of jt s) ->
        WorkerManager.is_target j remote_id jt w = true ->
        exists worker, target j remote_id jobtype s = Some worker)
  /\ (well_filed s ->
      forall jt jt' w,
        target_jobtype j jobtype = Some jt ->
        (forall j', j = Some j' -> job_id (job w) = job_id j' ->
                    job_jobtype (job w) = job_jobtype j') ->
        In w (pool_of jt' s) ->
        WorkerManager.is_target j remote_id jt w = true ->
        In w (pool_of jt s))
  /\ (forall worker,
        target j remote_id jobtype s = Some worker ->
        identifies j remote_id jobtype worker = true
        /\ exists rounds s1,
             drained worker s rounds s1
             /\ trace s1 = trace s ++ rounds_events rounds
             /\ no_interrupt (rounds_events rounds)
             /\ worker_pool s1 = worker_pool s
             /\ stopping_workers s1 = stopping_workers s
             /\ looping s1 = looping s
             /\ length (sched s) = length rounds + length (sched s1)
             /\ call s
                = match cancel_rows (Some (appname worker)) (env s1) with
                  | [] =>
                      (Ok tt,
                       traced [EvInterrupt (wid worker) (Some level)] s1)
                  | qs => (Blocked, forced_all qs s1)
                  end
             /\ (cancel_rows (Some (appname worker)) (env s1) <> [] ->
                 sched s1 = []))
  /\ (forall worker rounds s1,
        target j remote_id jobtype s = Some worker ->
        drained worker s rounds s1 ->
        cancel_rows (Some (appname worker)) (env s1) = [] ->
        call s = (Ok tt, traced [EvInterrupt (wid worker) (Some level)] s1))
  /\ (forall worker,
        target j remote_id jobtype s = Some worker ->
        cancel_rows (Some (appname worker)) (env s) = [] ->
        call s = (Ok tt, traced [EvInterrupt (wid worker) (Some level)] s))
  /\ (forall worker qs move rest,
        target j remote_id jobtype s = Some worker ->
        cancel_rows (Some (appname worker)) (env s) = qs ->
        qs <> [] ->
        sched s = move :: rest ->
        let s1 := slept 250 move rest (forced_all qs s) in
        cancel_rows (Some (appname worker)) (env s1) = [] ->
        call s = (Ok tt, traced [EvInterrupt (wid worker) (Some level)] s1)
        /\ trace (exec call s)
           = trace s ++ round_events qs
             ++ [EvSleep 250; EvInterrupt (wid worker) (Some level)])
  /\ (forall qs s0,
        trace (forced_all qs s0) = trace s0 ++ round_events qs
        /\ forall q, In q qs -> is_claimed q = false ->
                     made_claimable q (env (forced_all qs s0))).
Proof.
  intros call. unfold call. split.
  { intros H. rewrite request_interrupt_eq.
    now rewrite (find_none_pool j remote_id jobtype s H). }
  split.
  { intros jt w. apply target_found. }
  split.
  { intros WF jt jt' w TJ Same I T.
    replace jt with jt'; auto. rewrite <- (WF jt' w I).
    unfold WorkerManager.is_target in T. apply orb_true_iff in T.
    destruct T as [T|T].
    - destruct j as [j'|]; [|discriminate]. apply Z.eqb_eq in T.
      simpl in TJ. inversion TJ; subst jt. now apply Same.
    - apply andb_true_iff in T. destruct T as [T _].
      now apply String.eqb_eq in T. }
  split.
  { intros worker T. split; [now apply (target_identifies j remote_id jobtype s)|].
    destruct (drain_and_interrupt_run level worker s) as [rounds [s1 [D [R E]]]].
    destruct (drained_facts worker s rounds s1 D) as [Tr [P [St [Lo [_ L]]]]].
    exists rounds, s1. rewrite request_interrupt_eq, T.
    repeat split; auto. apply no_interrupt_rounds. }
  split.
  { intros worker rounds s1 T D E. rewrite request_interrupt_eq, T.
    now apply (drain_and_interrupt_done level worker s rounds s1). }
  split.
  { intros worker T E. rewrite request_interrupt_eq, T.
    apply (drain_and_interrupt_done level worker s [] s); [constructor|exact E]. }
  split.
  { intros worker qs move rest T Q N Sc E.
    set (s1 := slept 250 move rest (forced_all qs s)) in *.
    assert (D : drained worker s [qs] s1).
    { apply (drained_round worker s qs move rest); auto. constructor. }
    assert (R : WorkerManager.request_interrupt level j remote_id jobtype s
                = (Ok tt, traced [EvInterrupt (wid worker) (Some level)] s1)).
    { rewrite request_interrupt_eq, T.
      exact (drain_and_interrupt_done level worker s [qs] s1 D E). }
    split; [exact R|]. unfold exec. rewrite R. cbn [snd traced trace].
    destruct (drained_facts worker s [qs] s1 D) as [Tr _]. rewrite Tr.
    unfold rounds_events. cbn [flat_map]. rewrite app_nil_r.
    now rewrite <- !app_assoc. }
  intros qs s0. destruct (forced_all_facts qs s0) as [T [_ [_ [_ [_ [_ [_ [_ K]]]]]]]].
  now split.
Qed.

Lemma no_interrupt_filter evs :
  no_interrupt evs -> filter is_interrupt evs = [].
Proof.
  induction evs as [|ev evs IH]; intros H; simpl; auto.
  assert (H' : no_interrupt evs) by (intros w l I; apply (H w l); now right).
  destruct ev; simpl; auto.
  exfalso. eapply H. left. reflexivity.
Qed.

Lemma no_interrupt_count evs v : no_interrupt evs -> interrupts_of v evs = 0.
Proof.
  induction evs as [|ev evs IH]; intros H; simpl; auto.
  assert (H' : no_interrupt evs) by (intros w l I; apply (H w l); now right).
  destruct ev; auto.
  exfalso. eapply H. left. reflexivity.
Qed.

(** C9.  A call to [request_interrupt] requests at most one interrupt.  When
    the pool list of the jobtype holds a first entry that matches, every
    interrupt requested goes to that worker, with the level given; a call
    that returns has made it as its last call; and the entries after it in
    the list, matching or not, receive nothing.  The call does return, with
    the interrupt requested from that first entry and from no other worker,
    whenever its rounds of forcing and sleeping end with no cancellation
    job outstanding for the worker's connection, at once when none is
    outstanding to begin with; it is still waiting, having interrupted
    nobody, only when the schedule of the run ends before that. *)
Theorem request_interrupt_first_match_only level j remote_id jobtype s :
  let call := WorkerManager.request_interrupt level j remote_id jobtype in
  (exists evs,
     trace (exec call s) = trace s ++ evs
     /\ length (filter is_interrupt evs) <= 1
     /\ (forall jt pre worker post,
           target_jobtype j jobtype = Some jt ->
           pool_of jt s = pre ++ worker :: post ->
           (forall w, In w pre ->
                      WorkerManager.is_target j remote_id jt w = false) ->
           WorkerManager.is_target j remote_id jt worker = true ->
           (forall w l, In (EvInterrupt w l) evs ->
                        w = wid worker /\ l = Some level)
           /\ (outcome call s = Ok tt ->
               exists evs0,
                 evs = evs0 ++ [EvInterrupt (wid worker) (Some level)]
                 /\ no_interrupt evs0)
           /\ (forall w, In w post -> wid w <> wid worker ->
                         interrupts_of (wid w) evs = 0)))
  /\ (forall jt pre worker post,
        target_jobtype j jobtype = Some jt ->
        pool_of jt s = pre ++ worker :: post ->
        (forall w, In w pre ->
                   WorkerManager.is_target j remote_id jt w = false) ->
        WorkerManager.is_target j remote_id jt worker = true ->
        (cancel_rows (Some (appname worker)) (env s) = [] ->
         call s = (Ok tt, traced [EvInterrupt (wid worker) (Some level)] s))
        /\ (forall rounds s1,
              drained worker s rounds s1 ->
              cancel_rows (Some (appname worker)) (env s1) = [] ->
              call s
              = (Ok tt, traced [EvInterrupt (wid worker) (Some level)] s1)
              /\ trace (exec call s)
                 = trace s ++ rounds_events rounds
                   ++ [EvInterrupt (wid worker) (Some level)]
              /\ forall w, wid w <> wid worker ->
                   interrupts_of (wid w) (trace (exec call s))
                   = interrupts_of (wid w) (trace s))
        /\ exists rounds s1,
             drained worker s rounds s1
             /\ call s
                = match cancel_rows (Some (appname worker)) (env s1) with
                  | [] =>
                      (Ok tt,
                       traced [EvInterrupt (wid worker) (Some level)] s1)
                  | qs => (Blocked, forced_all qs s1)
                  end
             /\ (cancel_rows (Some (appname worker)) (env s1) <> [] ->
                 sched s1 = [])).
Proof.
  intros call. split.
  { unfold call, exec, outcome.
    rewrite request_interrupt_eq.
    destruct (target j remote_id jobtype s) as [worker|] eqn:T.
    - destruct (drain_and_interrupt_spec level worker s)
        as [r [s' [evs [R [NI [_ [_ [_ [Rc [Rok Rbl]]]]]]]]]].
      rewrite R. simpl. destruct Rc as [Rc|Rc]; subst r.
      + destruct (Rok eq_refl) as [Tr _].
        exists (evs ++ [EvInterrupt (wid worker) (Some level)]).
        split; [exact Tr|]. split.
        { rewrite filter_app, (no_interrupt_filter _ NI). simpl. lia. }
        intros jt pre worker' post TJ P N M.
        rewrite (target_first j remote_id jobtype s jt pre worker' post TJ P N M)
          in T. inversion T; subst worker'. split; [|split].
        * intros w l I. apply in_app_or in I. destruct I as [I|[I|[]]].
          -- exfalso. eapply NI; eauto.
          -- inversion I. auto.
        * intros _. exists evs. auto.
        * intros w I Nw. rewrite interrupts_of_app, (no_interrupt_count _ _ NI).
          simpl. apply Nat.eqb_neq in Nw. now rewrite Nw.
      + destruct (Rbl eq_refl) as [Tr _]. exists evs.
        split; [exact Tr|]. split.
        { rewrite (no_interrupt_filter _ NI). simpl. lia. }
        intros jt pre worker' post TJ P N M. split; [|split].
        * intros w l I. exfalso. eapply NI; eauto.
        * discriminate.
        * intros w I Nw. now apply no_interrupt_count.
    - exists []. simpl. rewrite app_nil_r. split; auto. split; [lia|].
      intros jt pre worker post TJ P N M.
      rewrite (target_first j remote_id jobtype s jt pre worker post TJ P N M)
        in T. discriminate. }
  intros jt pre worker post TJ P N M.
  assert (T := target_first j remote_id jobtype s jt pre worker post TJ P N M).
  assert (Done : forall rounds s1,
             drained worker s rounds s1 ->
             cancel_rows (Some (appname worker)) (env s1) = [] ->
             call s = (Ok tt, traced [EvInterrupt (wid worker) (Some level)] s1)).
  { intros rounds s1 D E. unfold call. rewrite request_interrupt_eq, T.
    now apply (drain_and_interrupt_done level worker s rounds s1). }
  split.
  { intros E. apply (Done [] s); [constructor|exact E]. }
  split.
  { intros rounds s1 D E. split; [now apply (Done rounds)|].
    unfold exec. rewrite (Done rounds s1 D E). cbn [snd traced trace].
    destruct (drained_facts worker s rounds s1 D) as [Tr _]. rewrite Tr.
    split; [now rewrite <- app_assoc|].
    intros w Nw. rewrite !interrupts_of_app.
    rewrite (no_interrupt_count _ _ (no_interrupt_rounds rounds)).
    cbn. apply Nat.eqb_neq in Nw. rewrite Nw. lia. }
  destruct (drain_and_interrupt_run level worker s) as [rounds [s1 [D [R E]]]].
  exists rounds, s1. unfold call. rewrite request_interrupt_eq, T. auto.
Qed.

(** ** The targeted delete *)

Lemma request_delete_eq j remote_id jobtype s :
  WorkerManager.request_delete j remote_id jobtype s =
  match resolve j remote_id jobtype (env s) with
  | Some j' => (Ok tt, deleted j' s)
  | None => (Ok tt, s)
  end.
Proof.
  assert (F : forall j', job_finish j' true s = (Ok tt, deleted j' s)).
  { intros j'. unfold job_finish, bind, emit, modify, on_env, Queue.finish.
    simpl. unfold deleted, with_env. simpl.
    now destruct (job_interval j'). }
  unfold WorkerManager.request_delete, resolve.
  destruct j as [j'|].
  - unfold bind at 1, ret at 1. apply F.
  - unfold bind at 1, try_except, bind, on_env, Queue.get_by_remote_ID.
    destruct (find _ (rows (env s))) as [j'|]; simpl.
    + rewrite with_env_same. apply F.
    + now rewrite with_env_same.
Qed.

(** C4.  A delete request for a job object, or for a remote id and jobtype
    for which the table holds a record, returns normally after one call of
    [finish] with [delete=True] on that job, and afterwards no enumeration
    of the queue, whatever its filters, returns a record of that job; when
    the table holds one record per identity, none with the job's identity
    either.  A request by remote id and jobtype for which no record is
    found returns normally and leaves the whole state as it was. *)
Theorem request_delete_removes_job j remote_id jobtype s :
  match resolve j remote_id jobtype (env s) with
  | None => WorkerManager.request_delete j remote_id jobtype s = (Ok tt, s)
  | Some j' =>
      exists s',
        WorkerManager.request_delete j remote_id jobtype s = (Ok tt, s')
        /\ trace s' = trace s ++ [EvFinish j' true]
        /\ worker_pool s' = worker_pool s
        /\ stopping_workers s' = stopping_workers s
        /\ looping s' = looping s
        /\ (forall jt rid claimable jobs e',
              Queue.get_all_jobs jt rid claimable (env s') = (Ok jobs, e') ->
              forall r, In r jobs -> job_id r <> job_id j')
        /\ (identity_unique (env s) -> In j' (rows (env s)) ->
            forall jobs e',
              Queue.get_all_jobs None None false (env s') = (Ok jobs, e') ->
              forall r, In r jobs ->
                Queue.same_identity (job_jobtype j') (job_remote_id j')
                                    (job_instance j') r = false)
        /\ (forall r, In r (rows (env s)) -> job_id r <> job_id j' ->
                      In r (rows (env s')))
  end.
Proof.
  rewrite request_delete_eq.
  destruct (resolve j remote_id jobtype (env s)) as [j'|]; [|reflexivity].
  exists (deleted j' s). split; [reflexivity|]. simpl.
  repeat split; auto.
  - intros jt rid claimable jobs e' G r I.
    unfold Queue.get_all_jobs, gets in G. inversion G; subst jobs e'. clear G.
    apply filter_In in I. destruct I as [I _]. simpl in I.
    apply filter_In in I. destruct I as [_ I].
    apply negb_true_iff, Z.eqb_neq in I. exact I.
  - intros U Ij jobs e' G r I.
    rewrite snapshot_all in G. inversion G; subst jobs e'. clear G.
    simpl in I. apply filter_In in I. destruct I as [I N].
    apply negb_true_iff, Z.eqb_neq in N.
    destruct (Queue.same_identity _ _ _ r) eqn:Q; auto.
    exfalso. apply N. symmetry. now apply U.
  - intros r I N. apply filter_In. split; auto.
    apply negb_true_iff, Z.eqb_neq. exact N.
Qed.

(** ** The board scraper *)

Lemma add_job_cases jobtype remote_id details interval instance e :
  (Queue.add_job jobtype remote_id details interval instance e
   = (Raise JobAlreadyExistsException, e))
  \/ (exists e', Queue.add_job jobtype remote_id details interval instance e
                 = (Ok tt, e')
                 /\ threads e' = threads e).
Proof.
  unfold Queue.add_job. destruct (existsb _ (rows e)); [left|right]; eauto.
Qed.

Lemma save_thread_eq thread j s no last_modified :
  Py.get "no" thread = Some no ->
  Py.get "last_modified" thread = Some last_modified ->
  BoardScraper.save_thread thread j s =
  (Ok (new_threads s no),
   BoardScraper.mkScraper (BoardScraper.position s) (BoardScraper.loop_time s)
     (with_threads (recorded s no last_modified (job_remote_id j))
        (exec (Queue.add_job "thread" (Py.str no)
                 [("board", job_remote_id j)] None None)
              (BoardScraper.world s)))).
Proof.
  intros N L. unfold BoardScraper.save_thread.
  unfold BoardScraper.required_fields, existsb, BoardScraper.has_key.
  rewrite N, L. cbn [negb orb].
  unfold BoardScraper.item. rewrite N, L.
  unfold bind at 1, ret at 1.
  unfold bind at 1, try_except, BoardScraper.on_world, exec.
  destruct (add_job_cases "thread" (Py.str no) [("board", job_remote_id j)]
              None None (BoardScraper.world s)) as [A|[e' [A T]]];
    rewrite A; cbn [exn_eqb snd].
  - unfold ret at 1. unfold bind, BoardScraper.fetch_thread, gets, ret,
      BoardScraper.insert_thread, BoardScraper.update_thread, modify.
    cbn [BoardScraper.world BoardScraper.position BoardScraper.loop_time
         threads fst snd].
    unfold new_threads, recorded.
    destruct (find _ (threads (BoardScraper.world s))); reflexivity.
  - unfold bind, BoardScraper.fetch_thread, gets, ret,
      BoardScraper.insert_thread, BoardScraper.update_thread, modify.
    cbn [BoardScraper.world BoardScraper.position BoardScraper.loop_time
         threads fst snd].
    unfold new_threads, recorded. rewrite T.
    destruct (find _ (threads (BoardScraper.world s))); cbn; rewrite ?T;
      reflexivity.
Qed.

Lemma save_thread_total thread j s :
  exists n s', BoardScraper.save_thread thread j s = (Ok n, s').
Proof.
  destruct (Py.get "no" thread) as [no|] eqn:N.
  - destruct (Py.get "last_modified" thread) as [lm|] eqn:L.
    + rewrite (save_thread_eq thread j s no lm N L). eauto.
    + unfold BoardScraper.save_thread, BoardScraper.required_fields, existsb,
        BoardScraper.has_key. rewrite N, L. cbn [negb orb].
      unfold ret. eauto.
  - unfold BoardScraper.save_thread, BoardScraper.required_fields, existsb,
      BoardScraper.has_key. rewrite N. cbn [negb orb].
      unfold ret. eauto.
Qed.

Lemma process_threads_total ts j :
  forall acc s, exists n s', BoardScraper.process_threads ts j acc s = (Ok n, s').
Proof.
  induction ts as [|t ts IH]; intros acc s.
  { exists acc, s. reflexivity. }
  cbn [BoardScraper.process_threads].
  unfold bind at 1, modify at 1.
  destruct (save_thread_total t j
              (BoardScraper.mkScraper (BoardScraper.position s + 1)%Z
                 (BoardScraper.loop_time s) (BoardScraper.world s)))
    as [n [s1 R]].
  rewrite (bind_ok _ _ _ _ _ R). apply IH.
Qed.

Lemma recorded_has_row s no last_modified board :
  exists row,
    In row (recorded s no last_modified board)
    /\ thread_id row = no
    /\ timestamp_scraped row = BoardScraper.loop_time s
    /\ timestamp_modified row = last_modified.
Proof.
  unfold recorded.
  set (upd := fun r : ThreadRow => if (thread_id r =? no)%Z then _ else r).
  assert (U : forall r, thread_id r = no ->
                        thread_id (upd r) = no
                        /\ timestamp_scraped (upd r) = BoardScraper.loop_time s
                        /\ timestamp_modified (upd r) = last_modified).
  { intros r E. unfold upd.
    assert (Q : (thread_id r =? no)%Z = true) by now apply Z.eqb_eq.
    rewrite Q. cbn [thread_id timestamp_scraped timestamp_modified]. auto. }
  destruct (find (fun r => (thread_id r =? no)%Z)
                 (threads (BoardScraper.world s))) as [r|] eqn:F.
  - apply find_some in F. destruct F as [I E]. apply Z.eqb_eq in E.
    exists (upd r). split; [now apply in_map|]. now apply U.
  - exists (upd (mkThreadRow no board "" 0 0 0)). split.
    + apply in_map. apply in_or_app. right. now left.
    + now apply U.
Qed.

(** C7.  When the thread has the required fields and creating the job for
    it fails with the duplicate-job condition, [save_thread] returns
    normally, leaves the job table as it was, and has recorded the thread:
    the [threads] table holds a row for it, inserted if there was none, with
    the time of this scrape and the thread's modification time; the table
    is the one a successful creation would have led to.  No call of
    [save_thread] or of [process] ever raises. *)
Theorem save_thread_swallows_duplicate thread j s no last_modified :
  Py.get "no" thread = Some no ->
  Py.get "last_modified" thread = Some last_modified ->
  outcome (Queue.add_job "thread" (Py.str no) [("board", job_remote_id j)]
             None None) (BoardScraper.world s)
  = Raise JobAlreadyExistsException ->
  BoardScraper.save_thread thread j s =
  (Ok (new_threads s no),
   BoardScraper.mkScraper (BoardScraper.position s) (BoardScraper.loop_time s)
     (with_threads (recorded s no last_modified (job_remote_id j))
                   (BoardScraper.world s)))
  /\ (exists row,
        In row (recorded s no last_modified (job_remote_id j))
        /\ thread_id row = no
        /\ timestamp_scraped row = BoardScraper.loop_time s
        /\ timestamp_modified row = last_modified)
  /\ (forall e,
        threads e = threads (BoardScraper.world s) ->
        threads (BoardScraper.world
                   (exec (BoardScraper.save_thread thread j)
                      (BoardScraper.mkScraper (BoardScraper.position s)
                         (BoardScraper.loop_time s) e)))
        = recorded s no last_modified (job_remote_id j))
  /\ (forall thread' j' s0,
        exists n s', BoardScraper.save_thread thread' j' s0 = (Ok n, s'))
  /\ (forall data j' s0,
        exists n s', BoardScraper.process data j' s0 = (Ok n, s')).
Proof.
  intros N L D. split.
  { rewrite (save_thread_eq thread j s no last_modified N L).
    unfold outcome in D. unfold exec.
    destruct (add_job_cases "thread" (Py.str no) [("board", job_remote_id j)]
                None None (BoardScraper.world s)) as [A|[e' [A _]]];
      rewrite A in *; [reflexivity|discriminate]. }
  split; [apply recorded_has_row|].
  split.
  { intros e T. unfold exec at 1.
    rewrite (save_thread_eq thread j _ no last_modified N L). simpl.
    unfold recorded. simpl. now rewrite T. }
  split; [apply save_thread_total|].
  intros data j' s0. apply process_threads_total.
Qed.

(** ** Startup *)

Lemma queue_add_job_ok instance_id spec s :
  not_pending instance_id (fst spec) (env s) ->
  queue_add_job (fst spec) instance_id (snd spec) (Some instance_id) s
  = (Ok tt, queued instance_id spec s).
Proof.
  intros H. unfold queue_add_job, bind, emit, modify, on_env, Queue.add_job.
  cbn [env]. unfold not_pending in H. rewrite H. reflexivity.
Qed.

Lemma not_pending_queued instance_id spec jt s :
  String.eqb jt (fst spec) = false ->
  not_pending instance_id jt (env s) ->
  not_pending instance_id jt (env (queued instance_id spec s)).
Proof.
  intros N H. unfold not_pending, queued in *. cbn [env rows].
  rewrite existsb_app, H. cbn [existsb orb].
  unfold Queue.same_identity, maintenance_job. cbn [job_jobtype].
  now rewrite N.
Qed.

(** X17.  Once the data sources are validated, and when none of the four
    jobs is already pending for the instance, the constructor queues, by
    four calls of [add_job] in this order, an ["api"] job without interval
    and the jobs ["expire-datasets"] every 300 s, ["datasource-metrics"]
    every 86400 s and ["clean-temp-files"] every 3600 s, each with the
    instance identifier as remote id and as instance; the loop is entered
    only then, from the state in which the four jobs are in the table. *)
Theorem startup_queues_maintenance_jobs all_modules instance_id s s0 :
  WorkerManager.validate_datasources all_modules s = (Ok tt, s0) ->
  (forall spec, In spec maintenance_jobs ->
                not_pending instance_id (fst spec) (env s0)) ->
  let s1 := fold_left (fun s spec => queued instance_id spec s)
                      maintenance_jobs s0 in
  WorkerManager.startup all_modules instance_id s = (Ok tt, s1)
  /\ rows (env s1) =
       rows (env s0)
       ++ map (fun k => maintenance_job instance_id
                          (serial (env s0) + Z.of_nat k)%Z (now (env s0))
                          (nth k maintenance_jobs ("", None)))
              [0; 1; 2; 3]
  /\ trace s1 =
       trace s0
       ++ map (fun spec => EvAddJob (fst spec) instance_id (snd spec)
                             (Some instance_id)) maintenance_jobs
  /\ (forall loop,
        WorkerManager.init all_modules instance_id loop s = loop s1).
Proof.
  intros V H s1.
  assert (R : WorkerManager.startup all_modules instance_id s = (Ok tt, s1)).
  { unfold WorkerManager.startup. rewrite (bind_ok _ _ _ _ _ V).
    set (a := ("api", @None Z)).
    set (b := ("expire-datasets", Some 300%Z)).
    set (c := ("datasource-metrics", Some 86400%Z)).
    set (d := ("clean-temp-files", Some 3600%Z)).
    assert (Ha : not_pending instance_id (fst a) (env s0))
      by (apply H; simpl; auto).
    assert (Hb : not_pending instance_id (fst b) (env s0))
      by (apply H; simpl; auto).
    assert (Hc : not_pending instance_id (fst c) (env s0))
      by (apply H; simpl; auto 6).
    assert (Hd : not_pending instance_id (fst d) (env s0))
      by (apply H; simpl; auto 6).
    rewrite (bind_ok _ _ _ _ _ (queue_add_job_ok instance_id a s0 Ha)).
    assert (Hb1 := not_pending_queued instance_id a (fst b) s0 eq_refl Hb).
    assert (Hc1 := not_pending_queued instance_id a (fst c) s0 eq_refl Hc).
    assert (Hd1 := not_pending_queued instance_id a (fst d) s0 eq_refl Hd).
    rewrite (bind_ok _ _ _ _ _ (queue_add_job_ok instance_id b _ Hb1)).
    assert (Hc2 := not_pending_queued instance_id b (fst c) _ eq_refl Hc1).
    assert (Hd2 := not_pending_queued instance_id b (fst d) _ eq_refl Hd1).
    rewrite (bind_ok _ _ _ _ _ (queue_add_job_ok instance_id c _ Hc2)).
    assert (Hd3 := not_pending_queued instance_id c (fst d) _ eq_refl Hd2).
    exact (queue_add_job_ok instance_id d _ Hd3). }
  split; [exact R|]. split; [|split].
  - unfold s1, maintenance_jobs, queued, maintenance_job.
    cbn [fold_left env rows serial now map nth fst snd].
    rewrite <- !app_assoc. cbn [app]. rewrite Z.add_0_r.
    repeat f_equal; lia.
  - unfold s1, maintenance_jobs, queued.
    cbn [fold_left trace map fst snd]. rewrite <- !app_assoc. reflexivity.
  - intros loop. unfold WorkerManager.init. now rewrite (bind_ok _ _ _ _ _ R).
Qed.

(** ** The graceful stop, when no cancellation job is claimed *)

Lemma force_all_eq :
  forall qs s,
    (forall q, In q qs -> is_claimed q = false) ->
    (forall q, In q qs -> claimable_row q (env s)) ->
    for_each qs (fun j => job_claim j ;; job_release j 0%Z 0%Z) s
    = (Ok tt, forced_all qs s).
Proof.
  induction qs as [|q qs IH]; intros s U H; [reflexivity|].
  cbn [for_each forced_all fold_left]. rewrite (U q) by now left.
  rewrite (bind_ok _ _ _ _ _ (force_eq q s (H q (or_introl eq_refl)))).
  apply IH.
  - intros q' I. apply U. now right.
  - intros q' I. apply claimable_row_forced. apply H. now right.
Qed.

Lemma wait_cancel_jobs_spec :
  forall fuel s,
    exists r s' k,
      WorkerManager.wait_cancel_jobs fuel s = (r, s')
      /\ trace s' = trace s ++ repeat (EvSleep 250) k
      /\ worker_pool s' = worker_pool s
      /\ stopping_workers s' = stopping_workers s
      /\ looping s' = looping s
      /\ (r = Ok tt \/ r = Blocked)
      /\ (r = Ok tt -> cancel_rows None (env s') = [])
      /\ (r = Blocked -> length (sched s) < fuel -> sched s' = []).
Proof.
  induction fuel as [|fuel IH]; intros s.
  - exists Blocked, s, 0. simpl. rewrite app_nil_r.
    repeat split; auto; try discriminate; lia.
  - cbn [WorkerManager.wait_cancel_jobs].
    rewrite (bind_ok _ _ _ _ _ (cancel_jobs_eq None s)).
    destruct (cancel_rows None (env s)) as [|q qs] eqn:Q.
    + exists (Ok tt), s, 0. simpl. rewrite app_nil_r.
      repeat split; auto; discriminate.
    + unfold bind at 1, time_sleep at 1.
      destruct (sched s) as [|move rest] eqn:Sc.
      * exists Blocked, s, 0. simpl. rewrite app_nil_r.
        repeat split; auto; discriminate.
      * destruct (IH (mkState (worker_pool s) (stopping_workers s) (looping s)
                        (next_wid s) (move (env s))
                        (trace s ++ [EvSleep 250]) rest))
          as [r [s' [k [R [T [P [St [Lo [Rc [Rok Rbl]]]]]]]]]].
        cbn [trace worker_pool stopping_workers looping sched] in *.
        exists r, s', (S k). split; [exact R|]. split.
        { rewrite T. simpl. now rewrite <- app_assoc. }
        repeat split; auto.
        intros B L. apply Rbl; auto. simpl in L. lia.
Qed.

(** A graceful stop over a table in which no cancellation job is claimed:
    every outstanding cancellation job is claimed and released with delay 0
    and claim_after 0, in the order of the enumeration; then the manager
    only sleeps; and the stop flag goes down, as the last thing, when an
    enumeration has come back empty.  The call never raises; it is still
    waiting only if the schedule of the run ended during a sleep. *)
Lemma abort_spec s :
  (forall q, In q (cancel_rows None (env s)) -> is_claimed q = false) ->
  exists r s' k,
    WorkerManager.abort s = (r, s')
    /\ trace s' = trace s ++ round_events (cancel_rows None (env s))
                          ++ repeat (EvSleep 250) k
    /\ (r = Ok tt \/ r = Blocked)
    /\ (r = Ok tt -> looping s' = false /\ cancel_rows None (env s') = [])
    /\ (r = Blocked -> looping s' = looping s /\ sched s' = []).
Proof.
  intros U. unfold WorkerManager.abort, WorkerManager.force_cancel_jobs.
  rewrite bind_assoc.
  rewrite (bind_ok _ _ _ _ _ (cancel_jobs_eq None s)).
  set (qs := cancel_rows None (env s)) in *.
  assert (F := force_all_eq qs s U
                 (fun q I => snapshot_claimable None s q I (U q I))).
  rewrite (bind_ok _ _ _ _ _ F).
  destruct (forced_all_facts qs s) as [T [P [St [Lo [Nw [Sc _]]]]]].
  unfold bind at 1, gets at 1.
  destruct (wait_cancel_jobs_spec (S (length (sched (forced_all qs s))))
              (forced_all qs s))
    as [r [s' [k [R [T' [P' [St' [Lo' [Rc [Rok Rbl]]]]]]]]]].
  destruct Rc as [Rc|Rc]; subst r.
  - rewrite (bind_ok _ _ _ _ _ R).
    eexists (Ok tt), _, k. split; [reflexivity|]. simpl.
    split; [now rewrite T', T, app_assoc|]. split; auto.
    split; [auto|discriminate].
  - rewrite (bind_blocked _ _ _ _ R).
    exists Blocked, s', k. split; [reflexivity|].
    split; [now rewrite T', T, app_assoc|]. split; auto.
    split; [discriminate|]. intros _. split; [congruence|].
    apply Rbl; auto.
Qed.

(** * Concrete instances *)

Lemma delegate_respects_max_workers_witness :
  capacity_ok Examples.registry Examples.full_pool
  /\ capacity_ok Examples.registry
       (exec (WorkerManager.delegate Examples.registry) Examples.full_pool)
  /\ pool_of "board"
       (exec (WorkerManager.delegate Examples.registry) Examples.full_pool)
     = [Examples.board_worker 0 1; Examples.board_worker 1 2]
  /\ trace (exec (WorkerManager.delegate Examples.registry) Examples.full_pool)
     = [EvSleep 1000].
Proof.
  assert (H : capacity_ok Examples.registry Examples.full_pool).
  { intros jt wc G. unfold Examples.registry in G. cbn [workers Py.get] in G.
    destruct (String.eqb jt "board") eqn:E; [|discriminate].
    apply String.eqb_eq in E. subst jt. inversion G. cbn. auto. }
  split; [exact H|].
  destruct (delegate_respects_max_workers Examples.registry Examples.full_pool H)
    as [C [_ [_ F]]].
  split; [exact C|].
  destruct (F "board" Examples.board_class eq_refl) as [P _].
  - cbn. auto.
  - intros w I. cbn in I. destruct I as [I|[I|[]]]; subst w; reflexivity.
  - split; [exact P|reflexivity].
Defined.

Lemma abort_twice_witness :
  WorkerManager.abort Examples.cancel_pending
  = (Ok tt, exec WorkerManager.abort Examples.cancel_pending)
  /\ (forall j,
        In j (rows (env (exec WorkerManager.abort Examples.cancel_pending))) ->
        job_jobtype j = "cancel-pg-query" ->
        exists j0,
          In j0 (rows (env (exec WorkerManager.abort Examples.cancel_pending)))
          /\ job_jobtype j0 = "cancel-pg-query"
          /\ job_id j0 = job_id j)
  /\ WorkerManager.abort
       (later (env (exec WorkerManager.abort Examples.cancel_pending)) []
              (exec WorkerManager.abort Examples.cancel_pending))
     = (Ok tt,
        later (env (exec WorkerManager.abort Examples.cancel_pending)) []
              (exec WorkerManager.abort Examples.cancel_pending))
  /\ trace (exec WorkerManager.abort Examples.cancel_pending)
     = [EvClaim (Examples.cancel_job false);
        EvRelease (Examples.cancel_job false) 0 0; EvSleep 250].
Proof.
  assert (R : WorkerManager.abort Examples.cancel_pending
              = (Ok tt, exec WorkerManager.abort Examples.cancel_pending)).
  { vm_compute. reflexivity. }
  assert (N : forall j,
             In j (rows (env (exec WorkerManager.abort
                                Examples.cancel_pending))) ->
             job_jobtype j = "cancel-pg-query" ->
             exists j0,
               In j0 (rows (env (exec WorkerManager.abort
                                   Examples.cancel_pending)))
               /\ job_jobtype j0 = "cancel-pg-query"
               /\ job_id j0 = job_id j).
  { intros j I. vm_compute in I. destruct I. }
  split; [exact R|]. split; [exact N|].
  destruct (abort_twice Examples.cancel_pending
              (exec WorkerManager.abort Examples.cancel_pending)
              (env (exec WorkerManager.abort Examples.cancel_pending)) [] R N)
    as [_ [Q _]].
  split; [exact Q|]. vm_compute. reflexivity.
Defined.

Lemma save_thread_swallows_duplicate_witness :
  Py.get "no" Examples.thread_123 = Some 123%Z
  /\ Py.get "last_modified" Examples.thread_123 = Some 990%Z
  /\ outcome (Queue.add_job "thread" (Py.str 123) [("board", "b")] None None)
             (BoardScraper.world Examples.scraper)
     = Raise JobAlreadyExistsException
  /\ BoardScraper.save_thread Examples.thread_123 (Examples.board_job 9)
       Examples.scraper
     = (Ok 1%Z,
        BoardScraper.mkScraper 4 1000
          (with_threads [mkThreadRow 123 "b" "1000:4," 1000 990 0]
             (BoardScraper.world Examples.scraper))).
Proof.
  assert (D : outcome (Queue.add_job "thread" (Py.str 123)
                         [("board", job_remote_id (Examples.board_job 9))]
                         None None)
                      (BoardScraper.world Examples.scraper)
              = Raise JobAlreadyExistsException).
  { vm_compute. reflexivity. }
  assert (N : Py.get "no" Examples.thread_123 = Some 123%Z)
    by reflexivity.
  assert (L : Py.get "last_modified" Examples.thread_123 = Some 990%Z)
    by reflexivity.
  split; [exact N|]. split; [exact L|]. split; [exact D|].
  destruct (save_thread_swallows_duplicate Examples.thread_123
              (Examples.board_job 9) Examples.scraper 123 990 N L D)
    as [E _].
  exact E.
Defined.

Lemma startup_queues_maintenance_jobs_witness :
  WorkerManager.validate_datasources Examples.registry
    (fresh_manager (Examples.world_of [] []) [])
  = (Ok tt, fresh_manager (Examples.world_of [] []) [])
  /\ (forall spec, In spec maintenance_jobs ->
                   not_pending "4cat" (fst spec)
                     (env (fresh_manager (Examples.world_of [] []) [])))
  /\ map (fun j => (job_jobtype j, job_remote_id j, job_instance j,
                    job_interval j))
       (rows (env (exec (WorkerManager.startup Examples.registry "4cat")
                     (fresh_manager (Examples.world_of [] []) []))))
     = [("api", "4cat", Some "4cat", None);
        ("expire-datasets", "4cat", Some "4cat", Some 300%Z);
        ("datasource-metrics", "4cat", Some "4cat", Some 86400%Z);
        ("clean-temp-files", "4cat", Some "4cat", Some 3600%Z)].
Proof.
  assert (V : WorkerManager.validate_datasources Examples.registry
                (fresh_manager (Examples.world_of [] []) [])
              = (Ok tt, fresh_manager (Examples.world_of [] []) [])).
  { reflexivity. }
  assert (N : forall spec, In spec maintenance_jobs ->
                not_pending "4cat" (fst spec)
                  (env (fresh_manager (Examples.world_of [] []) []))).
  { intros spec I. reflexivity. }
  split; [exact V|]. split; [exact N|].
  destruct (startup_queues_maintenance_jobs Examples.registry "4cat"
              (fresh_manager (Examples.world_of [] []) [])
              (fresh_manager (Examples.world_of [] []) []) V N) as [R _].
  unfold exec. rewrite R. reflexivity.
Defined.

(** C1, as stated, fails twice.  In [shared_job_run] the worker started
    first is running, with its job 5 absent from the table, at the start of
    the third, fourth and fifth tick, and receives two interrupts over
    these ticks: the second worker, started for the same job, stops in
    between, which takes the id out of the stopping list.  In [skipped_run]
    the second worker is running at the start of the second tick, with its
    job 2 absent from the table and from the stopping list, and that tick
    interrupts nobody: the pass removes the stopped worker in front of it
    and steps over it; by the third tick it has stopped, having received no
    interrupt at all. *)
Lemma draining_worker_interrupted_twice_or_never :
  (let s := exec (WorkerManager.ticks Examples.registry 2)
                 Examples.shared_job_run in
   pool_of "board" s = [Examples.board_worker 0 5; Examples.board_worker 1 5]
   /\ draining (Examples.board_worker 0 5) Examples.registry 3 s
   /\ interrupts_of 0 (trace s) = 0
   /\ interrupts_of 0
        (trace (exec (WorkerManager.ticks Examples.registry 3) s)) = 2)
  /\ (let s := exec (WorkerManager.ticks Examples.registry 1)
                    Examples.skipped_run in
      pool_of "board" s = [Examples.board_worker 0 1; Examples.board_worker 1 2]
      /\ draining (Examples.board_worker 1 2) Examples.registry 1 s
      /\ stopping_workers s = []
      /\ alive (Examples.board_worker 1 2)
           (env (exec (WorkerManager.ticks Examples.registry 1) s)) = false
      /\ pool_of "board" (exec (WorkerManager.ticks Examples.registry 2) s) = []
      /\ interrupts_of 1
           (trace (exec (WorkerManager.ticks Examples.registry 2) s)) = 0).
Proof.
  split.
  - cbv zeta. split; [vm_compute; reflexivity|].
    split; [|split; vm_compute; reflexivity].
    intros k L. destruct k as [|[|[|k]]].
    + split; [vm_compute; reflexivity|]. vm_compute. intros [].
    + split; [vm_compute; reflexivity|]. vm_compute. intros [].
    + split; [vm_compute; reflexivity|]. vm_compute. intros [].
    + exfalso. lia.
  - cbv zeta. split; [vm_compute; reflexivity|].
    split; [|repeat split; vm_compute; reflexivity].
    intros k L. destruct k as [|k].
    + split; [vm_compute; reflexivity|]. vm_compute. intros [].
    + exfalso. lia.
Qed.

(** C3.  With a claimed cancellation job outstanding (the job is being
    run), [abort] raises [JobClaimedException] on its first [claim], with
    the stop flag still up, although the job would have been gone after the
    first sleep.  [request_interrupt], over the same table, passes over the
    claimed job, waits, and delivers its interrupt. *)
Theorem abort_raises_on_claimed_cancel_job :
  outcome WorkerManager.abort Examples.cancel_running
  = Raise JobClaimedException
  /\ looping (exec WorkerManager.abort Examples.cancel_running) = true
  /\ trace (exec WorkerManager.abort Examples.cancel_running)
     = [EvClaim (Examples.cancel_job true)]
  /\ cancel_rows None (env Examples.cancel_running)
     = [Examples.cancel_job true]
  /\ outcome (WorkerManager.request_interrupt 1 None (Some "b") (Some "board"))
             Examples.cancel_running_with_worker = Ok tt
  /\ trace (exec (WorkerManager.request_interrupt 1 None (Some "b")
                    (Some "board"))
              Examples.cancel_running_with_worker)
     = [EvSleep 250; EvInterrupt 0 (Some 1%Z)].
Proof. repeat split; vm_compute; reflexivity. Qed.

(** C6.  With a claimed cancellation job outstanding (the job is being
    run), two calls of [abort] in succession, with no cancellation job
    created and nothing else changed in the table in between, both raise
    [JobClaimedException] on their first [claim]; the stop flag is up
    after the first call and after the second, so it never goes down. *)
Theorem abort_twice_raises_on_claimed_cancel_job :
  let s := Examples.cancel_running in
  let s1 := exec WorkerManager.abort s in
  let s2 := exec WorkerManager.abort s1 in
  cancel_rows None (env s) = [Examples.cancel_job true]
  /\ outcome WorkerManager.abort s = Raise JobClaimedException
  /\ looping s1 = true
  /\ rows (env s1) = rows (env s)
  /\ outcome WorkerManager.abort s1 = Raise JobClaimedException
  /\ looping s2 = true
  /\ trace s2 = [EvClaim (Examples.cancel_job true);
                 EvClaim (Examples.cancel_job true)].
Proof. vm_compute. repeat split. Qed.

(** C8.  A manager that starts for instance "4cat" while the job that
    expires datasets is still pending from an earlier run queues the
    ["api"] job, fails with [JobAlreadyExistsException] on the second
    [add_job], which the constructor does not catch, queues neither
    ["datasource-metrics"] nor ["clean-temp-files"], and never enters the
    loop. *)
Theorem startup_raises_on_pending_maintenance_job :
  let s := Examples.restarted in
  let start := WorkerManager.startup Examples.registry "4cat" in
  map (fun j => (job_jobtype j, job_remote_id j, job_instance j, is_claimed j))
      (rows (env s))
  = [("expire-datasets", "4cat", Some "4cat", false)]
  /\ outcome start s = Raise JobAlreadyExistsException
  /\ map (fun j => (job_jobtype j, job_remote_id j, job_instance j,
                    job_interval j))
       (rows (env (exec start s)))
     = [("expire-datasets", "4cat", Some "4cat", Some 300%Z);
        ("api", "4cat", Some "4cat", None)]
  /\ trace (exec start s)
     = [EvAddJob "api" "4cat" None (Some "4cat");
        EvAddJob "expire-datasets" "4cat" (Some 300%Z) (Some "4cat")]
  /\ (forall loop,
        WorkerManager.init Examples.registry "4cat" loop s
        = (Raise JobAlreadyExistsException, exec start s)).
Proof.
  cbv zeta. split; [vm_compute; reflexivity|].
  split; [vm_compute; reflexivity|].
  split; [vm_compute; reflexivity|].
  split; [vm_compute; reflexivity|].
  intros loop. unfold WorkerManager.init.
  assert (R : WorkerManager.startup Examples.registry "4cat" Examples.restarted
              = (Raise JobAlreadyExistsException,
                 exec (WorkerManager.startup Examples.registry "4cat")
                      Examples.restarted)).
  { vm_compute. reflexivity. }
  now rewrite (bind_raise _ _ _ _ _ R).
Qed.

(** * Further properties of the manager and of the board scraper *)

(** ** The dictionary as a list of entries *)

Lemma get_split {V} k (d : Py.dict V) v :
  Py.get k d = Some v ->
  exists d1 d2,
    d = d1 ++ (k, v) :: d2
    /\ forall v', Py.set k v' d = d1 ++ (k, v') :: d2.
Proof.
  induction d as [|[k' v0] d IH]; [discriminate|].
  cbn [Py.get Py.set]. destruct (String.eqb k k') eqn:E.
  - intros G. inversion G; subst v0. apply String.eqb_eq in E. subst k'.
    exists [], d. split; [reflexivity|]. intros v'. reflexivity.
  - intros G. destruct (IH G) as [d1 [d2 [D S]]].
    exists ((k', v0) :: d1), d2. split; [now rewrite D|].
    intros v'. now rewrite S.
Qed.

Lemma set_absent {V} k (v : V) d :
  Py.get k d = None -> Py.set k v d = d ++ [(k, v)].
Proof.
  induction d as [|[k' v0] d IH]; [reflexivity|].
  cbn [Py.get Py.set]. destruct (String.eqb k k'); [discriminate|].
  intros G. now rewrite IH.
Qed.

(** The workers of the pool around the list of one jobtype. *)
Lemma pool_workers_split jt s ws :
  Py.get jt (worker_pool s) = Some ws ->
  exists a b,
    pool_workers s = a ++ ws ++ b
    /\ forall ws', flat_map snd (Py.set jt ws' (worker_pool s)) = a ++ ws' ++ b.
Proof.
  intros G. destruct (get_split jt (worker_pool s) ws G) as [d1 [d2 [D S]]].
  exists (flat_map snd d1), (flat_map snd d2). unfold pool_workers. split.
  - rewrite D, flat_map_app. reflexivity.
  - intros ws'. rewrite S, flat_map_app. reflexivity.
Qed.

Lemma pool_of_get jt s w :
  In w (pool_of jt s) -> Py.get jt (worker_pool s) = Some (pool_of jt s).
Proof.
  unfold pool_of. destruct (Py.get jt (worker_pool s)); [auto|intros []].
Qed.

Lemma pool_workers_with_key jt s : pool_workers (with_key jt s) = pool_workers s.
Proof.
  unfold with_key, pool_workers.
  destruct (Py.get jt (worker_pool s)) eqn:G; [reflexivity|].
  cbn [with_pool worker_pool]. rewrite (set_absent _ _ _ G), flat_map_app.
  cbn. now rewrite app_nil_r.
Qed.

Lemma get_with_key jt s :
  Py.get jt (worker_pool (with_key jt s)) = Some (pool_of jt (with_key jt s)).
Proof.
  unfold with_key, pool_of.
  destruct (Py.get jt (worker_pool s)) eqn:G.
  - now rewrite G.
  - cbn [with_pool worker_pool]. now rewrite get_set_same.
Qed.

(** ** Removing from a list without repetitions *)

Lemma remove_NoDup x (l : list Z) :
  NoDup l -> NoDup (Py.remove Z.eqb x l) /\ ~ In x (Py.remove Z.eqb x l).
Proof.
  induction l as [|y l IH]; intros ND; [split; [constructor|intros []]|].
  inversion ND as [|? ? Ny ND']; subst. cbn [Py.remove].
  destruct (Z.eqb x y) eqn:E.
  - apply Z.eqb_eq in E. subst y. now split.
  - apply Z.eqb_neq in E. destruct (IH ND') as [N1 N2]. split.
    + constructor; auto. intros I. apply Ny. now apply (remove_In _ _ _ _ I).
    + intros [I|I]; [now apply E|now apply N2].
Qed.

Lemma worker_split (w : Worker) ws :
  In w ws -> NoDup (map wid ws) ->
  exists p q, ws = p ++ w :: q /\ Py.remove worker_eqb w ws = p ++ q.
Proof.
  intros I ND. destruct (in_split _ _ I) as [p [q E]]. exists p, q.
  split; [exact E|]. subst ws. apply remove_middle.
  rewrite map_app in ND. cbn [map] in ND.
  apply NoDup_remove_2 in ND. intros K. apply ND. apply in_or_app. now left.
Qed.

(** ** The bookkeeping is kept *)

(** Joining a worker takes exactly that entry out of the pool. *)
Lemma joined_pool jt w s :
  NoDup (map wid (pool_workers s)) -> In w (pool_of jt s) ->
  exists l1 l2,
    pool_workers s = l1 ++ w :: l2
    /\ pool_workers (joined jt w s) = l1 ++ l2
    /\ forall x, In x (l1 ++ l2) -> wid x <> wid w.
Proof.
  intros ND I.
  destruct (pool_workers_split jt s _ (pool_of_get jt s w I)) as [a [b [E S]]].
  assert (NDws : NoDup (map wid (pool_of jt s))).
  { rewrite E, !map_app in ND.
    apply NoDup_app_remove_l in ND. now apply NoDup_app_remove_r in ND. }
  destruct (worker_split w _ I NDws) as [p [q [Eq Rm]]].
  exists (a ++ p), (q ++ b).
  assert (P0 : pool_workers s = (a ++ p) ++ w :: q ++ b).
  { rewrite E, Eq. now rewrite <- !app_assoc. }
  split; [exact P0|]. split.
  - unfold pool_workers, joined. cbn [worker_pool]. rewrite S, Rm.
    now rewrite <- !app_assoc.
  - intros x K Ew. rewrite P0, map_app in ND. cbn [map] in ND.
    apply NoDup_remove_2 in ND. apply ND. rewrite <- map_app, <- Ew.
    now apply in_map.
Qed.

Lemma consistent_joined jt w s :
  pool_consistent s -> In w (pool_of jt s) -> pool_consistent (joined jt w s).
Proof.
  intros [ND [Lt [NS Car]]] I.
  destruct (joined_pool jt w s ND I) as [l1 [l2 [P0 [P' Fr]]]].
  assert (Sub : forall x, In x (pool_workers (joined jt w s)) ->
                          In x (pool_workers s)).
  { intros x. rewrite P', P0. intros K. apply in_app_or in K.
    apply in_or_app. destruct K; [now left|right; now right]. }
  assert (Keep : forall x, In x (pool_workers s) -> x <> w ->
                           In x (pool_workers (joined jt w s))).
  { intros x. rewrite P', P0. intros K D. apply in_app_or in K.
    apply in_or_app. destruct K as [K|[K|K]]; auto. now elim D. }
  repeat split.
  - rewrite P'. rewrite P0 in ND. rewrite map_app in *. cbn [map] in ND.
    now apply NoDup_remove_1 in ND.
  - intros x K. apply Lt. now apply Sub.
  - cbn [joined stopping_workers].
    destruct (Py.mem (job_id (job w)) (stopping_workers s)); auto.
    exact (proj1 (remove_NoDup _ _ NS)).
  - intros id K. cbn [joined stopping_workers] in K.
    assert (K' : In id (stopping_workers s) /\ id <> job_id (job w)).
    { destruct (Py.mem (job_id (job w)) (stopping_workers s)) eqn:Mm.
      - split; [now apply (remove_In _ _ _ _ K)|].
        intros Eid. subst id. exact (proj2 (remove_NoDup _ _ NS) K).
      - split; [exact K|]. apply mem_false in Mm. intros Eid. subst id.
        now apply Mm. }
    destruct K' as [K1 K2]. destruct (Car id K1) as [x [Ix Ex]].
    exists x. split; [|exact Ex]. apply Keep; auto. intros Exw. subst x.
    now apply K2.
Qed.

Lemma consistent_reconciled known jt w s :
  pool_consistent s -> In w (pool_of jt s) ->
  pool_consistent (reconciled known jt w s).
Proof.
  intros C I. unfold reconciled.
  destruct (alive w (env s)); [|now apply consistent_joined].
  destruct (to_interrupt known w s) eqn:T; [|exact C].
  destruct C as [ND [Lt [NS Car]]].
  unfold to_interrupt in T. apply andb_true_iff in T. destruct T as [_ T].
  apply negb_true_iff, mem_false in T.
  repeat split; auto.
  - cbn [interrupted stopping_workers].
    apply NoDup_app; auto.
    + constructor; [intros []|constructor].
    + intros a Ia [Ea|[]]. subst a. now apply T.
  - intros id K. cbn [interrupted stopping_workers] in K.
    apply in_app_or in K. destruct K as [K|[K|[]]].
    + now apply Car.
    + exists w. split; [now apply (pool_of_workers jt)|exact K].
Qed.

Lemma started_pool wc j e' s x :
  In x (pool_workers (started wc j e' (with_key (job_jobtype j) s))) <->
  x = mkWorker (next_wid s) j (connect wc j) \/ In x (pool_workers s).
Proof.
  set (jt := job_jobtype j). set (s1 := with_key jt s).
  destruct (pool_workers_split jt s1 _ (get_with_key jt s)) as [a [b [E S]]].
  fold s1 in E, S.
  assert (E0 : pool_workers s = a ++ pool_of jt s1 ++ b)
    by now rewrite <- E; unfold s1; rewrite pool_workers_with_key.
  assert (Nw : next_wid s1 = next_wid s)
    by (unfold s1, with_key; now destruct (Py.get jt (worker_pool s))).
  unfold pool_workers at 1, started. cbn [worker_pool]. fold jt. rewrite S.
  rewrite E0, Nw. rewrite !in_app_iff. cbn [In]. intuition auto.
Qed.

Lemma consistent_started wc j e' s :
  pool_consistent s ->
  pool_consistent (started wc j e' (with_key (job_jobtype j) s)).
Proof.
  intros [ND [Lt [NS Car]]].
  set (jt := job_jobtype j). set (s1 := with_key jt s).
  destruct (pool_workers_split jt s1 _ (get_with_key jt s)) as [a [b [E S]]].
  fold s1 in E, S.
  assert (E0 : pool_workers s = a ++ pool_of jt s1 ++ b)
    by now rewrite <- E; unfold s1; rewrite pool_workers_with_key.
  assert (Nw : next_wid s1 = next_wid s)
    by (unfold s1, with_key; now destruct (Py.get jt (worker_pool s))).
  assert (St : stopping_workers s1 = stopping_workers s)
    by (unfold s1, with_key; now destruct (Py.get jt (worker_pool s))).
  set (w := mkWorker (next_wid s1) j (connect wc j)).
  assert (P' : pool_workers (started wc j e' s1)
               = (a ++ pool_of jt s1) ++ w :: b).
  { unfold pool_workers, started. cbn [worker_pool]. fold jt. rewrite S.
    now rewrite <- !app_assoc. }
  assert (Mem : forall x, In x (pool_workers (started wc j e' s1)) <->
                          x = w \/ In x (pool_workers s)).
  { intros x. rewrite P', E0, app_assoc. rewrite !in_app_iff. cbn [In].
    intuition auto. }
  repeat split.
  - rewrite P', map_app. cbn [map].
    apply (NoDup_Add (a := wid w) (l := map wid (a ++ pool_of jt s1) ++ map wid b)).
    + apply Add_app.
    + split.
      * rewrite <- map_app, <- app_assoc, <- E0. exact ND.
      * rewrite <- map_app, <- app_assoc, <- E0. intros K.
        apply in_map_iff in K. destruct K as [x [Ex Ix]].
        apply Lt in Ix. rewrite Ex in Ix. cbn in Ix. lia.
  - intros x K. apply Mem in K. cbn [started next_wid].
    destruct K as [->|K]; [cbn; lia|]. apply Lt in K. lia.
  - cbn [started stopping_workers]. now rewrite St.
  - intros id K. cbn [started stopping_workers] in K. rewrite St in K.
    destruct (Car id K) as [x [Ix Ex]]. exists x. split; [|exact Ex].
    apply Mem. now right.
Qed.

Lemma consistent_with_key jt s :
  pool_consistent s -> pool_consistent (with_key jt s).
Proof.
  intros [ND [Lt [NS Car]]].
  assert (Nw : next_wid (with_key jt s) = next_wid s)
    by (unfold with_key; now destruct (Py.get jt (worker_pool s))).
  assert (St : stopping_workers (with_key jt s) = stopping_workers s)
    by (unfold with_key; now destruct (Py.get jt (worker_pool s))).
  unfold pool_consistent. rewrite pool_workers_with_key, Nw, St. auto.
Qed.

Lemma consistent_assigned all_modules j s :
  pool_consistent s -> pool_consistent (assigned all_modules j s).
Proof.
  intros C.
  destruct (assigned_cases all_modules j s)
    as [E|[E|[_ [wc [_ [_ [E|[e' [_ E]]]]]]]]]; rewrite E; auto.
  - now apply consistent_with_key.
  - apply (consistent_with_key (job_jobtype j)) in C. exact C.
  - now apply consistent_started.
Qed.

Lemma consistent_delegate all_modules s :
  pool_consistent s ->
  pool_consistent (exec (WorkerManager.delegate all_modules) s).
Proof.
  intros C. apply delegate_inv; auto.
  - intros jt w s' C' _ I. now apply consistent_reconciled.
  - intros j s' C' _. now apply consistent_assigned.
Qed.

(** X2.  Every tick keeps the bookkeeping of the pool in order: no worker
    object is in the pool twice, the stopping list holds no job id twice,
    and every id in the stopping list is the job id of a worker that is
    still in the pool, so the list cannot gather ids of workers that are
    gone.  This holds throughout the run of a manager that starts with an
    empty pool. *)
Theorem delegate_keeps_pool_consistent all_modules s :
  pool_consistent s ->
  pool_consistent (exec (WorkerManager.delegate all_modules) s)
  /\ (forall n, pool_consistent (exec (WorkerManager.ticks all_modules n) s))
  /\ (forall e moves n,
        pool_consistent
          (exec (WorkerManager.ticks all_modules n) (fresh_manager e moves))).
Proof.
  intros C. split; [now apply consistent_delegate|]. split.
  - intros n. apply ticks_inv; [|exact C].
    intros s0 C0. now apply consistent_delegate.
  - intros e moves n. apply ticks_inv.
    + intros s0 C0. now apply consistent_delegate.
    + unfold pool_consistent, fresh_manager, pool_workers. cbn.
      split; [constructor|]. split; [intros ? []|].
      split; [constructor|intros ? []].
Qed.

(** ** The life of a worker object *)

Lemma life_snoc tr ev : life (tr ++ [ev]) = life_step (life tr) ev.
Proof. unfold life. now rewrite fold_left_app. Qed.

Lemma existsb_nat v l : existsb (Nat.eqb v) l = true <-> In v l.
Proof.
  rewrite existsb_exists. split.
  - intros [x [I E]]. apply Nat.eqb_eq in E. now subst x.
  - intros I. exists v. split; [exact I|apply Nat.eqb_refl].
Qed.

Lemma existsb_nat_false v l : existsb (Nat.eqb v) l = false <-> ~ In v l.
Proof.
  rewrite <- existsb_nat. destruct (existsb (Nat.eqb v) l); split; auto.
  - discriminate.
  - intros K. now elim K.
Qed.

Lemma running_pool st jn v :
  In v st -> ~ In v jn ->
  existsb (Nat.eqb v) st && negb (existsb (Nat.eqb v) jn) = true.
Proof.
  intros A B. apply existsb_nat in A. apply existsb_nat_false in B.
  now rewrite A, B.
Qed.

Lemma life_reconciled known jt w s :
  pool_consistent s -> life_inv s -> In w (pool_of jt s) ->
  life_inv (reconciled known jt w s).
Proof.
  intros C [ND [st [jn [L [St [Jn Pw]]]]]] I.
  assert (Iw := pool_of_workers jt w s I).
  destruct (Pw w Iw) as [W1 W2].
  assert (Run := running_pool st jn (wid w) W1 W2).
  unfold reconciled. destruct (alive w (env s)).
  - destruct (to_interrupt known w s).
    + split; [exact ND|]. exists st, jn. cbn [interrupted trace].
      rewrite life_snoc, L. cbn [life_step]. rewrite Run. auto.
    + split; [exact ND|]. exists st, jn. auto.
  - destruct (joined_pool jt w s ND I) as [l1 [l2 [P0 [P' Fr]]]].
    split.
    { rewrite P'. rewrite P0, map_app in ND. cbn [map] in ND.
      apply NoDup_remove_1 in ND. now rewrite map_app. }
    exists st, (wid w :: jn). cbn [joined trace].
    rewrite life_snoc, L. cbn [life_step]. rewrite Run.
    split; [reflexivity|]. split; [exact St|]. split.
    + intros v [<-|K]; auto.
    + intros x K. rewrite P' in K.
      assert (Ix : In x (pool_workers s)).
      { rewrite P0. apply in_app_or in K. apply in_or_app.
        destruct K; [now left|right; now right]. }
      destruct (Pw x Ix) as [X1 X2]. split; [exact X1|].
      intros [E|J]; [|now apply X2]. now apply (Fr x K).
Qed.

Lemma life_with_key jt s : life_inv s -> life_inv (with_key jt s).
Proof.
  intros [ND H].
  assert (Nw : next_wid (with_key jt s) = next_wid s)
    by (unfold with_key; now destruct (Py.get jt (worker_pool s))).
  assert (Tr : trace (with_key jt s) = trace s)
    by (unfold with_key; now destruct (Py.get jt (worker_pool s))).
  unfold life_inv. now rewrite pool_workers_with_key, Nw, Tr.
Qed.

Lemma life_assigned all_modules j s :
  pool_consistent s -> life_inv s -> life_inv (assigned all_modules j s).
Proof.
  intros C H.
  destruct (assigned_cases all_modules j s)
    as [E|[E|[_ [wc [_ [_ [E|[e' [_ E]]]]]]]]]; rewrite E; auto.
  - now apply life_with_key.
  - apply (life_with_key (job_jobtype j)) in H.
    destruct H as [ND [st [jn [L [St [Jn Pw]]]]]].
    split; [exact ND|]. exists st, jn. cbn [claim_lost trace].
    rewrite life_snoc, L. auto.
  - assert (C1 := consistent_started wc j e' s C).
    destruct C1 as [ND1 _]. split; [exact ND1|].
    destruct H as [ND [st [jn [L [St [Jn Pw]]]]]].
    assert (Nw : next_wid (with_key (job_jobtype j) s) = next_wid s)
      by (unfold with_key; now destruct (Py.get _ (worker_pool s))).
    assert (Tr : trace (with_key (job_jobtype j) s) = trace s)
      by (unfold with_key; now destruct (Py.get _ (worker_pool s))).
    exists (next_wid s :: st), jn. cbn [started trace next_wid].
    rewrite Nw, Tr.
    change (trace s ++ [EvClaim j; EvStart (next_wid s)])
      with (trace s ++ [EvClaim j] ++ [EvStart (next_wid s)]).
    rewrite app_assoc, !life_snoc, L. cbn [life_step].
    assert (F : existsb (Nat.eqb (next_wid s)) st = false).
    { apply existsb_nat_false. intros K. apply St in K. lia. }
    rewrite F. split; [reflexivity|]. split.
    { intros v [<-|K]; [lia|]. apply St in K. lia. }
    split.
    { intros v K. apply Jn in K. lia. }
    intros x K. apply started_pool in K. destruct K as [->|K].
    + cbn [wid]. split; [now left|]. intros K. apply Jn in K. lia.
    + destruct (Pw x K) as [X1 X2]. split; [now right|exact X2].
Qed.

Lemma life_delegate all_modules s :
  pool_consistent s -> life_inv s ->
  life_inv (exec (WorkerManager.delegate all_modules) s).
Proof.
  intros C H.
  apply (delegate_inv (fun s' => pool_consistent s' /\ life_inv s')); auto.
  - intros jt w s' [C' H'] _ I. split.
    + now apply consistent_reconciled.
    + now apply life_reconciled.
  - intros j s' [C' H'] _. split.
    + now apply consistent_assigned.
    + now apply life_assigned.
  - intros s' move rest [C' [ND [st [jn [L [St [Jn Pw]]]]]]]. split; [exact C'|].
    split; [exact ND|]. exists st, jn. cbn [slept trace].
    rewrite life_snoc, L. auto.
Qed.

Lemma life_fresh e moves :
  pool_consistent (fresh_manager e moves) /\ life_inv (fresh_manager e moves).
Proof.
  split.
  - unfold pool_consistent, fresh_manager, pool_workers. cbn.
    split; [constructor|]. split; [intros ? []|].
    split; [constructor|intros ? []].
  - split; [constructor|]. exists [], []. unfold pool_workers. cbn.
    split; [reflexivity|]. split; [intros ? []|].
    split; [intros ? []|intros ? []].
Qed.

Lemma life_ticks all_modules e moves n :
  life_inv (exec (WorkerManager.ticks all_modules n) (fresh_manager e moves)).
Proof.
  apply (ticks_inv (fun s => pool_consistent s /\ life_inv s)).
  - intros s [C H]. split.
    + now apply consistent_delegate.
    + now apply life_delegate.
  - apply life_fresh.
Qed.

(** Reading the life off a trace. *)
Lemma life_started_joined :
  forall tr st jn,
    life tr = Some (st, jn) ->
    forall v, (In v st <-> In (EvStart v) tr) /\ (In v jn <-> In (EvJoin v) tr).
Proof.
  intros tr. induction tr as [|ev tr IH] using rev_ind; intros st jn L v.
  - cbn in L. inversion L; subst. cbn. tauto.
  - rewrite life_snoc in L. destruct (life tr) as [[st0 jn0]|]; [|discriminate].
    destruct (IH st0 jn0 eq_refl v) as [A B].
    rewrite !in_app_iff. cbn [In].
    destruct ev; cbn [life_step] in L.
    + destruct (_ && _); [|discriminate]. inversion L; subst. cbn [In].
      split; [rewrite A|rewrite <- B]; intuition (try discriminate; try congruence).
    + destruct (_ && _); [|discriminate]. inversion L; subst.
      split; [rewrite A|rewrite B]; intuition (try discriminate).
    + destruct (existsb _ st0); [discriminate|]. inversion L; subst. cbn [In].
      split; [rewrite <- A|rewrite B]; intuition (try discriminate; try congruence).
    + inversion L; subst. split; [rewrite A|rewrite B]; intuition (try discriminate).
    + inversion L; subst. split; [rewrite A|rewrite B]; intuition (try discriminate).
    + inversion L; subst. split; [rewrite A|rewrite B]; intuition (try discriminate).
    + inversion L; subst. split; [rewrite A|rewrite B]; intuition (try discriminate).
    + inversion L; subst. split; [rewrite A|rewrite B]; intuition (try discriminate).
Qed.

Lemma life_prefix pre post :
  life (pre ++ post) <> None -> life pre <> None.
Proof.
  unfold life. rewrite fold_left_app. intros H K. apply H. rewrite K.
  clear. induction post as [|ev post IH]; auto.
Qed.

(** X3.  Over any number of ticks of a manager that starts with an empty
    pool, the calls made on a worker object follow the life of a thread:
    an object is started once; a join or an interrupt request on it comes
    after its start and before any join of it.  So no worker is joined
    twice, and none is asked to interrupt once it was joined. *)
Theorem worker_calls_follow_thread_life all_modules e moves n :
  let tr := trace (exec (WorkerManager.ticks all_modules n)
                        (fresh_manager e moves)) in
  forall pre ev post,
    tr = pre ++ ev :: post ->
    match ev with
    | EvStart v => ~ In (EvStart v) pre
    | EvJoin v | EvInterrupt v _ => In (EvStart v) pre /\ ~ In (EvJoin v) pre
    | _ => True
    end.
Proof.
  intros tr pre ev post E.
  destruct (life_ticks all_modules e moves n) as [_ [st [jn [L _]]]].
  fold tr in L. rewrite E in L.
  assert (L1 : life ((pre ++ [ev]) ++ post) <> None)
    by (rewrite <- app_assoc; cbn; congruence).
  apply life_prefix in L1. rewrite life_snoc in L1.
  destruct (life pre) as [[st0 jn0]|] eqn:L0; [|now elim L1].
  assert (R := life_started_joined pre st0 jn0 L0).
  destruct ev; auto; cbn [life_step] in L1.
  - destruct (existsb (Nat.eqb w) st0 && negb (existsb (Nat.eqb w) jn0)) eqn:Q;
      [|now elim L1].
    apply andb_true_iff in Q. destruct Q as [Q1 Q2].
    apply existsb_nat in Q1. apply negb_true_iff, existsb_nat_false in Q2.
    destruct (R w) as [A B]. split; [now apply A|]. intros K. apply Q2. now apply B.
  - destruct (existsb (Nat.eqb w) st0 && negb (existsb (Nat.eqb w) jn0)) eqn:Q;
      [|now elim L1].
    apply andb_true_iff in Q. destruct Q as [Q1 Q2].
    apply existsb_nat in Q1. apply negb_true_iff, existsb_nat_false in Q2.
    destruct (R w) as [A B]. split; [now apply A|]. intros K. apply Q2. now apply B.
  - destruct (existsb (Nat.eqb w) st0) eqn:Q; [now elim L1|].
    apply existsb_nat_false in Q. destruct (R w) as [A B].
    intros K. apply Q. now apply A.
Qed.

(** ** The two passes of a tick *)

(** A tick takes [P1] to [P2] when the reconciliation pass keeps [P1], the
    assignment pass and the sleep keep [P2], and [P1] gives [P2] in
    between. *)
Lemma delegate_phases (P1 P2 : State -> Prop) all_modules s :
  P1 s ->
  (forall jt w s', P1 s' -> env s' = env s -> In w (pool_of jt s') ->
                   P1 (reconciled (map job_id (rows (env s))) jt w s')) ->
  (forall s', P1 s' -> env s' = env s -> P2 s') ->
  (forall j s', P2 s' -> In j (rows (env s)) -> P2 (assigned all_modules j s')) ->
  (forall s' move rest, P2 s' -> P2 (slept 1000 move rest s')) ->
  exists s1,
    tick_work all_modules s = (Ok tt, s1) /\ P2 s1
    /\ P2 (exec (WorkerManager.delegate all_modules) s).
Proof.
  intros H Rec Mid Asg Slp.
  assert (W : exists s1, tick_work all_modules s = (Ok tt, s1) /\ P2 s1).
  { unfold tick_work.
    assert (G : on_env (Queue.get_all_jobs None None false) s
                = (Ok (rows (env s)), s)).
    { unfold on_env. rewrite snapshot_all. now rewrite with_env_same. }
    rewrite (bind_ok _ _ _ _ _ G). unfold bind at 1, gets at 1.
    destruct (reconcile_all_inv (fun s' => P1 s' /\ env s' = env s)
                (map job_id (rows (env s)))) with (jts := Py.keys (worker_pool s))
                (s := s) as [s1 [R [H1 E1]]].
    { intros jt w s' [H' E'] I. split; [now apply Rec|].
      now rewrite reconciled_env. }
    { now split. }
    rewrite (bind_ok _ _ _ _ _ R).
    apply assign_all_inv; auto. }
  destruct W as [s1 [W H1]]. exists s1. split; [exact W|]. split; [exact H1|].
  unfold exec. rewrite delegate_split, (bind_ok _ _ _ _ _ W).
  unfold time_sleep. destruct (sched s1) as [|move rest]; simpl; auto.
  now apply Slp.
Qed.

Lemma remove_other_worker (x y : Worker) xs :
  In y xs -> wid y <> wid x -> In y (Py.remove worker_eqb x xs).
Proof.
  induction xs as [|z zs IH]; [intros []|]. cbn [Py.remove].
  intros [->|I] D.
  - unfold worker_eqb at 1. destruct (Nat.eqb (wid x) (wid y)) eqn:E.
    + apply Nat.eqb_eq in E. now elim D.
    + now left.
  - destruct (worker_eqb x z); [exact I|]. right. now apply IH.
Qed.

Lemma tick_calls_app s evs1 evs2 :
  tick_calls s evs1 -> tick_calls s evs2 -> tick_calls s (evs1 ++ evs2).
Proof.
  intros [J1 I1] [J2 I2]. split.
  - intros v K. apply in_app_or in K. destruct K; auto.
  - intros v l K. apply in_app_or in K. destruct K; auto.
Qed.

Lemma tick_calls_none s evs :
  (forall ev, In ev evs ->
              match ev with
              | EvJoin _ | EvInterrupt _ _ => False
              | _ => True
              end) ->
  tick_calls s evs.
Proof.
  intros H. split.
  - intros v K. now apply H in K.
  - intros v l K. now apply H in K.
Qed.

(** X1.  A tick takes no running worker out of the pool.  The workers it
    joins were in the pool and not running when the tick began; the
    workers it asks to interrupt were in the pool and running then, their
    job was not in the table, and the request carries no level. *)
Theorem delegate_spares_running_workers all_modules s :
  let s' := exec (WorkerManager.delegate all_modules) s in
  (forall jt w, In w (pool_of jt s) -> alive w (env s) = true ->
                In w (pool_of jt s'))
  /\ exists evs,
       trace s' = trace s ++ evs
       /\ (forall v, In (EvJoin v) evs ->
                     exists jt w, In w (pool_of jt s) /\ wid w = v
                                  /\ alive w (env s) = false)
       /\ (forall v l, In (EvInterrupt v l) evs ->
                       l = None
                       /\ exists jt w,
                            In w (pool_of jt s) /\ wid w = v
                            /\ alive w (env s) = true
                            /\ ~ In (job_id (job w))
                                    (map job_id (rows (env s)))).
Proof.
  set (Keep := fun s' : State =>
                 forall jt w, In w (pool_of jt s) -> alive w (env s) = true ->
                              In w (pool_of jt s')).
  set (Calls := fun s' : State =>
                  exists evs, trace s' = trace s ++ evs /\ tick_calls s evs).
  set (P1 := fun s' : State =>
               Keep s' /\ Calls s'
               /\ forall jt w, In w (pool_of jt s') -> In w (pool_of jt s)).
  set (P2 := fun s' : State => Keep s' /\ Calls s').
  destruct (delegate_phases P1 P2 all_modules s) as [_ [_ [_ [K C]]]].
  - split; [|split]; [intros jt w I _; exact I| |auto].
    exists []. split; [now rewrite app_nil_r|]. apply tick_calls_none.
    intros ev [].
  - intros jt w s' [K [[evs [T C]] Sub]] E I. unfold reconciled. rewrite E.
    destruct (alive w (env s)) eqn:Al.
    + destruct (to_interrupt _ w s') eqn:Ti.
      * split; [|split]; [exact K| |exact Sub].
        exists (evs ++ [EvInterrupt (wid w) None]). cbn [interrupted trace].
        split; [now rewrite T, app_assoc|]. apply tick_calls_app; [exact C|].
        split; [intros v [Q|[]]; discriminate|].
        intros v l [Q|[]]. inversion Q; subst v l. split; [reflexivity|].
        exists jt, w. split; [now apply Sub|]. split; [reflexivity|].
        split; [exact Al|]. unfold to_interrupt in Ti.
        apply andb_true_iff in Ti. destruct Ti as [Ti _].
        now apply negb_true_iff, mem_false in Ti.
      * split; [|split]; [exact K|now exists evs|exact Sub].
    + split; [|split].
      * intros jt0 w0 I0 A0. rewrite pool_of_joined.
        destruct (String.eqb jt0 jt) eqn:Ej; [|now apply K].
        apply String.eqb_eq in Ej. subst jt0. apply remove_other_worker.
        -- now apply K.
        -- intros Ew. unfold alive in *. rewrite Ew in A0. congruence.
      * exists (evs ++ [EvJoin (wid w)]). cbn [joined trace].
        split; [now rewrite T, app_assoc|]. apply tick_calls_app; [exact C|].
        split; [|intros v l [Q|[]]; discriminate].
        intros v [Q|[]]. inversion Q; subst v. exists jt, w.
        split; [now apply Sub|]. split; [reflexivity|exact Al].
      * intros jt0 w0. rewrite pool_of_joined.
        destruct (String.eqb jt0 jt) eqn:Ej; [|now apply Sub].
        apply String.eqb_eq in Ej. subst jt0. intros Q.
        apply Sub. now apply (remove_In _ _ _ _ Q).
  - intros s' [K [C _]] _. now split.
  - intros j s' [K [evs [T C]]] _.
    assert (Kk : Keep (with_key (job_jobtype j) s')).
    { intros jt w I A. rewrite pool_of_with_key. now apply K. }
    assert (Tk : trace (with_key (job_jobtype j) s') = trace s').
    { unfold with_key. now destruct (Py.get _ (worker_pool s')). }
    destruct (assigned_cases all_modules j s')
      as [E|[E|[_ [wc [_ [_ [E|[e' [_ E]]]]]]]]]; rewrite E.
    + split; [exact K|now exists evs].
    + split; [exact Kk|]. exists evs. now rewrite Tk.
    + split; [exact Kk|]. exists (evs ++ [EvClaim j]). cbn [claim_lost trace].
      split; [now rewrite Tk, T, app_assoc|]. apply tick_calls_app; [exact C|].
      apply tick_calls_none. intros ev [<-|[]]. exact I.
    + split.
      * intros jt w I A. rewrite pool_of_started.
        destruct (String.eqb jt (job_jobtype j)) eqn:Ej; [|now apply Kk].
        apply String.eqb_eq in Ej. subst jt. apply in_or_app. left.
        now apply Kk.
      * exists (evs ++ [EvClaim j; EvStart (next_wid (with_key (job_jobtype j) s'))]).
        cbn [started trace].
        split; [now rewrite Tk, T, app_assoc|]. apply tick_calls_app; [exact C|].
        apply tick_calls_none. intros ev [<-|[<-|[]]]; exact I.
  - intros s' move rest [K [evs [T C]]]. split; [exact K|].
    exists (evs ++ [EvSleep 1000]). cbn [slept trace].
    split; [now rewrite T, app_assoc|]. apply tick_calls_app; [exact C|].
    apply tick_calls_none. intros ev [<-|[]]. exact I.
  - intros s'. split; [exact K|]. destruct C as [evs [T [J I]]].
    exists evs. auto.
Qed.

(** ** Traces only grow *)

Lemma reconciled_trace known jt w s :
  exists evs, trace (reconciled known jt w s) = trace s ++ evs.
Proof.
  unfold reconciled. destruct (alive w (env s)).
  - destruct (to_interrupt known w s).
    + now exists [EvInterrupt (wid w) None].
    + exists []. now rewrite app_nil_r.
  - now exists [EvJoin (wid w)].
Qed.

Lemma assigned_trace all_modules j s :
  exists evs, trace (assigned all_modules j s) = trace s ++ evs.
Proof.
  assert (Tk : trace (with_key (job_jobtype j) s) = trace s).
  { unfold with_key. now destruct (Py.get _ (worker_pool s)). }
  destruct (assigned_cases all_modules j s)
    as [E|[E|[_ [wc [_ [_ [E|[e' [_ E]]]]]]]]]; rewrite E.
  - exists []. now rewrite app_nil_r.
  - exists []. now rewrite Tk, app_nil_r.
  - exists [EvClaim j]. cbn [claim_lost trace]. now rewrite Tk.
  - eexists. cbn [started trace]. now rewrite Tk.
Qed.

Lemma delegate_trace_incl all_modules ev s :
  In ev (trace s) -> In ev (trace (exec (WorkerManager.delegate all_modules) s)).
Proof.
  intros H. apply delegate_inv; auto.
  - intros jt w s' I _ _. destruct (reconciled_trace (map job_id (rows (env s))) jt w s')
      as [evs ->]. apply in_or_app. now left.
  - intros j s' I _. destruct (assigned_trace all_modules j s') as [evs ->].
    apply in_or_app. now left.
  - intros s' move rest I. cbn [slept trace]. apply in_or_app. now left.
Qed.

Lemma ticks_trace_incl all_modules ev n s :
  In ev (trace s) -> In ev (trace (exec (WorkerManager.ticks all_modules n) s)).
Proof.
  intros H. apply (ticks_inv (fun s' => In ev (trace s'))); auto.
  intros s' I. now apply delegate_trace_incl.
Qed.

(** ** A tick and the schedule *)

Lemma tick_work_sched all_modules s :
  exists s1, tick_work all_modules s = (Ok tt, s1) /\ sched s1 = sched s.
Proof.
  apply (tick_work_inv (fun s' => sched s' = sched s)); auto.
  - intros jt w s' E _ _. rewrite <- E. unfold reconciled.
    destruct (alive w (env s')); [destruct (to_interrupt _ w s')|]; reflexivity.
  - intros j s' E _. rewrite <- E.
    assert (Sk : sched (with_key (job_jobtype j) s') = sched s').
    { unfold with_key. now destruct (Py.get _ (worker_pool s')). }
    destruct (assigned_cases all_modules j s')
      as [Q|[Q|[_ [wc [_ [_ [Q|[e' [_ Q]]]]]]]]]; rewrite Q; auto.
Qed.

(** With a move left in the schedule a tick completes and uses one move
    up; the next ticks go on from the state it leaves. *)
Lemma ticks_succ all_modules n s :
  sched s <> [] ->
  outcome (WorkerManager.delegate all_modules) s = Ok tt
  /\ length (sched (exec (WorkerManager.delegate all_modules) s))
     = pred (length (sched s))
  /\ exec (WorkerManager.ticks all_modules (S n)) s
     = exec (WorkerManager.ticks all_modules n)
            (exec (WorkerManager.delegate all_modules) s).
Proof.
  intros H. destruct (tick_work_sched all_modules s) as [s1 [W Sc]].
  assert (D : exists s2, WorkerManager.delegate all_modules s = (Ok tt, s2)
                         /\ length (sched s2) = pred (length (sched s))).
  { rewrite delegate_split, (bind_ok _ _ _ _ _ W). unfold time_sleep.
    rewrite Sc. destruct (sched s) as [|move rest]; [now elim H|].
    eexists. split; [reflexivity|]. reflexivity. }
  destruct D as [s2 [D L]]. unfold outcome, exec.
  cbn [WorkerManager.ticks]. rewrite (bind_ok _ _ _ _ _ D), D. auto.
Qed.

(** Without one, the tick does its work and stays asleep. *)
Lemma ticks_blocked all_modules n s :
  sched s = [] ->
  exec (WorkerManager.ticks all_modules (S n)) s
  = exec (WorkerManager.delegate all_modules) s.
Proof.
  intros H. destruct (tick_work_sched all_modules s) as [s1 [W Sc]].
  assert (D : WorkerManager.delegate all_modules s = (Blocked, s1)).
  { rewrite delegate_split, (bind_ok _ _ _ _ _ W). unfold time_sleep.
    now rewrite Sc, H. }
  unfold exec. cbn [WorkerManager.ticks]. now rewrite (bind_blocked _ _ _ _ D), D.
Qed.

(** ** A stopped worker is joined in the end *)

Lemma remove_NoDup_wid (x : Worker) xs :
  NoDup (map wid xs) -> NoDup (map wid (Py.remove worker_eqb x xs)).
Proof.
  induction xs as [|y ys IH]; intros ND; [constructor|].
  cbn [map] in ND. inversion ND as [|? ? Ny ND']; subst. cbn [Py.remove].
  destruct (worker_eqb x y); [exact ND'|]. cbn [map]. constructor; auto.
  intros K. apply Ny. apply in_map_iff in K. destruct K as [z [Ez Iz]].
  rewrite <- Ez. apply in_map. now apply (remove_In _ _ _ _ Iz).
Qed.

Lemma pool_of_reconciled_other known jt jt' w s :
  jt <> jt' -> pool_of jt (reconciled known jt' w s) = pool_of jt s.
Proof.
  intros D. unfold reconciled.
  destruct (alive w (env s)); [destruct (to_interrupt known w s); reflexivity|].
  rewrite pool_of_joined. apply String.eqb_neq in D. now rewrite D.
Qed.

Lemma NoDup_reconciled known jt jt' w s :
  NoDup (map wid (pool_of jt s)) ->
  NoDup (map wid (pool_of jt (reconciled known jt' w s))).
Proof.
  intros ND. unfold reconciled.
  destruct (alive w (env s)); [destruct (to_interrupt known w s); exact ND|].
  rewrite pool_of_joined. destruct (String.eqb jt jt') eqn:E; [|exact ND].
  apply String.eqb_eq in E. subst jt'. now apply remove_NoDup_wid.
Qed.

Section Joined.

Variable wk : Worker.
Variable known : list Z.
Variable jt : string.
Variable e : Env.
Hypothesis wk_stopped : alive wk e = false.

Lemma nearer_le p q s : p <= q -> nearer wk jt e p s -> nearer wk jt e q s.
Proof.
  intros L [E [ND [J|[pre [post [P B]]]]]]; split; auto; split; auto.
  right. exists pre, post. split; [exact P|lia].
Qed.

Lemma joined_reconciled jt' w s :
  In (EvJoin (wid wk)) (trace s) ->
  In (EvJoin (wid wk)) (trace (reconciled known jt' w s)).
Proof.
  intros I. destruct (reconciled_trace known jt' w s) as [evs ->].
  apply in_or_app. now left.
Qed.

(** Once [wk] is joined, the rest of a pass changes nothing of that. *)
Lemma reconcile_from_joined jt' fuel i s :
  env s = e -> NoDup (map wid (pool_of jt s)) ->
  In (EvJoin (wid wk)) (trace s) ->
  exists s',
    WorkerManager.reconcile_from fuel i known jt' s = (Ok tt, s')
    /\ nearer wk jt e 0 s'.
Proof.
  intros E ND J.
  destruct (reconcile_from_inv
              (fun s' => env s' = e /\ NoDup (map wid (pool_of jt s'))
                         /\ In (EvJoin (wid wk)) (trace s'))
              known jt') with (fuel := fuel) (i := i) (s := s)
    as [s' [R [E' [ND' J']]]]; auto.
  { intros w s0 [E0 [ND0 J0]] I. split; [now rewrite reconciled_env|].
    split; [now apply NoDup_reconciled|now apply joined_reconciled]. }
  exists s'. split; [exact R|]. split; auto.
Qed.

(** The pass over the list of [jt], from index [i], with [wk] still ahead:
    [wk] is joined, or it ends up nearer to the head of the list. *)
Lemma reconcile_from_nearer :
  forall fuel i s pre post,
    env s = e ->
    pool_of jt s = pre ++ wk :: post ->
    NoDup (map wid (pool_of jt s)) ->
    i <= length pre -> length pre - i < fuel ->
    exists s',
      WorkerManager.reconcile_from fuel i known jt s = (Ok tt, s')
      /\ nearer wk jt e (length pre) s'.
Proof.
  induction fuel as [|fuel IH]; intros i s pre post E P ND Li Lf; [lia|].
  rewrite reconcile_from_eq.
  destruct (Nat.eq_dec i (length pre)) as [Ei|Ni].
  - (* the pass meets the worker *)
    subst i. rewrite P, nth_error_app2, Nat.sub_diag by lia. cbn [nth_error].
    unfold reconciled. rewrite E, wk_stopped.
    destruct (reconcile_from_joined jt fuel (S (length pre)) (joined jt wk s))
      as [s' [R N]]; auto.
    + rewrite pool_of_joined, String.eqb_refl. now apply remove_NoDup_wid.
    + cbn [joined trace]. apply in_or_app. right. now left.
    + exists s'. split; [exact R|]. apply (nearer_le 0); [lia|exact N].
  - (* a worker ahead of it *)
    assert (Lt : i < length pre) by lia.
    destruct (nth_error pre i) as [x|] eqn:Nx;
      [|apply nth_error_None in Nx; lia].
    rewrite P, nth_error_app1, Nx by exact Lt.
    destruct (nth_error_split _ _ Nx) as [a [b [Ep La]]].
    unfold reconciled. rewrite E.
    destruct (alive x e) eqn:Ax.
    + (* running: the pool stays as it is *)
      assert (G : forall s1, env s1 = e -> pool_of jt s1 = pool_of jt s ->
                  exists s',
                    WorkerManager.reconcile_from fuel (S i) known jt s1 = (Ok tt, s')
                    /\ nearer wk jt e (length pre) s').
      { intros s1 E1 P1. apply (IH (S i) s1 pre post); auto; try lia.
        - now rewrite P1.
        - now rewrite P1. }
      destruct (to_interrupt known x s); apply G; auto.
    + (* stopped: it is removed, and the rest moves up *)
      assert (Na : ~ In (wid x) (map wid a)).
      { rewrite P, Ep, <- app_assoc, map_app in ND. cbn [app map] in ND.
        apply NoDup_remove_2 in ND. intros K. apply ND. apply in_or_app.
        now left. }
      assert (Pj : pool_of jt (joined jt x s) = (a ++ b) ++ wk :: post).
      { rewrite pool_of_joined, String.eqb_refl, P, Ep, <- !app_assoc.
        cbn [app]. now apply remove_middle. }
      assert (NDj : NoDup (map wid (pool_of jt (joined jt x s)))).
      { rewrite pool_of_joined, String.eqb_refl. now apply remove_NoDup_wid. }
      assert (Lp : length pre = S (length (a ++ b))).
      { rewrite Ep, !length_app. cbn [List.length]. lia. }
      destruct b as [|y b].
      * (* the worker was next: the pass goes past it *)
        rewrite app_nil_r in *.
        assert (Pj' : pool_of jt (joined jt x s) = (a ++ [wk]) ++ post)
          by now rewrite Pj, <- app_assoc.
        assert (NDj' : NoDup (map wid ((a ++ [wk]) ++ post)))
          by now rewrite <- Pj'.
        destruct (reconcile_from_tail known jt fuel (a ++ [wk]) post
                    (joined jt x s) Pj' NDj')
          as [s' [B' [evs [R [Ps [_ _]]]]]].
        rewrite length_app in R. cbn [List.length] in R.
        replace (length a + 1) with (S i) in R by lia.
        destruct (reconcile_from_inv
                    (fun s' => env s' = e /\ NoDup (map wid (pool_of jt s')))
                    known jt) with (fuel := fuel) (i := S i)
                                   (s := joined jt x s)
          as [s2 [R2 [E2 ND2]]]; auto.
        { intros w s0 [E0 ND0] I. split; [now rewrite reconciled_env|].
          now apply NoDup_reconciled. }
        rewrite R in R2. inversion R2; subst s2.
        exists s'. split; [exact R|]. split; [exact E2|]. split; [exact ND2|].
        right. exists a, B'. split; [now rewrite Ps, <- app_assoc|lia].
      * destruct (IH (S i) (joined jt x s) (a ++ y :: b) post) as [s' [R N]];
          auto.
        -- rewrite length_app. cbn [List.length]. lia.
        -- lia.
        -- exists s'. split; [exact R|]. apply (nearer_le (length (a ++ y :: b))); [lia|exact N].
Qed.

(** A whole pass over some list keeps [wk] as near; the pass over the list
    of [jt] brings it nearer. *)
Lemma reconcile_pool_nearer p jt' s :
  nearer wk jt e p s ->
  exists s',
    WorkerManager.reconcile_pool known jt' s = (Ok tt, s')
    /\ nearer wk jt e p s' /\ (jt' = jt -> nearer wk jt e (pred p) s').
Proof.
  intros N. unfold WorkerManager.reconcile_pool, bind at 1, gets at 1.
  destruct (string_dec jt' jt) as [Ej|Nj].
  - subst jt'. destruct N as [E [ND [J|[pre [post [P B]]]]]].
    + destruct (reconcile_from_joined jt (length (pool_of jt s)) 0 s E ND J)
        as [s' [R N0]].
      exists s'. split; [exact R|].
      split; [|intros _]; apply (nearer_le 0); auto; lia.
    + destruct (reconcile_from_nearer (length (pool_of jt s)) 0 s pre post)
        as [s' [R N']]; auto; try lia.
      { rewrite P, length_app. cbn [List.length]. lia. }
      exists s'. split; [exact R|].
      split; [|intros _]; apply (nearer_le (length pre)); auto; lia.
  - destruct (reconcile_from_inv (nearer wk jt e p) known jt')
      with (fuel := length (pool_of jt' s)) (i := 0) (s := s)
      as [s' [R N']]; auto.
    { intros w s0 [E0 [ND0 H0]] I. split; [now rewrite reconciled_env|].
      split; [now apply NoDup_reconciled|].
      destruct H0 as [J|[pre [post [P B]]]].
      - left. now apply joined_reconciled.
      - right. exists pre, post.
        rewrite pool_of_reconciled_other by congruence. auto. }
    exists s'. split; [exact R|]. split; [exact N'|]. intros K. now elim Nj.
Qed.

Lemma reconcile_all_nearer :
  forall jts p s,
    nearer wk jt e p s ->
    exists s',
      for_each jts (WorkerManager.reconcile_pool known) s = (Ok tt, s')
      /\ nearer wk jt e p s' /\ (In jt jts -> nearer wk jt e (pred p) s').
Proof.
  induction jts as [|jt' jts IH]; intros p s N.
  - exists s. split; [reflexivity|]. split; [exact N|intros []].
  - cbn [for_each].
    destruct (reconcile_pool_nearer p jt' s N) as [s1 [R [N1 Nj]]].
    rewrite (bind_ok _ _ _ _ _ R).
    destruct (IH p s1 N1) as [s' [R' [N' Nin]]].
    exists s'. split; [exact R'|]. split; [exact N'|].
    intros [Ej|I]; [|now apply Nin].
    destruct (IH (pred p) s1 (Nj Ej)) as [s2 [R2 [N2 _]]].
    rewrite R' in R2. inversion R2; subst s2. exact N2.
Qed.

End Joined.

Lemma nearer_assigned wk jt p all_modules j s :
  joined_or_nearer wk jt p s ->
  joined_or_nearer wk jt p (assigned all_modules j s).
Proof.
  intros [J|[pre [post [P B]]]].
  - left. destruct (assigned_trace all_modules j s) as [evs ->].
    apply in_or_app. now left.
  - right.
    destruct (assigned_cases all_modules j s)
      as [E|[E|[_ [wc [_ [_ [E|[e' [_ E]]]]]]]]]; rewrite E.
    + now exists pre, post.
    + exists pre, post. now rewrite pool_of_with_key.
    + exists pre, post. split; [|exact B].
      change (pool_of jt (claim_lost j (with_key (job_jobtype j) s)))
        with (pool_of jt (with_key (job_jobtype j) s)).
      now rewrite pool_of_with_key.
    + rewrite pool_of_started, pool_of_with_key.
      destruct (String.eqb jt (job_jobtype j)) eqn:Ej.
      * apply String.eqb_eq in Ej. subst jt.
        exists pre, (post ++ [mkWorker (next_wid (with_key (job_jobtype j) s)) j
                                (connect wc j)]).
        split; [|exact B]. rewrite P, <- app_assoc. reflexivity.
      * exists pre, post. now rewrite pool_of_with_key.
Qed.

(** One tick over a stopped worker: the worker is joined, or it has moved
    towards the head of its list. *)
Lemma delegate_nearer all_modules wk jt pre post s :
  NoDup (map wid (pool_of jt s)) ->
  pool_of jt s = pre ++ wk :: post ->
  alive wk (env s) = false ->
  joined_or_nearer wk jt (length pre)
    (exec (WorkerManager.delegate all_modules) s).
Proof.
  intros ND P A.
  assert (W : exists s1, tick_work all_modules s = (Ok tt, s1)
                         /\ joined_or_nearer wk jt (length pre) s1).
  { unfold tick_work.
    assert (G : on_env (Queue.get_all_jobs None None false) s
                = (Ok (rows (env s)), s)).
    { unfold on_env. rewrite snapshot_all. now rewrite with_env_same. }
    rewrite (bind_ok _ _ _ _ _ G). unfold bind at 1, gets at 1.
    assert (N : nearer wk jt (env s) (S (length pre)) s).
    { split; [reflexivity|]. split; [exact ND|]. right.
      exists pre, post. split; [exact P|lia]. }
    assert (K : In jt (Py.keys (worker_pool s))).
    { apply get_in_keys. unfold pool_of in P.
      destruct (Py.get jt (worker_pool s)); [discriminate|].
      now destruct pre. }
    destruct (reconcile_all_nearer wk (map job_id (rows (env s))) jt (env s) A
                (Py.keys (worker_pool s)) (S (length pre)) s N)
      as [s1 [R [_ N1]]].
    rewrite (bind_ok _ _ _ _ _ R).
    destruct (N1 K) as [_ [_ H1]]. cbn [pred] in H1.
    apply (assign_all_inv (joined_or_nearer wk jt (length pre))); auto.
    intros j s' H' _. now apply nearer_assigned. }
  destruct W as [s1 [W H1]].
  unfold exec. rewrite delegate_split, (bind_ok _ _ _ _ _ W).
  unfold time_sleep. destruct (sched s1) as [|move rest]; simpl; auto.
  destruct H1 as [J|H1]; [left|right; exact H1].
  apply in_or_app. now left.
Qed.

Lemma consistent_pool_NoDup jt s w :
  pool_consistent s -> In w (pool_of jt s) -> NoDup (map wid (pool_of jt s)).
Proof.
  intros [ND _] I.
  destruct (pool_workers_split jt s (pool_of jt s)) as [a [b [E _]]].
  { now apply (pool_of_get jt s w). }
  rewrite E, !map_app in ND.
  apply NoDup_app_remove_l in ND. now apply NoDup_app_remove_r in ND.
Qed.

(** A stopped worker behind at most [p] entries is joined by the end of
    tick [p + 1]. *)
Lemma joined_within_ticks all_modules wk jt :
  forall p s pre post,
    pool_consistent s ->
    pool_of jt s = pre ++ wk :: post ->
    length pre <= p ->
    p <= length (sched s) ->
    (forall k, k <= p ->
       alive wk (env (exec (WorkerManager.ticks all_modules k) s)) = false) ->
    In (EvJoin (wid wk))
       (trace (exec (WorkerManager.ticks all_modules (S p)) s)).
Proof.
  induction p as [|p IH]; intros s pre post C P Lp Ls A.
  - assert (ND : NoDup (map wid (pool_of jt s))).
    { apply (consistent_pool_NoDup jt s wk C).
      rewrite P. apply in_or_app. right. now left. }
    destruct (delegate_nearer all_modules wk jt pre post s ND P (A 0 (Nat.le_0_l _)))
      as [J|[pre' [post' [_ B]]]]; [|lia].
    destruct (sched s) as [|mv rest] eqn:Sc.
    + now rewrite ticks_blocked.
    + destruct (ticks_succ all_modules 0 s) as [_ [_ E]]; [now rewrite Sc|].
      now rewrite E.
  - assert (ND : NoDup (map wid (pool_of jt s))).
    { apply (consistent_pool_NoDup jt s wk C).
      rewrite P. apply in_or_app. right. now left. }
    assert (A0 : alive wk (env s) = false) by (apply (A 0); lia).
    assert (Sc : sched s <> []) by (destruct (sched s); [cbn in Ls; lia|discriminate]).
    destruct (ticks_succ all_modules (S p) s Sc) as [_ [L E]].
    rewrite E.
    destruct (delegate_nearer all_modules wk jt pre post s ND P A0)
      as [J|[pre' [post' [P' B]]]].
    + now apply ticks_trace_incl.
    + apply (IH _ pre' post'); auto.
      * now apply consistent_delegate.
      * lia.
      * lia.
      * intros k Lk.
        destruct (ticks_succ all_modules k s Sc) as [_ [_ Ek]].
        rewrite <- Ek. apply A. lia.
Qed.

(** X4.  A worker that has stopped is joined in the end, although a pass
    over the pool can step over it: when it stands behind at most [p]
    workers in the list of its jobtype and stays stopped, and the schedule
    lets [p] ticks complete, it has been joined by the end of tick
    [p + 1]. *)
Theorem stopped_worker_joined_within all_modules wk jt :
  forall p s pre post,
    pool_consistent s ->
    pool_of jt s = pre ++ wk :: post ->
    length pre <= p ->
    p <= length (sched s) ->
    (forall k, k <= p ->
       alive wk (env (exec (WorkerManager.ticks all_modules k) s)) = false) ->
    In (EvJoin (wid wk))
       (trace (exec (WorkerManager.ticks all_modules (S p)) s)).
Proof.
  intros p s pre post C P Lp Ls A.
  exact (joined_within_ticks all_modules wk jt p s pre post C P Lp Ls A).
Qed.

(** ** A waiting job gets its worker *)

Lemma tick_work_unfold all_modules s :
  tick_work all_modules s =
  bind (for_each (Py.keys (worker_pool s))
          (WorkerManager.reconcile_pool (map job_id (rows (env s)))))
       (fun _ => for_each (rows (env s)) (WorkerManager.assign_job all_modules))
       s.
Proof.
  unfold tick_work.
  assert (G : on_env (Queue.get_all_jobs None None false) s
              = (Ok (rows (env s)), s)).
  { unfold on_env. rewrite snapshot_all. now rewrite with_env_same. }
  rewrite (bind_ok _ _ _ _ _ G). reflexivity.
Qed.

Lemma assigned_keeps all_modules j jt w s :
  In w (pool_of jt s) -> In w (pool_of jt (assigned all_modules j s)).
Proof.
  intros I.
  destruct (assigned_cases all_modules j s)
    as [E|[E|[_ [wc [_ [_ [E|[e' [_ E]]]]]]]]]; rewrite E; auto.
  - now rewrite pool_of_with_key.
  - change (pool_of jt (claim_lost j (with_key (job_jobtype j) s)))
      with (pool_of jt (with_key (job_jobtype j) s)).
    now rewrite pool_of_with_key.
  - rewrite pool_of_started, !pool_of_with_key.
    destruct (String.eqb jt (job_jobtype j)) eqn:Ej; [|exact I].
    apply String.eqb_eq in Ej. subst jt. apply in_or_app. now left.
Qed.

Lemma claim_other j j' e e' :
  Queue.claim j' e = (Ok tt, e') -> job_id j' <> job_id j ->
  In j (rows e) -> In j (rows e') /\ now e' = now e.
Proof.
  unfold Queue.claim. destruct (existsb _ (rows e)); [|discriminate].
  intros Q D I. inversion Q; subst e'. clear Q.
  unfold Queue.update_rows, with_rows. cbn [rows now]. split; [|reflexivity].
  apply in_map_iff. exists j. split; [|exact I].
  assert (F : (job_id j =? job_id j')%Z = false)
    by (apply Z.eqb_neq; congruence).
  now rewrite F.
Qed.

Lemma waiting_assigned all_modules j t limit s0 j' s :
  still_waiting j t limit s0 s ->
  job_id j' <> job_id j ->
  (job_jobtype j' = job_jobtype j -> Queue.is_claimable t j' = false) ->
  still_waiting j t limit s0 (assigned all_modules j' s).
Proof.
  intros [Nw [I [L [Wd [evs T]]]]] D Nc.
  assert (Ek : env (with_key (job_jobtype j') s) = env s)
    by (unfold with_key; now destruct (Py.get _ (worker_pool s))).
  assert (Wk : next_wid (with_key (job_jobtype j') s) = next_wid s)
    by (unfold with_key; now destruct (Py.get _ (worker_pool s))).
  assert (Tk : trace (with_key (job_jobtype j') s) = trace s)
    by (unfold with_key; now destruct (Py.get _ (worker_pool s))).
  assert (K : still_waiting j t limit s0 (with_key (job_jobtype j') s)).
  { unfold still_waiting. rewrite Ek, Wk, Tk, pool_of_with_key. eauto 10. }
  destruct (assigned_cases all_modules j' s)
    as [E|[E|[Cl [wc [_ [_ [E|[e' [Q E]]]]]]]]]; rewrite E.
  - unfold still_waiting. eauto 10.
  - exact K.
  - destruct K as [K1 [K2 [K3 [K4 [evs' K5]]]]].
    split; [exact K1|]. split; [exact K2|]. split; [exact K3|].
    split; [exact K4|]. exists (evs' ++ [EvClaim j']). cbn [claim_lost trace].
    now rewrite K5, app_assoc.
  - assert (Dt : job_jobtype j' <> job_jobtype j).
    { intros Et. rewrite Nw in Cl. rewrite (Nc Et) in Cl. discriminate. }
    destruct (claim_other j j' (env s) e' Q D I) as [I' N'].
    split; [cbn [started env with_live now]; congruence|].
    split; [exact I'|]. split.
    { rewrite pool_of_started, !pool_of_with_key.
      assert (F : String.eqb (job_jobtype j) (job_jobtype j') = false)
        by (apply String.eqb_neq; congruence).
      now rewrite F. }
    split; [cbn [started next_wid]; lia|].
    eexists. cbn [started trace]. now rewrite Tk, T, <- app_assoc.
Qed.

Lemma waiting_started all_modules j wc s0 s :
  still_waiting j (now (env s0)) (max_workers wc) s0 s ->
  Queue.is_claimable (now (env s0)) j = true ->
  Py.get (job_jobtype j) (workers all_modules) = Some wc ->
  started_for j s0 (assigned all_modules j s).
Proof.
  intros [Nw [I [L [Wd [evs T]]]]] Cl G.
  assert (Ek : env (with_key (job_jobtype j) s) = env s)
    by (unfold with_key; now destruct (Py.get _ (worker_pool s))).
  assert (Wk : next_wid (with_key (job_jobtype j) s) = next_wid s)
    by (unfold with_key; now destruct (Py.get _ (worker_pool s))).
  assert (Tk : trace (with_key (job_jobtype j) s) = trace s)
    by (unfold with_key; now destruct (Py.get _ (worker_pool s))).
  unfold assigned. rewrite Nw, Cl, G. cbn [negb].
  rewrite pool_of_with_key. apply Nat.ltb_lt in L. rewrite L.
  rewrite Ek. unfold Queue.claim.
  assert (X : existsb (fun r => (job_id r =? job_id j)%Z && negb (is_claimed r))
                      (rows (env s)) = true).
  { apply existsb_exists. exists j. split; [exact I|].
    rewrite Z.eqb_refl. unfold Queue.is_claimable in Cl.
    apply andb_true_iff in Cl. now destruct Cl as [Cl _]. }
  rewrite X.
  exists (mkWorker (next_wid s) j (connect wc j)), evs, [].
  split.
  { rewrite pool_of_started, String.eqb_refl, Wk. apply in_or_app. right. now left. }
  split; [reflexivity|]. split; [exact Wd|].
  cbn [started trace wid]. rewrite Tk, Wk, T, <- app_assoc. reflexivity.
Qed.

Lemma started_assigned all_modules j s0 j' s :
  started_for j s0 s -> started_for j s0 (assigned all_modules j' s).
Proof.
  intros [w [tr1 [tr2 [I [Jw [Wd T]]]]]].
  destruct (assigned_trace all_modules j' s) as [evs Te].
  exists w, tr1, (tr2 ++ evs). split; [now apply assigned_keeps|].
  split; [exact Jw|]. split; [exact Wd|].
  rewrite Te, T, <- !app_assoc. reflexivity.
Qed.

(** X5.  A tick starts a worker for a waiting job whenever it can: if the
    job is claimable, its jobtype is registered and holds fewer workers
    than [max_workers] when the tick begins, no record before it in the
    table has its id, and no job of its type before it is claimable, then
    the tick claims the job, starts a new worker object for it right after
    the claim, and that worker is in the pool list of the jobtype when the
    tick ends. *)
Theorem delegate_starts_waiting_job all_modules s j wc before after :
  rows (env s) = before ++ j :: after ->
  Queue.is_claimable (now (env s)) j = true ->
  Py.get (job_jobtype j) (workers all_modules) = Some wc ->
  length (pool_of (job_jobtype j) s) < max_workers wc ->
  (forall j', In j' before ->
     job_id j' <> job_id j
     /\ (job_jobtype j' = job_jobtype j ->
         Queue.is_claimable (now (env s)) j' = false)) ->
  let s' := exec (WorkerManager.delegate all_modules) s in
  exists w tr1 tr2,
    In w (pool_of (job_jobtype j) s')
    /\ job w = j
    /\ next_wid s <= wid w
    /\ trace s' = trace s ++ tr1 ++ EvClaim j :: EvStart (wid w) :: tr2.
Proof.
  intros Rw Cl G L First.
  set (t := now (env s)). set (limit := max_workers wc).
  assert (W : exists s3, tick_work all_modules s = (Ok tt, s3)
                         /\ started_for j s s3).
  { rewrite tick_work_unfold.
    (* the reconciliation pass only takes workers out *)
    destruct (reconcile_all_inv
                (fun s' => env s' = env s /\ still_waiting j t limit s s')
                (map job_id (rows (env s)))) with (jts := Py.keys (worker_pool s))
                (s := s) as [s1 [R [_ W1]]].
    { intros jt w s' [E' [Nw [I [L' [Wd [evs T]]]]]] _.
      assert (Er := reconciled_env (map job_id (rows (env s))) jt w s').
      split; [congruence|]. unfold still_waiting. rewrite Er.
      split; [exact Nw|]. split; [exact I|]. split.
      { eapply Nat.le_lt_trans; [apply reconciled_pool_length|exact L']. }
      split.
      { unfold reconciled.
        destruct (alive w (env s')); [destruct (to_interrupt _ w s')|]; exact Wd. }
      destruct (reconciled_trace (map job_id (rows (env s))) jt w s') as [evs' Te].
      exists (evs ++ evs'). now rewrite Te, T, app_assoc. }
    { split; [reflexivity|]. split; [reflexivity|]. split.
      { rewrite Rw. apply in_or_app. right. now left. }
      split; [exact L|]. split; [lia|]. exists []. now rewrite app_nil_r. }
    rewrite (bind_ok _ _ _ _ _ R). rewrite Rw.
    (* the jobs before [j] leave it waiting *)
    destruct (assign_all_inv (still_waiting j t limit s) all_modules before)
      with (s := s1) as [s2 [R2 W2]]; auto.
    { intros j' s' W' I'. destruct (First j' I') as [D Nc].
      now apply waiting_assigned. }
    rewrite (for_each_app _ _ _ _ _ R2). cbn [for_each].
    rewrite (bind_ok _ _ _ _ _ (assign_job_eq all_modules j s2)).
    (* the jobs after it leave its worker in the pool *)
    apply (assign_all_inv (started_for j s)).
    - intros j' s' S' _. now apply started_assigned.
    - now apply (waiting_started all_modules j wc s s2). }
  destruct W as [s3 [W [w [tr1 [tr2 [I [Jw [Wd T]]]]]]]].
  unfold exec. rewrite delegate_split, (bind_ok _ _ _ _ _ W).
  unfold time_sleep. destruct (sched s3) as [|move rest]; cbn [snd].
  - now exists w, tr1, tr2.
  - exists w, tr1, (tr2 ++ [EvSleep 1000]). split; [exact I|].
    split; [exact Jw|]. split; [exact Wd|]. cbn [trace].
    rewrite T, <- !app_assoc. reflexivity.
Qed.

(** X6.  Workers are filed under the jobtype of their job: a tick keeps
    this so, and it holds throughout the run of a manager that starts with
    an empty pool.  A request that names a jobtype therefore looks in the
    list in which the workers of that type are. *)
Theorem workers_filed_under_their_jobtype all_modules s :
  well_filed s ->
  well_filed (exec (WorkerManager.delegate all_modules) s)
  /\ (forall n, well_filed (exec (WorkerManager.ticks all_modules n) s))
  /\ (forall e moves n,
        well_filed
          (exec (WorkerManager.ticks all_modules n) (fresh_manager e moves))).
Proof.
  intros F. split; [now apply well_filed_delegate|]. split.
  - intros n. apply ticks_inv; [|exact F].
    intros s0 F0. now apply well_filed_delegate.
  - intros e moves n. apply ticks_inv.
    + intros s0 F0. now apply well_filed_delegate.
    + intros jt w I. unfold pool_of, fresh_manager in I. cbn in I. destruct I.
Qed.

(** ** A delete request and the next tick *)

Lemma delegate_keeps_running all_modules jt w s :
  In w (pool_of jt s) -> alive w (env s) = true ->
  In w (pool_of jt (exec (WorkerManager.delegate all_modules) s)).
Proof.
  intros I A.
  apply (delegate_inv (fun s' => In w (pool_of jt s'))); auto.
  - intros jt' w' s' I' E _. unfold reconciled. rewrite E.
    destruct (alive w' (env s)) eqn:A';
      [destruct (to_interrupt _ w' s'); exact I'|].
    rewrite pool_of_joined. destruct (String.eqb jt jt') eqn:Ej; [|exact I'].
    apply String.eqb_eq in Ej. subst jt'.
    apply remove_other_worker; [exact I'|].
    intros Ew. unfold alive in *. rewrite Ew in A. congruence.
  - intros j s' I' _. now apply assigned_keeps.
Qed.

(** X7.  A delete request interrupts nobody itself; the next tick does.
    When the worker of the deleted job is running, is the only pool entry
    for that job, is not marked as stopping and no stopped worker stands
    before it in its list, then the tick that follows the request asks it
    to interrupt exactly once, puts its job id in the stopping list and
    leaves it in the pool. *)
Theorem delete_then_tick_interrupts all_modules j remote_id jobtype j' jt wk
    pre post s :
  resolve j remote_id jobtype (env s) = Some j' ->
  job_id j' = job_id (job wk) ->
  pool_of jt s = pre ++ wk :: post ->
  alive wk (env s) = true ->
  (forall w, In w pre -> alive w (env s) = true) ->
  ~ In (job_id (job wk)) (stopping_workers s) ->
  sole_carrier wk s ->
  wid wk < next_wid s ->
  let s1 := exec (WorkerManager.request_delete j remote_id jobtype) s in
  let s2 := exec (WorkerManager.delegate all_modules) s1 in
  interrupts_of (wid wk) (trace s1) = interrupts_of (wid wk) (trace s)
  /\ interrupts_of (wid wk) (trace s2) = interrupts_of (wid wk) (trace s) + 1
  /\ In (job_id (job wk)) (stopping_workers s2)
  /\ In wk (pool_of jt s2).
Proof.
  intros R Ej P A Pa Ns Sole Fresh s1 s2.
  assert (E1 : s1 = deleted j' s).
  { unfold s1, exec. now rewrite request_delete_eq, R. }
  assert (Gone : ~ In (job_id (job wk)) (map job_id (rows (env s1)))).
  { rewrite E1. cbn [deleted env with_rows rows]. intros K.
    apply in_map_iff in K. destruct K as [r [Er Ir]].
    apply filter_In in Ir. destruct Ir as [_ Ir].
    apply negb_true_iff, Z.eqb_neq in Ir. congruence. }
  assert (C1 : interrupts_of (wid wk) (trace s1) = interrupts_of (wid wk) (trace s)).
  { rewrite E1. cbn [deleted trace]. rewrite interrupts_of_app. cbn. lia. }
  split; [exact C1|].
  assert (A1 : alive wk (env s1) = true) by now rewrite E1.
  assert (Up : interrupts_of (wid wk) (trace s1) + 1
               <= interrupts_of (wid wk) (trace s2)).
  { apply (delegate_reaches all_modules wk jt pre post s1); auto;
      rewrite E1; auto. }
  assert (O : once wk (interrupts_of (wid wk) (trace s1)) false s2).
  { apply once_delegate; auto. split; [now rewrite E1|].
    split; [now rewrite E1|]. left. split; [reflexivity|discriminate]. }
  destruct O as [_ [_ [[C _]|[C [St _]]]]]; [fold s2 in C; lia|].
  split; [fold s2 in C; lia|]. split; [exact St|].
  apply delegate_keeps_running; [|exact A1].
  rewrite E1. change (pool_of jt (deleted j' s)) with (pool_of jt s).
  rewrite P. apply in_or_app. right. now left.
Qed.

(** ** The main loop *)

Lemma delegate_looping all_modules s :
  looping (exec (WorkerManager.delegate all_modules) s) = looping s.
Proof.
  apply (delegate_inv (fun s' => looping s' = looping s)); auto.
  - intros jt w s' E _ _. rewrite <- E. unfold reconciled.
    destruct (alive w (env s')); [destruct (to_interrupt _ w s')|]; reflexivity.
  - intros j s' E _. rewrite <- E.
    assert (Sk : looping (with_key (job_jobtype j) s') = looping s').
    { unfold with_key. now destruct (Py.get _ (worker_pool s')). }
    destruct (assigned_cases all_modules j s')
      as [Q|[Q|[_ [wc [_ [_ [Q|[e' [_ Q]]]]]]]]]; rewrite Q; auto.
Qed.

Lemma ticks_ok_sched all_modules :
  forall k s,
    outcome (WorkerManager.ticks all_modules k) s = Ok tt ->
    k <= length (sched s).
Proof.
  induction k as [|k IH]; intros s H; [lia|].
  destruct (sched s) as [|move rest] eqn:Sc.
  - exfalso. destruct (tick_work_sched all_modules s) as [s1 [W Sc1]].
    assert (D : WorkerManager.delegate all_modules s = (Blocked, s1)).
    { rewrite delegate_split, (bind_ok _ _ _ _ _ W). unfold time_sleep.
      now rewrite Sc1, Sc. }
    unfold outcome in H. cbn [WorkerManager.ticks] in H.
    rewrite (bind_blocked _ _ _ _ D) in H. discriminate.
  - assert (Ne : sched s <> []) by now rewrite Sc.
    destruct (ticks_succ all_modules k s Ne) as [O [L _]].
    assert (D : WorkerManager.delegate all_modules s
                = (Ok tt, exec (WorkerManager.delegate all_modules) s)).
    { rewrite (run_eta (WorkerManager.delegate all_modules) s) at 1.
      now rewrite O. }
    unfold outcome in H. cbn [WorkerManager.ticks] in H.
    rewrite (bind_ok _ _ _ _ _ D) in H. apply IH in H.
    rewrite L, Sc in H. cbn [List.length pred] in *. lia.
Qed.

(** Without a stop request the loop only delegates. *)
Lemma delegate_while_looping_ticks all_modules :
  forall fuel stops s,
    looping s = true ->
    (forall b, In b stops -> b = false) ->
    length (sched s) < fuel ->
    WorkerManager.delegate_while_looping fuel all_modules stops s
    = (Blocked, exec (WorkerManager.ticks all_modules fuel) s).
Proof.
  induction fuel as [|fuel IH]; intros stops s Lo No Lf; [lia|].
  cbn [WorkerManager.delegate_while_looping].
  unfold bind at 1, gets at 1. rewrite Lo.
  assert (H0 : hd false stops = false).
  { destruct stops as [|b stops]; [reflexivity|]. apply No. now left. }
  assert (Nt : forall b, In b (tl stops) -> b = false).
  { intros b I. apply No. destruct stops; [destruct I|now right]. }
  rewrite H0.
  destruct (sched s) as [|move rest] eqn:Sc.
  - rewrite (ticks_blocked all_modules fuel s Sc).
    destruct (tick_work_sched all_modules s) as [s1 [W Sc1]].
    assert (D : WorkerManager.delegate all_modules s = (Blocked, s1)).
    { rewrite delegate_split, (bind_ok _ _ _ _ _ W). unfold time_sleep.
      now rewrite Sc1, Sc. }
    unfold exec. now rewrite (bind_blocked _ _ _ _ D), D.
  - assert (Ne : sched s <> []) by now rewrite Sc.
    destruct (ticks_succ all_modules fuel s Ne) as [O [L E]].
    rewrite E.
    assert (D : WorkerManager.delegate all_modules s
                = (Ok tt, exec (WorkerManager.delegate all_modules) s)).
    { rewrite (run_eta (WorkerManager.delegate all_modules) s) at 1.
      now rewrite O. }
    rewrite (bind_ok _ _ _ _ _ D). unfold bind at 1, ret at 1. apply IH.
    + now rewrite delegate_looping.
    + exact Nt.
    + rewrite L, Sc in *. cbn [List.length pred] in *. lia.
Qed.

Lemma ticks_step_ok all_modules k s :
  outcome (WorkerManager.ticks all_modules (S k)) s = Ok tt ->
  exists s1,
    WorkerManager.delegate all_modules s = (Ok tt, s1)
    /\ exec (WorkerManager.ticks all_modules (S k)) s
       = exec (WorkerManager.ticks all_modules k) s1
    /\ outcome (WorkerManager.ticks all_modules k) s1 = Ok tt.
Proof.
  unfold outcome, exec. cbn [WorkerManager.ticks]. unfold bind.
  destruct (WorkerManager.delegate all_modules s) as [[[]| |] s1];
    try discriminate.
  intros H. exists s1. auto.
Qed.

(** A stop request during the sleep of tick [k + 1]: the loop has run
    these ticks, runs [abort], and runs no further tick once [abort] has
    returned. *)
Lemma delegate_while_looping_stop all_modules rest :
  forall k fuel s,
    looping s = true ->
    outcome (WorkerManager.ticks all_modules (S k)) s = Ok tt ->
    S k < fuel ->
    WorkerManager.delegate_while_looping fuel all_modules (repeat false k ++ true :: rest) s
    = WorkerManager.abort (exec (WorkerManager.ticks all_modules (S k)) s).
Proof.
  induction k as [|k IH]; intros fuel s Lo Run Lf;
    (destruct fuel as [|fuel]; [lia|]);
    cbn [WorkerManager.delegate_while_looping repeat app hd tl];
    unfold bind at 1, gets at 1; rewrite Lo;
    destruct (ticks_step_ok all_modules _ s Run) as [s1 [D [E Run1]]];
    rewrite E, (bind_ok _ _ _ _ _ D).
  - cbn [WorkerManager.ticks]. change (exec (ret tt) s1) with s1.
    unfold bind.
    destruct (WorkerManager.abort s1) as [[[]| |] s2] eqn:A; auto.
    destruct fuel as [|fuel]; [lia|]. cbn [WorkerManager.delegate_while_looping].
    unfold bind at 1, gets at 1. apply abort_ok in A. destruct A as [A _].
    now rewrite A.
  - unfold bind at 1, ret at 1. apply IH.
    + assert (Q := delegate_looping all_modules s). unfold exec in Q.
      rewrite D in Q. cbn [snd] in Q. congruence.
    + exact Run1.
    + lia.
Qed.

(** X8.  A tick never takes the stop flag down; [abort] does, when a stop
    request arrives.  A loop entered with the flag up does nothing but
    delegate as long as no request arrives: when the schedule of the run
    ends it is asleep at the end of a tick, the flag still up, and has not
    reached the shutdown calls.  When a request arrives during the sleep of
    tick [k + 1], the loop has run [k + 1] ticks, with the flag up until
    then, runs [abort] and then, without a further tick, the shutdown
    calls; if [abort] raises, the loop ends with that exception. *)
Theorem loop_delegates_until_stopped all_modules has_request_interrupt
    worker_abort stops s :
  looping s = true ->
  let run := WorkerManager.loop all_modules has_request_interrupt worker_abort stops in
  ((forall b, In b stops -> b = false) ->
   let s' := exec (WorkerManager.ticks all_modules (S (length (sched s)))) s in
   run s = (Blocked, s') /\ looping s' = true /\ sched s' = [])
  /\ (forall k rest,
        stops = repeat false k ++ true :: rest ->
        outcome (WorkerManager.ticks all_modules (S k)) s = Ok tt ->
        let sk := exec (WorkerManager.ticks all_modules (S k)) s in
        looping sk = true
        /\ run s
           = (WorkerManager.abort ;;
              WorkerManager.shutdown has_request_interrupt worker_abort) sk
        /\ (forall s1,
              WorkerManager.abort sk = (Ok tt, s1) ->
              looping s1 = false
              /\ run s = WorkerManager.shutdown has_request_interrupt worker_abort s1)
        /\ (forall e s1,
              WorkerManager.abort sk = (Raise e, s1) ->
              run s = (Raise e, s1))).
Proof.
  intros Lo run. split.
  { intros No s'. split; [|split].
    - unfold run, WorkerManager.loop, bind at 1, gets at 1.
      rewrite (bind_blocked _ _ _ _
                 (delegate_while_looping_ticks all_modules
                    (S (length (sched s))) stops s Lo No (Nat.lt_succ_diag_r _))).
      reflexivity.
    - unfold s'. apply (ticks_inv (fun s0 => looping s0 = true)); auto.
      intros s0 L0. now rewrite delegate_looping.
    - unfold s'. clear Lo s' run No. remember (length (sched s)) as n eqn:En.
      revert s En. induction n as [|n IH]; intros s En.
      + destruct (sched s) eqn:Sc; [|discriminate].
        rewrite (ticks_blocked all_modules 0 s Sc).
        destruct (delegate_outcome all_modules s) as [O|[_ B]]; [|exact B].
        destruct (tick_work_sched all_modules s) as [s1 [W Sc1]].
        unfold exec. rewrite delegate_split, (bind_ok _ _ _ _ _ W).
        unfold time_sleep. rewrite Sc1, Sc. cbn. now rewrite Sc1.
      + assert (Ne : sched s <> [])
          by (destruct (sched s); [discriminate|discriminate]).
        destruct (ticks_succ all_modules (S n) s Ne) as [_ [L E]].
        rewrite E. apply IH. rewrite L, <- En. reflexivity. }
  intros k rest St Run sk.
  assert (Lk : looping sk = true).
  { unfold sk. apply (ticks_inv (fun s0 => looping s0 = true)); auto.
    intros s0 L0. now rewrite delegate_looping. }
  assert (R : run s
              = (WorkerManager.abort ;;
                 WorkerManager.shutdown has_request_interrupt worker_abort) sk).
  { unfold run, WorkerManager.loop. unfold bind at 1, gets at 1. unfold bind at 1.
    rewrite St.
    rewrite (delegate_while_looping_stop all_modules rest k
               (S (length (sched s))) s Lo Run).
    - reflexivity.
    - apply ticks_ok_sched in Run. lia. }
  split; [exact Lk|]. split; [exact R|]. split.
  - intros s1 A. split; [now apply abort_ok in A|].
    rewrite R. now rewrite (bind_ok _ _ _ _ _ A).
  - intros e s1 A. rewrite R. now rewrite (bind_raise _ _ _ _ _ A).
Qed.

Lemma traced_nil s : traced [] s = s.
Proof. unfold traced. rewrite app_nil_r. now destruct s. Qed.

Lemma traced_app evs1 evs2 s : traced evs2 (traced evs1 s) = traced (evs1 ++ evs2) s.
Proof. unfold traced. cbn. now rewrite app_assoc. Qed.

Lemma for_each_traced (f : Worker -> event) body ws :
  forall s,
    (forall w s0, In w ws -> body w s0 = (Ok tt, traced [f w] s0)) ->
    for_each ws body s = (Ok tt, traced (map f ws) s).
Proof.
  induction ws as [|w ws IH]; intros s H.
  - cbn. unfold ret. now rewrite traced_nil.
  - cbn [for_each map]. rewrite (bind_ok _ _ _ _ _ (H w s (or_introl eq_refl))).
    rewrite IH by (intros w' s0 I; apply H; now right).
    now rewrite traced_app.
Qed.

Lemma for_each_worker_traced (f : Worker -> event) body s :
  (forall w s0, In w (pool_entries s) -> body w s0 = (Ok tt, traced [f w] s0)) ->
  WorkerManager.for_each_worker body s
  = (Ok tt, traced (map f (pool_entries s)) s).
Proof.
  intros H. unfold WorkerManager.for_each_worker, bind at 1, gets at 1.
  unfold pool_entries in *.
  assert (G : forall jts evs,
             (forall w, In w (flat_map (fun jt => pool_of jt s) jts) ->
                        forall s0, body w s0 = (Ok tt, traced [f w] s0)) ->
             for_each jts
               (fun jobtype => ws <- gets (pool_of jobtype) ;; for_each ws body)
               (traced evs s)
             = (Ok tt, traced (evs ++ map f (flat_map (fun jt => pool_of jt s) jts)) s)).
  { induction jts as [|jt jts IH]; intros evs Hb.
    - cbn. unfold ret. now rewrite app_nil_r.
    - cbn [for_each flat_map]. unfold bind at 1. unfold bind at 1, gets at 1.
      change (pool_of jt (traced evs s)) with (pool_of jt s).
      rewrite (for_each_traced f body (pool_of jt s)).
      + rewrite traced_app, IH.
        * now rewrite map_app, app_assoc.
        * intros w I. apply Hb. cbn [flat_map]. apply in_or_app. now right.
      + intros w s0 I. apply Hb. cbn [flat_map]. apply in_or_app. now left. }
  specialize (G (Py.keys (worker_pool s)) []).
  rewrite traced_nil in G. cbn [app] in G. apply G.
  intros w I s0. now apply H.
Qed.

(** ** Waiting for the workers *)

Lemma waited_stopped w s : alive w (env s) = false -> waited w s = s.
Proof.
  intros A. unfold waited.
  destruct (sched s) as [|move rest] eqn:Sc; cbn [awaited]; [|rewrite A];
    cbn [fst snd]; rewrite <- ?Sc; now destruct s.
Qed.

Lemma awaited_running w :
  forall moves e,
    alive w (fst (awaited w e moves)) = true -> snd (awaited w e moves) = [].
Proof.
  induction moves as [|move rest IH]; intros e A; [reflexivity|].
  cbn [awaited] in *. destruct (alive w e) eqn:Q.
  - now apply IH.
  - cbn [fst] in A. congruence.
Qed.

Lemma wait_stopped_eq w :
  forall fuel s,
    length (sched s) < fuel ->
    WorkerManager.wait_stopped fuel w s
    = (if alive w (env (waited w s)) then Blocked else Ok tt, waited w s).
Proof.
  induction fuel as [|fuel IH]; intros s Lf; [lia|].
  cbn [WorkerManager.wait_stopped]. unfold bind at 1, is_alive, gets at 1.
  fold (alive w (env s)).
  destruct (alive w (env s)) eqn:A.
  - unfold bind at 1, WorkerManager.wait_move.
    destruct (sched s) as [|move rest] eqn:Sc.
    + assert (E : waited w s = s).
      { unfold waited. rewrite Sc. cbn [awaited fst snd]. rewrite <- Sc.
        now destruct s. }
      now rewrite E, A.
    + rewrite IH by (cbn [sched]; cbn [List.length] in Lf; lia).
      assert (E : waited w
                    (mkState (worker_pool s) (stopping_workers s) (looping s)
                       (next_wid s) (move (env s)) (trace s) rest)
                  = waited w s).
      { unfold waited. cbn [worker_pool stopping_workers looping next_wid env
                            trace sched].
        rewrite Sc. cbn [awaited]. now rewrite A. }
      now rewrite E.
  - unfold ret. now rewrite (waited_stopped w s A), A.
Qed.

(** A join returns once the worker has stopped, and never if it does not
    stop while the schedule lasts. *)
Lemma thread_join_eq w s :
  let s1 := waited w (traced [EvJoin (wid w)] s) in
  WorkerManager.thread_join w s = (if alive w (env s1) then Blocked else Ok tt, s1).
Proof.
  cbv zeta. unfold WorkerManager.thread_join, bind at 1, emit, modify.
  unfold bind at 1, gets at 1.
  change (mkState (worker_pool s) (stopping_workers s) (looping s)
            (next_wid s) (env s) (trace s ++ [EvJoin (wid w)]) (sched s))
    with (traced [EvJoin (wid w)] s).
  apply wait_stopped_eq. lia.
Qed.

Lemma for_each_bind {S A} (body : A -> M S unit) (ys : list A) :
  forall xs s,
    for_each (xs ++ ys) body s
    = (for_each xs body ;; for_each ys body) s.
Proof.
  induction xs as [|x xs IH]; intros s; [reflexivity|].
  cbn [app for_each]. rewrite bind_assoc. apply bind_ext. intros [] s'.
  apply IH.
Qed.

Lemma for_each_pool_kept (body : Worker -> M State unit) :
  (forall w s, worker_pool (exec (body w) s) = worker_pool s) ->
  forall ws s, worker_pool (exec (for_each ws body) s) = worker_pool s.
Proof.
  intros H. induction ws as [|w ws IH]; intros s; [reflexivity|].
  cbn [for_each]. unfold exec, bind.
  assert (Hw := H w s). unfold exec in Hw.
  destruct (body w s) as [[[]| |] s1]; cbn [snd] in *; auto.
  assert (Hs := IH s1). unfold exec in Hs. congruence.
Qed.

(** The two nested loops over the pool visit its entries in order, when
    the body leaves the pool alone. *)
Lemma for_each_worker_entries (body : Worker -> M State unit) s :
  (forall w s0, worker_pool (exec (body w) s0) = worker_pool s0) ->
  WorkerManager.for_each_worker body s = for_each (pool_entries s) body s.
Proof.
  intros H. unfold WorkerManager.for_each_worker, bind at 1, gets at 1.
  unfold pool_entries.
  assert (G : forall jts s0,
             worker_pool s0 = worker_pool s ->
             for_each jts
               (fun jobtype => ws <- gets (pool_of jobtype) ;; for_each ws body)
               s0
             = for_each (flat_map (fun jt => pool_of jt s) jts) body s0).
  { induction jts as [|jt jts IH]; intros s0 P; [reflexivity|].
    cbn [for_each flat_map]. rewrite for_each_bind.
    unfold bind at 1. unfold bind at 1, gets at 1.
    assert (Pj : pool_of jt s0 = pool_of jt s) by (unfold pool_of; now rewrite P).
    rewrite Pj. unfold bind at 2.
    assert (K := for_each_pool_kept body H (pool_of jt s) s0). unfold exec in K.
    destruct (for_each (pool_of jt s) body s0) as [[[]| |] s1]; cbn [snd] in K;
      auto.
    apply IH. congruence. }
  now apply G.
Qed.

Lemma thread_join_pool w s :
  worker_pool (exec (WorkerManager.thread_join w) s) = worker_pool s.
Proof.
  unfold exec. rewrite thread_join_eq. reflexivity.
Qed.

(** Joining workers that have stopped. *)
Lemma join_stopped :
  forall ws s,
    (forall w, In w ws -> alive w (env s) = false) ->
    for_each ws WorkerManager.thread_join s
    = (Ok tt, traced (map (fun w => EvJoin (wid w)) ws) s).
Proof.
  induction ws as [|w ws IH]; intros s H.
  - cbn. unfold ret. now rewrite traced_nil.
  - cbn [for_each map].
    assert (J : WorkerManager.thread_join w s = (Ok tt, traced [EvJoin (wid w)] s)).
    { rewrite thread_join_eq. cbv zeta.
      rewrite waited_stopped by (apply H; now left).
      change (env (traced [EvJoin (wid w)] s)) with (env s).
      now rewrite (H w (or_introl eq_refl)). }
    rewrite (bind_ok _ _ _ _ _ J), IH.
    + now rewrite traced_app.
    + intros w' I. apply H. now right.
Qed.

Lemma asked_all_eq has_request_interrupt worker_abort s :
  (forall w, In w (pool_entries s) -> has_request_interrupt w = true) ->
  WorkerManager.for_each_worker
    (WorkerManager.stop_worker has_request_interrupt worker_abort) s
  = (Ok tt, asked_all s).
Proof.
  intros H. apply for_each_worker_traced. intros w s0 I.
  unfold WorkerManager.stop_worker. now rewrite (H w I).
Qed.

(** X9.  Entered with the stop flag down, as a completed [abort] leaves
    it, the loop runs no tick.  When every worker in the pool has
    [request_interrupt], it asks each of them to interrupt, without level
    and in the order of the pool, then joins them in the same order, each
    join returning only when that worker has stopped, then sleeps once.
    When all workers have stopped already the joins return at once.
    Otherwise the loop waits, at the first worker that stands behind
    stopped ones only, while the rest of the world moves on: if that worker
    does not stop while the schedule lasts, the loop never gets past its
    join, so that no worker behind it is joined and the final sleep is not
    reached; if it stops, and the workers behind it have stopped by then,
    the remaining joins and the final sleep follow.  The pool and the
    stopping list stay as they were. *)
Theorem loop_stops_every_worker all_modules has_request_interrupt worker_abort
    stops s :
  looping s = false ->
  (forall w, In w (pool_entries s) -> has_request_interrupt w = true) ->
  let run := WorkerManager.loop all_modules has_request_interrupt worker_abort stops in
  let join_of := fun w : Worker => EvJoin (wid w) in
  run s = (for_each (pool_entries s) WorkerManager.thread_join ;; time_sleep 1000)
            (asked_all s)
  /\ ((forall w, In w (pool_entries s) -> alive w (env s) = false) ->
      run s = time_sleep 1000 (stopped_all (pool_entries s) s))
  /\ (forall pre w post,
        pool_entries s = pre ++ w :: post ->
        (forall x, In x pre -> alive x (env s) = false) ->
        let s1 := waited w (traced (map join_of (pre ++ [w])) (asked_all s)) in
        (alive w (env s1) = true -> run s = (Blocked, s1) /\ sched s1 = [])
        /\ (alive w (env s1) = false ->
            (forall x, In x post -> alive x (env s1) = false) ->
            run s = time_sleep 1000 (traced (map join_of post) s1))).
Proof.
  intros Lo H run join_of.
  assert (R : run s
              = (for_each (pool_entries s) WorkerManager.thread_join ;; time_sleep 1000)
                  (asked_all s)).
  { unfold run, WorkerManager.loop, bind at 1, gets at 1.
    cbn [WorkerManager.delegate_while_looping].
    unfold bind at 1. unfold bind at 1, gets at 1. rewrite Lo. unfold ret at 1.
    unfold WorkerManager.shutdown.
    rewrite (bind_ok _ _ _ _ _ (asked_all_eq has_request_interrupt worker_abort s H)).
    unfold bind.
    rewrite (for_each_worker_entries WorkerManager.thread_join (asked_all s) thread_join_pool).
    reflexivity. }
  split; [exact R|]. split.
  - intros D. rewrite R.
    rewrite (bind_ok _ _ _ _ _ (join_stopped (pool_entries s) (asked_all s) D)).
    unfold asked_all. rewrite traced_app. reflexivity.
  - intros pre w post P D s1.
    assert (J1 : for_each pre WorkerManager.thread_join (asked_all s)
                 = (Ok tt, traced (map join_of pre) (asked_all s)))
      by (apply join_stopped; exact D).
    assert (J2 : WorkerManager.thread_join w (traced (map join_of pre) (asked_all s))
                 = (if alive w (env s1) then Blocked else Ok tt, s1)).
    { rewrite thread_join_eq. cbv zeta. rewrite traced_app.
      unfold s1. now rewrite map_app. }
    assert (E : for_each (pool_entries s) WorkerManager.thread_join (asked_all s)
                = (WorkerManager.thread_join w ;; for_each post WorkerManager.thread_join)
                    (traced (map join_of pre) (asked_all s))).
    { rewrite P. rewrite (for_each_app _ _ _ _ _ J1). reflexivity. }
    split.
    + intros A. rewrite A in J2. split.
      * rewrite R. unfold bind at 1. rewrite E.
        now rewrite (bind_blocked _ _ _ _ J2).
      * unfold s1, waited. cbn [sched]. now apply awaited_running.
    + intros A Dp. rewrite A in J2. rewrite R. unfold bind at 1. rewrite E.
      rewrite (bind_ok _ _ _ _ _ J2).
      now rewrite (join_stopped post s1 Dp).
Qed.

(** X10.  A graceful stop over a table in which no cancellation job is
    claimed never raises.  Its first phase claims and releases every
    outstanding cancellation job, which leaves each of them unclaimed and
    eligible at once; then the manager only sleeps until an enumeration
    comes back empty, and only then takes the stop flag down.  The pool and
    the stopping list are not touched: [abort] itself stops no worker. *)
Theorem abort_without_claimed_jobs s :
  (forall q, In q (cancel_rows None (env s)) -> is_claimed q = false) ->
  let qs := cancel_rows None (env s) in
  WorkerManager.force_cancel_jobs s = (Ok tt, forced_all qs s)
  /\ (forall q, In q qs -> made_claimable q (env (forced_all qs s)))
  /\ exists r s' k,
       WorkerManager.abort s = (r, s')
       /\ trace s' = trace s ++ round_events qs ++ repeat (EvSleep 250) k
       /\ worker_pool s' = worker_pool s
       /\ stopping_workers s' = stopping_workers s
       /\ (r = Ok tt \/ r = Blocked)
       /\ (r = Ok tt -> looping s' = false /\ cancel_rows None (env s') = [])
       /\ (r = Blocked -> looping s' = looping s /\ sched s' = []).
Proof.
  intros U qs.
  assert (F : WorkerManager.force_cancel_jobs s = (Ok tt, forced_all qs s)).
  { unfold WorkerManager.force_cancel_jobs.
    rewrite (bind_ok _ _ _ _ _ (cancel_jobs_eq None s)).
    apply force_all_eq; [exact U|].
    intros q I. now apply (snapshot_claimable None s q I), U. }
  destruct (forced_all_facts qs s) as [T [P [St [Lo [Nw [Sc [_ [_ Mc]]]]]]]].
  split; [exact F|]. split.
  { intros q I. apply Mc; [exact I|now apply U]. }
  unfold WorkerManager.abort. rewrite (bind_ok _ _ _ _ _ F).
  unfold bind at 1, gets at 1.
  destruct (wait_cancel_jobs_spec (S (length (sched (forced_all qs s))))
              (forced_all qs s))
    as [r [s' [k [R [T' [P' [St' [Lo' [Rc [Rok Rbl]]]]]]]]]].
  destruct Rc as [Rc|Rc]; subst r.
  - rewrite (bind_ok _ _ _ _ _ R).
    eexists (Ok tt), _, k. split; [reflexivity|].
    cbn [with_looping trace worker_pool stopping_workers looping env].
    split; [now rewrite T', T, app_assoc|].
    split; [congruence|]. split; [congruence|]. split; [now left|].
    split; [auto|discriminate].
  - rewrite (bind_blocked _ _ _ _ R).
    exists Blocked, s', k. split; [reflexivity|].
    split; [now rewrite T', T, app_assoc|].
    split; [congruence|]. split; [congruence|]. split; [now right|].
    split; [discriminate|]. intros _. split; [congruence|].
    apply Rbl; auto.
Qed.

(** ** Startup over a table that holds one of the jobs already *)

Lemma queue_add_job_refused instance_id spec s :
  ~ not_pending instance_id (fst spec) (env s) ->
  queue_add_job (fst spec) instance_id (snd spec) (Some instance_id) s
  = (Raise JobAlreadyExistsException, refused instance_id spec s).
Proof.
  intros H. unfold queue_add_job, bind, emit, modify, on_env, Queue.add_job.
  cbn [env]. unfold not_pending in H.
  destruct (existsb _ (rows (env s))); [reflexivity|now elim H].
Qed.

Lemma pending_queued instance_id spec jt s :
  ~ not_pending instance_id jt (env s) ->
  ~ not_pending instance_id jt (env (queued instance_id spec s)).
Proof.
  unfold not_pending, queued. cbn [env rows]. rewrite existsb_app.
  intros H K. apply H. now apply orb_false_iff in K.
Qed.

(** X11.  When one of the four maintenance jobs is already pending for the
    instance, the constructor queues the jobs that come before it, fails
    on it with [JobAlreadyExistsException], queues none of the jobs after
    it and never enters the loop. *)
Theorem startup_stops_at_pending_job all_modules instance_id s s0 pre spec post :
  WorkerManager.validate_datasources all_modules s = (Ok tt, s0) ->
  maintenance_jobs = pre ++ spec :: post ->
  (forall sp, In sp pre -> not_pending instance_id (fst sp) (env s0)) ->
  ~ not_pending instance_id (fst spec) (env s0) ->
  let s1 := fold_left (fun s sp => queued instance_id sp s) pre s0 in
  WorkerManager.startup all_modules instance_id s
  = (Raise JobAlreadyExistsException, refused instance_id spec s1)
  /\ rows (env (refused instance_id spec s1))
     = rows (env s0)
       ++ map (fun k => maintenance_job instance_id
                          (serial (env s0) + Z.of_nat k)%Z (now (env s0))
                          (nth k maintenance_jobs ("", None)))
              (seq 0 (length pre))
  /\ (forall loop,
        WorkerManager.init all_modules instance_id loop s
        = (Raise JobAlreadyExistsException, refused instance_id spec s1)).
Proof.
  intros V M H P s1.
  set (a := ("api", @None Z)) in *.
  set (b := ("expire-datasets", Some 300%Z)) in *.
  set (c := ("datasource-metrics", Some 86400%Z)) in *.
  set (d := ("clean-temp-files", Some 3600%Z)) in *.
  assert (R : WorkerManager.startup all_modules instance_id s
              = (Raise JobAlreadyExistsException, refused instance_id spec s1)).
  { unfold WorkerManager.startup. rewrite (bind_ok _ _ _ _ _ V).
    unfold maintenance_jobs in M. fold a b c d in M.
    destruct pre as [|p1 pre].
    { cbn [app] in M. inversion M; subst spec post. clear M.
      exact (bind_raise _ _ _ _ _ (queue_add_job_refused instance_id a s0 P)). }
    cbn [app] in M. inversion M as [[E1 M1]]. subst p1. clear M.
    assert (Ha : not_pending instance_id (fst a) (env s0))
      by (apply H; now left).
    rewrite (bind_ok _ _ _ _ _ (queue_add_job_ok instance_id a s0 Ha)).
    destruct pre as [|p2 pre].
    { cbn [app] in M1. inversion M1; subst spec post. clear M1.
      apply (pending_queued instance_id a) in P.
      exact (bind_raise _ _ _ _ _ (queue_add_job_refused instance_id b _ P)). }
    cbn [app] in M1. inversion M1 as [[E2 M2]]. subst p2. clear M1.
    assert (Hb : not_pending instance_id (fst b) (env s0))
      by (apply H; right; now left).
    assert (Hb1 := not_pending_queued instance_id a (fst b) s0 eq_refl Hb).
    rewrite (bind_ok _ _ _ _ _ (queue_add_job_ok instance_id b _ Hb1)).
    destruct pre as [|p3 pre].
    { cbn [app] in M2. inversion M2; subst spec post. clear M2.
      apply (pending_queued instance_id a), (pending_queued instance_id b) in P.
      exact (bind_raise _ _ _ _ _ (queue_add_job_refused instance_id c _ P)). }
    cbn [app] in M2. inversion M2 as [[E3 M3]]. subst p3. clear M2.
    assert (Hc : not_pending instance_id (fst c) (env s0))
      by (apply H; right; right; now left).
    assert (Hc1 := not_pending_queued instance_id a (fst c) s0 eq_refl Hc).
    assert (Hc2 := not_pending_queued instance_id b (fst c) _ eq_refl Hc1).
    rewrite (bind_ok _ _ _ _ _ (queue_add_job_ok instance_id c _ Hc2)).
    destruct pre as [|p4 pre].
    { cbn [app] in M3. inversion M3; subst spec post. clear M3.
      apply (pending_queued instance_id a), (pending_queued instance_id b),
        (pending_queued instance_id c) in P.
      exact (queue_add_job_refused instance_id d _ P). }
    cbn [app] in M3. inversion M3 as [[E4 M4]].
    now destruct pre. }
  split; [exact R|]. split.
  - assert (Lp : length pre <= 3).
    { apply (f_equal (@List.length _)) in M. rewrite length_app in M.
      cbn in M. lia. }
    assert (Ep : pre = firstn (length pre) maintenance_jobs).
    { rewrite M. rewrite firstn_app, Nat.sub_diag, firstn_all. cbn.
      now rewrite app_nil_r. }
    assert (G : forall n, n <= 3 ->
              rows (env (fold_left (fun s sp => queued instance_id sp s)
                                   (firstn n maintenance_jobs) s0))
              = rows (env s0)
                ++ map (fun k => maintenance_job instance_id
                                   (serial (env s0) + Z.of_nat k)%Z (now (env s0))
                                   (nth k maintenance_jobs ("", None)))
                       (seq 0 n)).
    { clear. intros n Ln. unfold maintenance_jobs.
      destruct n as [|[|[|[|n]]]]; [| | | |lia];
        cbn [firstn fold_left queued env rows serial now seq map nth
             maintenance_job fst snd];
        rewrite <- ?app_assoc; cbn [app]; rewrite ?app_nil_r, ?Z.add_0_r;
        try reflexivity; repeat f_equal; lia. }
    change (rows (env (refused instance_id spec s1))) with (rows (env s1)).
    unfold s1. rewrite Ep at 1. now apply G.
  - intros loop. unfold WorkerManager.init. now rewrite (bind_raise _ _ _ _ _ R).
Qed.

(** ** The URL of a board *)

Lemma append_inj_l (p a b : string) : (p ++ a = p ++ b)%string -> a = b.
Proof. induction p as [|c p IH]; cbn; intros H; [exact H|]. inversion H. auto. Qed.

Lemma append_length (a b : string) :
  String.length (a ++ b) = String.length a + String.length b.
Proof. induction a as [|c a IH]; cbn; [reflexivity|]. now rewrite IH. Qed.

Lemma append_inj_r (q : string) :
  forall a b : string, (a ++ q = b ++ q)%string -> a = b.
Proof.
  induction a as [|c a IH]; intros b H.
  - destruct b as [|c' b]; [reflexivity|].
    apply (f_equal String.length) in H. cbn in H. rewrite append_length in H. lia.
  - destruct b as [|c' b].
    + apply (f_equal String.length) in H. cbn in H. rewrite append_length in H. lia.
    + cbn in H. inversion H. f_equal. now apply IH.
Qed.

(** X15.  The URL to scrape names the board and nothing else of the job:
    two jobs with the same URL are for the same board. *)
Theorem get_url_names_one_board j1 j2 :
  BoardScraper.get_url j1 = BoardScraper.get_url j2 ->
  job_remote_id j1 = job_remote_id j2.
Proof.
  unfold BoardScraper.get_url. intros H.
  apply append_inj_l in H. now apply append_inj_r in H.
Qed.

(** ** What a tick asks of the queue *)

Lemma tick_queue_calls_app all_modules s evs1 evs2 :
  tick_queue_calls all_modules s evs1 ->
  tick_queue_calls all_modules s evs2 ->
  tick_queue_calls all_modules s (evs1 ++ evs2).
Proof.
  intros H1 H2 ev I. apply in_app_or in I.
  destruct I as [I|I]; [exact (H1 ev I)|exact (H2 ev I)].
Qed.

Lemma tick_work_queue_calls all_modules s :
  exists s1 evs,
    tick_work all_modules s = (Ok tt, s1)
    /\ trace s1 = trace s ++ evs
    /\ tick_queue_calls all_modules s evs.
Proof.
  destruct (tick_work_inv
              (fun s' => now (env s') = now (env s)
                         /\ exists evs, trace s' = trace s ++ evs
                                        /\ tick_queue_calls all_modules s evs)
              all_modules s) as [s1 [W [_ [evs [T Q]]]]].
  - split; [reflexivity|]. exists []. split; [now rewrite app_nil_r|].
    intros ev [].
  - intros jt w s' [N [evs [T Q]]] E _. rewrite reconciled_env.
    split; [exact N|]. unfold reconciled.
    destruct (alive w (env s')); [destruct (to_interrupt _ w s')|].
    + exists (evs ++ [EvInterrupt (wid w) None]). cbn [interrupted trace].
      split; [now rewrite T, app_assoc|].
      apply tick_queue_calls_app; [exact Q|]. intros ev [<-|[]]. exact I.
    + now exists evs.
    + exists (evs ++ [EvJoin (wid w)]). cbn [joined trace].
      split; [now rewrite T, app_assoc|].
      apply tick_queue_calls_app; [exact Q|]. intros ev [<-|[]]. exact I.
  - intros j s' [N [evs [T Q]]] Ij.
    assert (Ek : env (with_key (job_jobtype j) s') = env s')
      by (unfold with_key; now destruct (Py.get _ (worker_pool s'))).
    assert (Tk : trace (with_key (job_jobtype j) s') = trace s')
      by (unfold with_key; now destruct (Py.get _ (worker_pool s'))).
    destruct (assigned_cases all_modules j s')
      as [E|[E|[Cl [wc [G [_ [E|[e' [Cm E]]]]]]]]]; rewrite E.
    + split; [exact N|now exists evs].
    + rewrite Ek, Tk. split; [exact N|now exists evs].
    + assert (Qj : tick_queue_calls all_modules s [EvClaim j]).
      { intros ev [<-|[]]. rewrite <- N. split; [exact Ij|].
        split; [exact Cl|congruence]. }
      cbn [claim_lost env trace]. rewrite Ek, Tk. split; [exact N|].
      exists (evs ++ [EvClaim j]). split; [now rewrite T, app_assoc|].
      now apply tick_queue_calls_app.
    + assert (Qj : tick_queue_calls all_modules s
                     [EvClaim j; EvStart (next_wid (with_key (job_jobtype j) s'))]).
      { intros ev [<-|[<-|[]]]; [|exact I]. rewrite <- N. split; [exact Ij|].
        split; [exact Cl|congruence]. }
      cbn [started env trace with_live now]. rewrite Tk. split.
      * destruct (claim_cases j (env s')) as [K|[e2 [K [_ [Nw _]]]]];
          rewrite K in Cm; inversion Cm; subst e2. congruence.
      * eexists. split; [now rewrite T, <- app_assoc|].
        now apply tick_queue_calls_app.
  - now exists s1, evs.
Qed.

(** X16.  All a tick asks of the queue is one enumeration and claims: it
    claims only jobs of that enumeration that were claimable when the tick
    began and whose jobtype has a registered worker class, and it never
    releases, finishes or adds a job. *)
Theorem delegate_claims_only_waiting_jobs all_modules s :
  exists evs,
    trace (exec (WorkerManager.delegate all_modules) s) = trace s ++ evs
    /\ (forall j, In (EvClaim j) evs ->
                  In j (rows (env s))
                  /\ Queue.is_claimable (now (env s)) j = true
                  /\ Py.get (job_jobtype j) (workers all_modules) <> None)
    /\ (forall j delay claim_after, ~ In (EvRelease j delay claim_after) evs)
    /\ (forall j delete, ~ In (EvFinish j delete) evs)
    /\ (forall jobtype remote_id interval instance,
          ~ In (EvAddJob jobtype remote_id interval instance) evs).
Proof.
  destruct (tick_work_queue_calls all_modules s) as [s1 [evs [W [T Q]]]].
  assert (R : forall evs', tick_queue_calls all_modules s evs' ->
                (forall j, In (EvClaim j) evs' ->
                           In j (rows (env s))
                           /\ Queue.is_claimable (now (env s)) j = true
                           /\ Py.get (job_jobtype j) (workers all_modules) <> None)
                /\ (forall j delay claim_after,
                      ~ In (EvRelease j delay claim_after) evs')
                /\ (forall j delete, ~ In (EvFinish j delete) evs')
                /\ (forall jobtype remote_id interval instance,
                      ~ In (EvAddJob jobtype remote_id interval instance) evs')).
  { intros evs' Q'. split; [intros j I; exact (Q' _ I)|].
    split; [intros j d c I; exact (Q' _ I)|].
    split; [intros j d I; exact (Q' _ I)|].
    intros a b c d I. exact (Q' _ I). }
  unfold exec. rewrite delegate_split, (bind_ok _ _ _ _ _ W).
  unfold time_sleep. destruct (sched s1) as [|move rest]; cbn [snd trace].
  - exists evs. split; [exact T|]. now apply R.
  - exists (evs ++ [EvSleep 1000]). split; [now rewrite T, app_assoc|].
    apply R. apply tick_queue_calls_app; [exact Q|]. intros ev [<-|[]]. exact I.
Qed.

(** ** The board scraper, once more *)

Lemma save_thread_incomplete thread j s :
  incomplete thread ->
  BoardScraper.save_thread thread j s = (Ok 0%Z, s).
Proof.
  intros H. unfold BoardScraper.save_thread, BoardScraper.required_fields,
    existsb, BoardScraper.has_key.
  destruct H as [H|H]; rewrite H.
  - reflexivity.
  - destruct (Py.get "no" thread); reflexivity.
Qed.

Lemma process_threads_incomplete j :
  forall ts acc s,
    (forall t, In t ts -> incomplete t) ->
    BoardScraper.process_threads ts j acc s
    = (Ok acc, moved (Z.of_nat (length ts)) s).
Proof.
  induction ts as [|t ts IH]; intros acc s H.
  - cbn. unfold ret, moved. rewrite Z.add_0_r. now destruct s.
  - cbn [BoardScraper.process_threads].
    unfold bind at 1, modify at 1.
    rewrite (bind_ok _ _ _ _ _
               (save_thread_incomplete t j _ (H t (or_introl eq_refl)))).
    rewrite IH by (intros t' I; apply H; now right).
    rewrite Z.add_0_r. unfold moved.
    cbn [BoardScraper.position BoardScraper.loop_time BoardScraper.world].
    f_equal. f_equal. cbn [List.length]. lia.
Qed.

(** X12.  A thread that lacks [no] or [last_modified] is ignored:
    [save_thread] returns 0 for it and queues no job and writes no row.
    [process] still counts it as a position: over pages of such threads
    only, it reports no new thread and leaves the queue and the table as
    they were, while the position has advanced by the number of
    threads. *)
Theorem process_ignores_incomplete_threads data j s :
  (forall t, In t (List.concat data) -> incomplete t) ->
  (forall t s0, In t (List.concat data) ->
                BoardScraper.save_thread t j s0 = (Ok 0%Z, s0))
  /\ BoardScraper.process data j s
     = (Ok 0%Z, moved (Z.of_nat (length (List.concat data))) s).
Proof.
  intros H. split.
  - intros t s0 I. apply save_thread_incomplete. now apply H.
  - unfold BoardScraper.process. now apply process_threads_incomplete.
Qed.

Lemma recorded_ids s no last_modified board :
  map thread_id (recorded s no last_modified board)
  = map thread_id (threads (BoardScraper.world s))
    ++ (if (new_threads s no =? 1)%Z then [no] else []).
Proof.
  unfold recorded, new_threads. rewrite map_map.
  set (upd := fun r : ThreadRow => thread_id (if (thread_id r =? no)%Z then _ else r)).
  assert (U : forall l, map upd l = map thread_id l).
  { intros l. apply map_ext. intros r. unfold upd.
    now destruct (thread_id r =? no)%Z. }
  rewrite U.
  destruct (find _ (threads (BoardScraper.world s))); cbn.
  - now rewrite app_nil_r.
  - now rewrite map_app.
Qed.

Lemma new_threads_absent s no :
  new_threads s no = 1%Z ->
  ~ In no (map thread_id (threads (BoardScraper.world s))).
Proof.
  unfold new_threads.
  destruct (find _ (threads (BoardScraper.world s))) eqn:F; [discriminate|].
  intros _ I. apply in_map_iff in I. destruct I as [r [E I]].
  apply (find_none _ _ F) in I. cbn in I. apply Z.eqb_neq in I. auto.
Qed.

Lemma new_threads_cases s no : new_threads s no = 0%Z \/ new_threads s no = 1%Z.
Proof. unfold new_threads. destruct (find _ _); auto. Qed.

Lemma save_thread_step thread j s :
  exists n s',
    BoardScraper.save_thread thread j s = (Ok n, s')
    /\ Z.of_nat (length (threads (BoardScraper.world s')))
       = (Z.of_nat (length (threads (BoardScraper.world s))) + n)%Z
    /\ (0 <= n <= 1)%Z
    /\ BoardScraper.position s' = BoardScraper.position s
    /\ BoardScraper.loop_time s' = BoardScraper.loop_time s
    /\ (NoDup (map thread_id (threads (BoardScraper.world s))) ->
        NoDup (map thread_id (threads (BoardScraper.world s')))).
Proof.
  destruct (Py.get "no" thread) as [no|] eqn:N;
    [destruct (Py.get "last_modified" thread) as [lm|] eqn:L|].
  - rewrite (save_thread_eq thread j s no lm N L).
    eexists _, _. split; [reflexivity|].
    cbn [BoardScraper.world BoardScraper.position BoardScraper.loop_time
         with_threads threads].
    assert (Ids := recorded_ids s no lm (job_remote_id j)).
    split; [|split; [|split; [reflexivity|split; [reflexivity|]]]].
    + rewrite <- (length_map thread_id (recorded _ _ _ _)), Ids,
        length_app, length_map.
      destruct (new_threads_cases s no) as [E|E]; rewrite E; cbn; lia.
    + destruct (new_threads_cases s no) as [E|E]; rewrite E; lia.
    + intros ND. rewrite Ids.
      destruct (new_threads_cases s no) as [E|E]; rewrite E; cbn.
      * now rewrite app_nil_r.
      * apply NoDup_app; auto.
        -- constructor; [intros []|constructor].
        -- intros a Ia [Ea|[]]. subst a. now apply (new_threads_absent s no E).
  - rewrite (save_thread_incomplete thread j s (or_intror L)).
    exists 0%Z, s. repeat split; auto; lia.
  - rewrite (save_thread_incomplete thread j s (or_introl N)).
    exists 0%Z, s. repeat split; auto; lia.
Qed.

Lemma process_threads_step j :
  forall ts acc s,
    exists n s',
      BoardScraper.process_threads ts j acc s = (Ok n, s')
      /\ (n - acc)%Z
         = (Z.of_nat (length (threads (BoardScraper.world s')))
            - Z.of_nat (length (threads (BoardScraper.world s))))%Z
      /\ (0 <= n - acc <= Z.of_nat (length ts))%Z
      /\ BoardScraper.position s'
         = (BoardScraper.position s + Z.of_nat (length ts))%Z
      /\ BoardScraper.loop_time s' = BoardScraper.loop_time s
      /\ (NoDup (map thread_id (threads (BoardScraper.world s))) ->
          NoDup (map thread_id (threads (BoardScraper.world s')))).
Proof.
  induction ts as [|t ts IH]; intros acc s.
  - exists acc, s. cbn. unfold ret. repeat split; auto; lia.
  - cbn [BoardScraper.process_threads].
    unfold bind at 1, modify at 1.
    destruct (save_thread_step t j
                (BoardScraper.mkScraper (BoardScraper.position s + 1)%Z
                   (BoardScraper.loop_time s) (BoardScraper.world s)))
      as [n1 [s1 [R [Len [Bd [Pos [Lt ND]]]]]]].
    cbn [BoardScraper.world BoardScraper.position BoardScraper.loop_time] in *.
    rewrite (bind_ok _ _ _ _ _ R).
    destruct (IH (acc + n1)%Z s1) as [n [s' [R' [Len' [Bd' [Pos' [Lt' ND']]]]]]].
    exists n, s'. split; [exact R'|].
    split; [lia|]. split; [cbn [List.length]; lia|]. split; [rewrite Pos', Pos; cbn [List.length]; lia|].
    split; [congruence|auto].
Qed.

Lemma recorded_other s no last_modified board r :
  thread_id r <> no ->
  In r (recorded s no last_modified board)
  <-> In r (threads (BoardScraper.world s)).
Proof.
  intros D. unfold recorded.
  set (upd := fun r : ThreadRow => if (thread_id r =? no)%Z then _ else r).
  assert (Keep : forall r', thread_id r' <> no -> upd r' = r').
  { intros r' D'. unfold upd. apply Z.eqb_neq in D'. now rewrite D'. }
  assert (Id : forall r', thread_id (upd r') = thread_id r').
  { intros r'. unfold upd. now destruct (thread_id r' =? no)%Z. }
  split.
  - intros I. apply in_map_iff in I. destruct I as [r' [E I]].
    assert (D' : thread_id r' <> no) by (rewrite <- Id, E; exact D).
    rewrite (Keep r' D') in E. subst r'.
    destruct (find _ (threads (BoardScraper.world s))); auto.
    apply in_app_or in I. destruct I as [I|[I|[]]]; auto.
    subst r. now elim D.
  - intros I. apply in_map_iff. exists r. split; [now apply Keep|].
    destruct (find _ (threads (BoardScraper.world s))); auto.
    apply in_or_app. now left.
Qed.

(** X13.  A thread is never recorded twice: when the [threads] table holds
    at most one row per thread id, it still does after [save_thread] and
    after [process], whatever the pages hold; and [save_thread] touches no
    row of another thread. *)
Theorem save_thread_keeps_thread_ids_unique thread j s :
  NoDup (map thread_id (threads (BoardScraper.world s))) ->
  let after m := threads (BoardScraper.world (exec m s)) in
  NoDup (map thread_id (after (BoardScraper.save_thread thread j)))
  /\ (forall no r,
        Py.get "no" thread = Some no -> thread_id r <> no ->
        (In r (after (BoardScraper.save_thread thread j))
         <-> In r (threads (BoardScraper.world s))))
  /\ (forall data, NoDup (map thread_id (after (BoardScraper.process data j)))).
Proof.
  intros ND after. split; [|split].
  - unfold after, exec.
    destruct (save_thread_step thread j s) as [n [s' [R [_ [_ [_ [_ K]]]]]]].
    rewrite R. now apply K.
  - intros no r N D. unfold after, exec.
    destruct (Py.get "last_modified" thread) as [lm|] eqn:L.
    + rewrite (save_thread_eq thread j s no lm N L).
      cbn [snd BoardScraper.world with_threads threads].
      now apply recorded_other.
    + rewrite (save_thread_incomplete thread j s (or_intror L)). reflexivity.
  - intros data. unfold after, exec, BoardScraper.process.
    destruct (process_threads_step j (List.concat data) 0%Z s)
      as [n [s' [R [_ [_ [_ [_ K]]]]]]].
    rewrite R. now apply K.
Qed.

(** X14.  [process] never raises; the number of new threads it reports is
    the number of rows it added to the [threads] table, at most one per
    thread of the pages; and it advances the position by one for every
    thread of the pages, complete or not. *)
Theorem process_counts_new_rows data j s :
  exists n s',
    BoardScraper.process data j s = (Ok n, s')
    /\ n = (Z.of_nat (length (threads (BoardScraper.world s')))
            - Z.of_nat (length (threads (BoardScraper.world s))))%Z
    /\ (0 <= n <= Z.of_nat (length (List.concat data)))%Z
    /\ BoardScraper.position s'
       = (BoardScraper.position s + Z.of_nat (length (List.concat data)))%Z
    /\ BoardScraper.loop_time s' = BoardScraper.loop_time s.
Proof.
  unfold BoardScraper.process.
  destruct (process_threads_step j (List.concat data) 0%Z s)
    as [n [s' [R [Len [Bd [Pos [Lt _]]]]]]].
  exists n, s'. split; [exact R|].
  split; [lia|]. split; [lia|]. split; [exact Pos|exact Lt].
Qed.

(** * The reconciliation pass, entry by entry *)

(** ** The workers a pass meets *)

Lemma pool_of_reconciled known jt w s :
  pool_of jt (reconciled known jt w s)
  = if alive w (env s) then pool_of jt s
    else Py.remove worker_eqb w (pool_of jt s).
Proof.
  unfold reconciled.
  destruct (alive w (env s)); [destruct (to_interrupt known w s); reflexivity|].
  now rewrite pool_of_joined, String.eqb_refl.
Qed.

Lemma pass_over_env known jt m :
  forall s, env (pass_over known jt m s) = env s.
Proof.
  induction m as [|w m IH]; intros s; [reflexivity|].
  cbn [pass_over fold_left]. fold (pass_over known jt m (reconciled known jt w s)).
  now rewrite IH, reconciled_env.
Qed.

(** The pass is the sequence of steps on the workers it meets. *)
Lemma reconcile_from_met known jt :
  forall fuel i s,
    WorkerManager.reconcile_from fuel i known jt s
    = (Ok tt, pass_over known jt (met_at (env s) fuel i (pool_of jt s)) s).
Proof.
  induction fuel as [|fuel IH]; intros i s; [reflexivity|].
  rewrite reconcile_from_eq. cbn [met_at].
  destruct (nth_error (pool_of jt s) i) as [w|]; [|reflexivity].
  rewrite IH, reconciled_env, pool_of_reconciled. reflexivity.
Qed.

Lemma reconcile_pool_met known jt s :
  WorkerManager.reconcile_pool known jt s
  = (Ok tt,
     pass_over known jt
       (met_at (env s) (length (pool_of jt s)) 0 (pool_of jt s)) s).
Proof.
  unfold WorkerManager.reconcile_pool, bind at 1, gets at 1.
  apply reconcile_from_met.
Qed.

Lemma met_at_In e :
  forall fuel i l w, In w (met_at e fuel i l) -> In w l.
Proof.
  induction fuel as [|fuel IH]; intros i l w; [intros []|].
  cbn [met_at]. destruct (nth_error l i) as [x|] eqn:N; [|intros []].
  intros [E|I].
  - subst x. now apply nth_error_In in N.
  - apply IH in I. destruct (alive x e); [exact I|].
    now apply (remove_In _ _ _ _ I).
Qed.

(** On a list without repetitions the index steps over the entry behind a
    stopped worker. *)
Lemma met_at_met e :
  forall fuel pre rest,
    NoDup (map wid (pre ++ rest)) ->
    length rest <= fuel ->
    met_at e fuel (length pre) (pre ++ rest) = met e false rest.
Proof.
  induction fuel as [|fuel IH]; intros pre rest ND L.
  - destruct rest; [reflexivity|cbn in L; lia].
  - cbn [met_at]. destruct rest as [|x r].
    + rewrite app_nil_r.
      replace (nth_error pre (length pre)) with (@None Worker)
        by (symmetry; apply nth_error_None; lia).
      reflexivity.
    + rewrite nth_error_app2, Nat.sub_diag by lia. cbn [nth_error met].
      f_equal. destruct (alive x e); cbn [negb].
      * replace (pre ++ x :: r) with ((pre ++ [x]) ++ r)
          by now rewrite <- app_assoc.
        replace (S (length pre)) with (length (pre ++ [x]))
          by (rewrite length_app; cbn; lia).
        apply IH; [now rewrite <- app_assoc|cbn in L; lia].
      * assert (Nx : ~ In (wid x) (map wid pre)).
        { rewrite map_app in ND. cbn [map] in ND. apply NoDup_remove_2 in ND.
          intros I. apply ND. apply in_or_app. now left. }
        rewrite (remove_middle x pre r Nx).
        assert (ND1 : NoDup (map wid (pre ++ r))).
        { rewrite map_app in *. cbn [map] in ND. now apply NoDup_remove_1 in ND. }
        destruct r as [|y r]; cbn [met].
        -- destruct fuel; [reflexivity|]. cbn [met_at]. rewrite app_nil_r.
           replace (nth_error pre (S (length pre))) with (@None Worker)
             by (symmetry; apply nth_error_None; lia).
           reflexivity.
        -- replace (pre ++ y :: r) with ((pre ++ [y]) ++ r)
             by now rewrite <- app_assoc.
           replace (S (length pre)) with (length (pre ++ [y]))
             by (rewrite length_app; cbn; lia).
           apply IH; [now rewrite <- app_assoc|cbn in L; lia].
Qed.

Lemma meets_met w jt s :
  NoDup (map wid (pool_of jt s)) ->
  (meets w jt s <-> In w (met (env s) false (pool_of jt s))).
Proof.
  intros ND. unfold meets.
  assert (E := met_at_met (env s) (length (pool_of jt s)) [] (pool_of jt s) ND
                 (Nat.le_refl _)).
  cbn [app List.length] in E. now rewrite E.
Qed.

Lemma met_In e : forall l b w, In w (met e b l) -> In w l.
Proof.
  induction l as [|x l IH]; intros b w; [intros []|]. cbn [met].
  destruct b.
  - intros I. right. now apply (IH false).
  - intros [E|I]; [now left|right; now apply (IH _ _ I)].
Qed.

(** Behind running workers only, a worker is met. *)
Lemma met_behind_running e w :
  forall pre post,
    (forall x, In x pre -> alive x e = true) ->
    In w (met e false (pre ++ w :: post)).
Proof.
  induction pre as [|x pre IH]; intros post A; cbn [app met]; [now left|].
  rewrite (A x) by now left. cbn [negb]. right. apply IH.
  intros y I. apply A. now right.
Qed.

(** A worker directly behind a stopped worker that is met is stepped
    over. *)
Lemma met_steps_over e w1 w2 post :
  alive w1 e = false ->
  forall pre b,
    NoDup (map wid (pre ++ w1 :: w2 :: post)) ->
    In w1 (met e b (pre ++ w1 :: w2 :: post)) ->
    ~ In w2 (met e b (pre ++ w1 :: w2 :: post)).
Proof.
  intros D. induction pre as [|x pre IH]; intros b ND I.
  - cbn [app] in *. cbn [map] in ND.
    inversion ND as [|? ? N1 ND1]; subst. inversion ND1 as [|? ? N2 ND2]; subst.
    assert (W2 : ~ In w2 post).
    { intros K. apply N2. now apply in_map. }
    assert (W1 : ~ In w1 (w2 :: post)).
    { intros K. apply N1. now apply (in_map wid) in K. }
    destruct b; cbn [met] in *.
    + exfalso. apply W1. destruct I as [I|I]; [now left|].
      right. now apply (met_In e _ _ _ I).
    + rewrite D. cbn [negb met]. intros [K|K].
      * apply W1. now left.
      * apply W2. now apply (met_In e _ _ _ K).
  - cbn [app map] in ND. inversion ND as [|? ? Nx NDx]; subst.
    assert (X1 : x <> w1).
    { intros E. subst x. apply Nx. rewrite map_app. apply in_or_app. right.
      now left. }
    assert (X2 : x <> w2).
    { intros E. subst x. apply Nx. rewrite map_app. apply in_or_app. right.
      right. now left. }
    cbn [app met] in *. destruct b.
    + now apply IH.
    + destruct I as [I|I]; [now elim X1|].
      intros [K|K]; [now elim X2|]. revert K. now apply IH.
Qed.

Lemma wid_inj (l : list Worker) x y :
  NoDup (map wid l) -> In x l -> In y l -> wid x = wid y -> x = y.
Proof.
  induction l as [|z l IH]; [intros _ []|]. cbn [map].
  intros ND Ix Iy E. inversion ND as [|? ? Nz ND']; subst.
  destruct Ix as [Ix|Ix], Iy as [Iy|Iy]; subst; auto.
  - exfalso. apply Nz. rewrite E. now apply in_map.
  - exfalso. apply Nz. rewrite <- E. now apply in_map.
Qed.

Lemma met_NoDup e :
  forall l b, NoDup (map wid l) -> NoDup (map wid (met e b l)).
Proof.
  induction l as [|x l IH]; intros b ND; [constructor|].
  cbn [map] in ND. inversion ND as [|? ? Nx ND']; subst. cbn [met].
  destruct b; [now apply IH|]. cbn [map]. constructor; [|now apply IH].
  intros K. apply Nx. apply in_map_iff in K. destruct K as [y [Ey Iy]].
  rewrite <- Ey. apply in_map. now apply (met_In e _ _ _ Iy).
Qed.

(** Removing a worker leaves a stretch of other workers where it is. *)
Lemma remove_around (x : Worker) mid b :
  ~ In (wid x) (map wid mid) ->
  forall a,
    exists a' b',
      Py.remove worker_eqb x (a ++ mid ++ b) = a' ++ mid ++ b'
      /\ incl a' a /\ incl b' b.
Proof.
  intros N.
  assert (M : Py.remove worker_eqb x (mid ++ b)
              = mid ++ Py.remove worker_eqb x b).
  { induction mid as [|y mid IH]; [reflexivity|]. cbn [app Py.remove].
    unfold worker_eqb at 1.
    destruct (Nat.eqb (wid x) (wid y)) eqn:E.
    - apply Nat.eqb_eq in E. exfalso. apply N. cbn [map]. now left.
    - rewrite IH; [reflexivity|]. intros K. apply N. cbn [map]. now right. }
  induction a as [|y a IH].
  - exists [], (Py.remove worker_eqb x b). cbn [app]. rewrite M.
    split; [reflexivity|]. split; [apply incl_refl|].
    intros z I. now apply (remove_In _ _ _ _ I).
  - cbn [app Py.remove]. destruct (worker_eqb x y).
    + exists a, b. split; [reflexivity|].
      split; [apply incl_tl, incl_refl|apply incl_refl].
    + destruct IH as [a' [b' [E [Ia Ib]]]]. exists (y :: a'), b'.
      cbn [app]. rewrite E. split; [reflexivity|].
      split; [|exact Ib]. intros z [I|I]; [now left|right; now apply Ia].
Qed.

Section Pass.

Variable known : list Z.
Variable jt : string.
Variable e : Env.

(** The workers of a stretch that the pass does not meet stay together,
    and in place, between what is left of the entries around them. *)
Lemma pass_over_around mid :
  forall m s a b,
    env s = e ->
    pool_of jt s = a ++ mid ++ b ->
    (forall x, In x m -> ~ In (wid x) (map wid mid)) ->
    exists a' b',
      pool_of jt (pass_over known jt m s) = a' ++ mid ++ b'
      /\ incl a' a /\ incl b' b.
Proof.
  induction m as [|x m IH]; intros s a b E P N.
  - exists a, b. split; [exact P|]. split; apply incl_refl.
  - cbn [pass_over fold_left]. fold (pass_over known jt m (reconciled known jt x s)).
    assert (Q : exists a1 b1,
               pool_of jt (reconciled known jt x s) = a1 ++ mid ++ b1
               /\ incl a1 a /\ incl b1 b).
    { rewrite pool_of_reconciled. destruct (alive x (env s)).
      - exists a, b. split; [exact P|]. split; apply incl_refl.
      - rewrite P. apply remove_around. apply N. now left. }
    destruct Q as [a1 [b1 [P1 [Ia Ib]]]].
    destruct (IH (reconciled known jt x s) a1 b1) as [a' [b' [P' [Ia' Ib']]]].
    + now rewrite reconciled_env.
    + exact P1.
    + intros y I. apply N. now right.
    + exists a', b'. split; [exact P'|].
      split; eapply incl_tran; eauto.
Qed.

(** The joins of a pass are joins of workers it met. *)
Lemma pass_over_trace :
  forall m s,
    exists evs,
      trace (pass_over known jt m s) = trace s ++ evs
      /\ forall v, In (EvJoin v) evs -> In v (map wid m).
Proof.
  induction m as [|x m IH]; intros s.
  - exists []. split; [now rewrite app_nil_r|intros v []].
  - cbn [pass_over fold_left]. fold (pass_over known jt m (reconciled known jt x s)).
    destruct (IH (reconciled known jt x s)) as [evs [T J]].
    assert (Q : exists ev, trace (reconciled known jt x s) = trace s ++ ev
                           /\ forall v, In (EvJoin v) ev -> v = wid x).
    { unfold reconciled. destruct (alive x (env s)).
      - destruct (to_interrupt known x s).
        + exists [EvInterrupt (wid x) None]. split; [reflexivity|].
          intros v [K|[]]. discriminate.
        + exists []. split; [now rewrite app_nil_r|intros v []].
      - exists [EvJoin (wid x)]. split; [reflexivity|].
        intros v [K|[]]. now inversion K. }
    destruct Q as [ev [Tx Jx]]. exists (ev ++ evs).
    split; [now rewrite T, Tx, app_assoc|].
    intros v I. apply in_app_or in I. cbn [map]. destruct I as [I|I].
    + left. symmetry. now apply Jx.
    + right. now apply J.
Qed.

Lemma pass_over_sub :
  forall m s x, In x (pool_of jt (pass_over known jt m s)) -> In x (pool_of jt s).
Proof.
  induction m as [|y m IH]; intros s x I; [exact I|].
  cbn [pass_over fold_left] in I.
  fold (pass_over known jt m (reconciled known jt y s)) in I.
  apply IH in I. rewrite pool_of_reconciled in I.
  destruct (alive y (env s)); [exact I|]. now apply (remove_In _ _ _ _ I).
Qed.

(** A stopped worker that the pass meets, directly followed by another
    entry: the first is joined, once, and removed; the second is stepped
    over and stays, between what is left of the entries around the two. *)
Lemma pass_over_pair s pre w1 w2 post :
  env s = e ->
  NoDup (map wid (pool_of jt s)) ->
  pool_of jt s = pre ++ w1 :: w2 :: post ->
  In w1 (met e false (pool_of jt s)) ->
  alive w1 e = false ->
  let s' := pass_over known jt (met e false (pool_of jt s)) s in
  exists pre' post' evs1 evs2,
    pool_of jt s' = pre' ++ w2 :: post'
    /\ incl pre' pre /\ incl post' post
    /\ trace s' = trace s ++ evs1 ++ EvJoin (wid w1) :: evs2
    /\ ~ In (EvJoin (wid w1)) (evs1 ++ evs2)
    /\ ~ In (EvJoin (wid w2)) (evs1 ++ evs2)
    /\ ~ In (wid w1) (map wid (pool_of jt s')).
Proof.
  intros E ND P M D s'.
  set (l := pool_of jt s) in *.
  assert (I1 : In w1 l) by (rewrite P; apply in_or_app; right; now left).
  assert (I2 : In w2 l)
    by (rewrite P; apply in_or_app; right; right; now left).
  assert (N12 : wid w1 <> wid w2).
  { rewrite P, map_app in ND. apply NoDup_app_remove_l in ND.
    cbn [map] in ND. inversion ND as [|? ? K _]. intros Q. apply K.
    rewrite Q. now left. }
  assert (S2 : ~ In w2 (met e false l)).
  { rewrite P. apply met_steps_over; auto; now rewrite <- P. }
  assert (W2 : ~ In (wid w2) (map wid (met e false l))).
  { intros K. apply in_map_iff in K. destruct K as [x [Ex Ix]].
    apply S2. assert (x = w2); [|now subst x].
    apply (wid_inj l); auto. now apply (met_In e _ _ _ Ix). }
  assert (NDm := met_NoDup e l false ND).
  destruct (in_split _ _ M) as [m1 [m2 Em]]. unfold s'. rewrite Em in *.
  assert (W1 : ~ In (wid w1) (map wid (m1 ++ m2))).
  { rewrite map_app in NDm. cbn [map] in NDm.
    apply NoDup_remove_2 in NDm. now rewrite map_app. }
  unfold pass_over. rewrite fold_left_app. cbn [fold_left].
  fold (pass_over known jt m1 s).
  set (sa := pass_over known jt m1 s).
  fold (pass_over known jt m2 (reconciled known jt w1 sa)).
  (* up to the first worker *)
  destruct (pass_over_around [w1; w2] m1 s pre post E P) as [a [b [Pa [Ia Ib]]]].
  { intros x Ix [K|[K|[]]].
    - apply W1. rewrite map_app. apply in_or_app. left. rewrite K.
      now apply in_map.
    - apply W2. rewrite map_app. apply in_or_app. left. rewrite K.
      now apply in_map. }
  fold sa in Pa. cbn [app] in Pa.
  assert (Ea : env sa = e) by (unfold sa; now rewrite pass_over_env).
  destruct (pass_over_trace m1 s) as [evs1 [T1 J1]]. fold sa in T1.
  (* the first worker is joined *)
  assert (Na : ~ In (wid w1) (map wid a)).
  { intros K. apply in_map_iff in K. destruct K as [x [Ex Ix]].
    apply Ia in Ix. rewrite P, map_app in ND. cbn [map] in ND.
    apply NoDup_remove_2 in ND. apply ND. apply in_or_app. left.
    rewrite <- Ex. now apply in_map. }
  assert (Rw : reconciled known jt w1 sa = joined jt w1 sa).
  { unfold reconciled. now rewrite Ea, D. }
  rewrite Rw.
  assert (Pj : pool_of jt (joined jt w1 sa) = a ++ [w2] ++ b).
  { rewrite pool_of_joined, String.eqb_refl, Pa. now apply remove_middle. }
  (* the rest of the pass *)
  destruct (pass_over_around [w2] m2 (joined jt w1 sa) a b) as [a' [b' [P' [Ia' Ib']]]];
    auto.
  { intros x Ix [K|[]]. apply W2. rewrite map_app. apply in_or_app. right.
    cbn [map]. right. rewrite K. now apply in_map. }
  destruct (pass_over_trace m2 (joined jt w1 sa)) as [evs2 [T2 J2]].
  exists a', b', evs1, evs2. cbn [app] in P'.
  split; [exact P'|].
  split; [eapply incl_tran; eauto|]. split; [eapply incl_tran; eauto|].
  split.
  { rewrite T2. cbn [joined trace]. rewrite T1, <- !app_assoc. reflexivity. }
  split.
  { intros K. apply W1. rewrite map_app. apply in_app_or in K.
    apply in_or_app. destruct K as [K|K]; [left; now apply J1|right; now apply J2]. }
  split.
  { intros K. apply W2. rewrite map_app. apply in_app_or in K.
    apply in_or_app. destruct K as [K|K]; [left; now apply J1|].
    right. cbn [map]. right. now apply J2. }
  rewrite P'. intros K. apply in_map_iff in K. destruct K as [x [Ex Ix]].
  assert (Ix' : In x (a ++ w2 :: b)).
  { apply in_app_or in Ix. apply in_or_app.
    destruct Ix as [Ix|[Ix|Ix]]; [left; now apply Ia'|right; now left|].
    right. right. now apply Ib'. }
  apply in_app_or in Ix'. destruct Ix' as [Ix'|[Ix'|Ix']].
  - apply Na. rewrite <- Ex. now apply in_map.
  - subst x. now apply N12.
  - apply Ib in Ix'. rewrite P, map_app in ND. cbn [map] in ND.
    apply NoDup_remove_2 in ND. apply ND. apply in_or_app. right.
    cbn [map]. right. rewrite <- Ex. now apply in_map.
Qed.

End Pass.

(** ** The interrupt of a worker that the pass meets *)

Section Met.

Variable wk : Worker.
Variable known : list Z.
Variable e : Env.

Hypothesis wk_alive : alive wk e = true.
Hypothesis job_gone : ~ In (job_id (job wk)) known.

Lemma pending_met jt c s :
  pending wk e c s ->
  interrupts_of (wid wk) (trace (reconciled known jt wk s)) = c + 1.
Proof.
  intros [E [NS [_ C]]]. unfold reconciled, to_interrupt.
  rewrite E, wk_alive.
  apply mem_false in NS. apply mem_false in job_gone.
  rewrite NS, job_gone. cbn [negb andb interrupted trace].
  rewrite interrupts_of_app. cbn. rewrite Nat.eqb_refl. lia.
Qed.

(** Meeting another worker changes nothing of this. *)
Lemma pending_passed jt c s w :
  pending wk e c s -> In w (pool_of jt s) -> wid w <> wid wk ->
  pending wk e c (reconciled known jt w s).
Proof.
  intros [E [NS [Sole C]]] I N.
  assert (Iw := pool_of_workers _ _ _ I).
  assert (Nj : job_id (job w) <> job_id (job wk)).
  { intros K. apply N. now rewrite (Sole w Iw (or_intror K)). }
  unfold reconciled. destruct (alive w (env s)).
  - destruct (to_interrupt known w s); [|now repeat split].
    split; [exact E|]. split; [|split; [exact Sole|]].
    + cbn [interrupted stopping_workers]. intros K. apply in_app_or in K.
      destruct K as [K|[K|[]]]; [contradiction|congruence].
    + cbn [interrupted trace]. rewrite interrupts_of_app. cbn.
      destruct (Nat.eqb (wid wk) (wid w)) eqn:K; [|lia].
      apply Nat.eqb_eq in K. congruence.
  - split; [exact E|]. split; [|split].
    + cbn [joined stopping_workers].
      destruct (Py.mem (job_id (job w)) (stopping_workers s)); auto.
      intros K. apply NS. eapply remove_In; eauto.
    + intros w' I' K. apply Sole; auto.
      unfold pool_workers, joined in I'. cbn [worker_pool] in I'.
      apply workers_set in I'. destruct I' as [I'|I']; auto.
      apply remove_In in I'. eapply pool_of_workers; eauto.
    + cbn [joined trace]. rewrite interrupts_of_app. cbn. lia.
Qed.

(** The pass that meets the worker interrupts it. *)
Lemma reconcile_from_meets jt c :
  forall fuel i s,
    pending wk e c s ->
    In wk (met_at e fuel i (pool_of jt s)) ->
    exists s', WorkerManager.reconcile_from fuel i known jt s = (Ok tt, s')
               /\ c + 1 <= interrupts_of (wid wk) (trace s').
Proof.
  induction fuel as [|fuel IH]; intros i s W M; [destruct M|].
  rewrite reconcile_from_eq. cbn [met_at] in M.
  destruct (nth_error (pool_of jt s) i) as [w|] eqn:N; [|destruct M].
  apply nth_error_In in N.
  destruct (Nat.eq_dec (wid w) (wid wk)) as [Q|Q].
  - assert (w = wk).
    { destruct W as [_ [_ [Sole _]]]. apply Sole; auto.
      now apply (pool_of_workers jt). }
    subst w. apply reconcile_from_interrupts.
    rewrite (pending_met jt c s W). lia.
  - assert (Ew : env s = e) by now destruct W.
    apply IH.
    + now apply pending_passed.
    + rewrite pool_of_reconciled, Ew. destruct M as [M|M]; [|exact M].
      subst w. now elim Q.
Qed.

End Met.

(** A tick whose pass meets a running worker with its job gone and its id
    not in the stopping list interrupts that worker. *)
Lemma delegate_meets all_modules wk jt s :
  meets wk jt s ->
  alive wk (env s) = true ->
  ~ In (job_id (job wk)) (map job_id (rows (env s))) ->
  ~ In (job_id (job wk)) (stopping_workers s) ->
  sole_carrier wk s ->
  interrupts_of (wid wk) (trace s) + 1
  <= interrupts_of (wid wk) (trace (exec (WorkerManager.delegate all_modules) s)).
Proof.
  intros M A NK NS Sole.
  set (c := interrupts_of (wid wk) (trace s)).
  set (known := map job_id (rows (env s))) in *.
  set (Q := fun s' : State =>
              (pending wk (env s) c s' /\ pool_of jt s' = pool_of jt s)
              \/ c + 1 <= interrupts_of (wid wk) (trace s')).
  assert (Step : forall jt2 w s', Q s' -> In w (pool_of jt2 s') ->
                                  jt2 <> jt -> Q (reconciled known jt2 w s')).
  { intros jt2 w s' [[W P]|R] I N.
    2:{ right. eapply Nat.le_trans; [exact R|]. apply reconciled_interrupts. }
    destruct (Nat.eq_dec (wid w) (wid wk)) as [E|E].
    - assert (w = wk).
      { destruct W as [_ [_ [So _]]]. apply So; auto.
        now apply (pool_of_workers jt2). }
      subst w. right. rewrite (pending_met wk known (env s) A NK jt2 c s' W). lia.
    - left. split; [now apply pending_passed|].
      rewrite <- P. apply pool_of_reconciled_other. congruence. }
  assert (Pass : forall jt2 s', Q s' ->
                   exists s2, WorkerManager.reconcile_pool known jt2 s' = (Ok tt, s2)
                              /\ Q s2
                              /\ (jt2 = jt ->
                                  c + 1 <= interrupts_of (wid wk) (trace s2))).
  { intros jt2 s' H. destruct (string_dec jt2 jt) as [Ej|Nj].
    - subst jt2. unfold WorkerManager.reconcile_pool, bind at 1, gets at 1.
      assert (R : exists s2,
                 WorkerManager.reconcile_from (length (pool_of jt s')) 0 known jt s'
                 = (Ok tt, s2)
                 /\ c + 1 <= interrupts_of (wid wk) (trace s2)).
      { destruct H as [[W P]|R].
        - apply (reconcile_from_meets wk known (env s) A NK jt c); auto.
          rewrite P. exact M.
        - now apply reconcile_from_interrupts. }
      destruct R as [s2 [R H2]]. exists s2. split; [exact R|].
      split; [now right|auto].
    - destruct (reconcile_pool_inv Q known jt2
                  (fun w s0 H0 I => Step jt2 w s0 H0 I Nj) s' H) as [s2 [R H2]].
      exists s2. split; [exact R|]. split; [exact H2|].
      intros K. now elim Nj. }
  assert (All : forall jts s', Q s' ->
                  exists s2,
                    for_each jts (WorkerManager.reconcile_pool known) s'
                    = (Ok tt, s2)
                    /\ Q s2
                    /\ (In jt jts ->
                        c + 1 <= interrupts_of (wid wk) (trace s2))).
  { induction jts as [|jt2 jts IH]; intros s' H.
    - exists s'. split; [reflexivity|]. split; [exact H|intros []].
    - cbn [for_each]. destruct (Pass jt2 s' H) as [s1 [R1 [H1 K1]]].
      rewrite (bind_ok _ _ _ _ _ R1).
      destruct (IH s1 H1) as [s2 [R2 [H2 K2]]].
      exists s2. split; [exact R2|]. split; [exact H2|].
      intros [E|I]; [|now apply K2].
      assert (L1 := K1 E).
      destruct (IH s1 (or_intror L1)) as [s3 [R3 [[[W _]|H3] _]]];
        rewrite R2 in R3; inversion R3; subst s3.
      + exfalso. clear - L1 R2 W.
        assert (G : c + 1 <= interrupts_of (wid wk) (trace s2)).
        { destruct (reconcile_some_inv
                      (fun s' => c + 1 <= interrupts_of (wid wk) (trace s'))
                      known jts) with (s := s1) as [s4 [R4 H4]]; auto.
          - intros jt0 w s0 _ H0 _. eapply Nat.le_trans; [exact H0|].
            apply reconciled_interrupts.
          - rewrite R2 in R4. inversion R4; subst s4. exact H4. }
        destruct W as [_ [_ [_ C]]]. lia.
      + exact H3. }
  assert (K : In jt (Py.keys (worker_pool s))).
  { apply get_in_keys. unfold meets in M. apply met_at_In in M.
    unfold pool_of in M. destruct (Py.get jt (worker_pool s)); [discriminate|].
    destruct M. }
  destruct (All (Py.keys (worker_pool s)) s) as [s3 [R3 [_ H3]]].
  { left. split; [|reflexivity]. now repeat split. }
  specialize (H3 K).
  destruct (assign_all_inv
              (fun s' => c + 1 <= interrupts_of (wid wk) (trace s'))
              all_modules (rows (env s))) with (s := s3) as [s4 [R4 H4]]; auto.
  { intros jb s' H' _. now rewrite assigned_interrupts. }
  assert (TW : tick_work all_modules s = (Ok tt, s4)).
  { rewrite tick_work_unfold. fold known. now rewrite (bind_ok _ _ _ _ _ R3). }
  unfold exec. rewrite delegate_split, (bind_ok _ _ _ _ _ TW).
  unfold time_sleep. destruct (sched s4); cbn [snd trace]; auto.
  rewrite interrupts_of_app. cbn. lia.
Qed.

(** A worker with only running workers between the iterator and itself is
    met. *)
Lemma met_at_behind_running e w :
  forall k fuel i l,
    nth_error l (i + k) = Some w ->
    (forall j x, i <= j < i + k -> nth_error l j = Some x -> alive x e = true) ->
    k < fuel ->
    In w (met_at e fuel i l).
Proof.
  induction k as [|k IH]; intros fuel i l N A L;
    (destruct fuel as [|fuel]; [lia|]); cbn [met_at].
  - rewrite Nat.add_0_r in N. rewrite N. now left.
  - destruct (nth_error l i) as [x|] eqn:X.
    2:{ apply nth_error_None in X.
        assert (K : nth_error l (i + S k) <> None) by congruence.
        apply nth_error_Some in K. lia. }
    right. rewrite (A i x); [|lia|exact X].
    apply IH; [|intros j y J; apply A|]; try lia.
    now replace (S i + k) with (i + S k) by lia.
Qed.

Lemma meets_behind_running wk jt pre post s :
  pool_of jt s = pre ++ wk :: post ->
  (forall w, In w pre -> alive w (env s) = true) ->
  meets wk jt s.
Proof.
  intros P A. unfold meets. rewrite P.
  apply (met_at_behind_running (env s) wk (length pre)).
  - cbn [Nat.add]. rewrite nth_error_app2, Nat.sub_diag; auto.
  - intros j x J N. apply A. cbn [Nat.add] in J.
    rewrite nth_error_app1 in N by lia. now apply nth_error_In in N.
  - rewrite length_app. cbn [List.length]. lia.
Qed.

Lemma ticks_add all_modules m :
  forall k s,
    outcome (WorkerManager.ticks all_modules k) s = Ok tt ->
    exec (WorkerManager.ticks all_modules (k + m)) s
    = exec (WorkerManager.ticks all_modules m)
           (exec (WorkerManager.ticks all_modules k) s).
Proof.
  induction k as [|k IH]; intros s H; [reflexivity|].
  cbn [Nat.add WorkerManager.ticks] in *. unfold outcome, exec, bind in *.
  destruct (WorkerManager.delegate all_modules s) as [[[]| |] s1];
    cbn [fst snd] in *; try discriminate.
  now apply IH.
Qed.

(** C10 (amended).  The reconciliation pass removes a stopped worker from
    the very list it is iterating.  When the pass meets a stopped worker
    that is directly followed in the list by another worker, stopped or
    not, the first one is joined and removed and the second one is stepped
    over: the pass does not meet it, and it is neither joined nor removed
    in this pass but stays in the list.  (A worker is met in particular
    when every entry before it is running; the pass is the sequence of
    reconciliation steps on the workers of [met_at], in that order.)  A
    worker that was stepped over and stays stopped is joined on a later
    tick: behind at most [p] entries, by the end of tick [p + 1] when the
    schedule lets [p] ticks complete.  Over a list whose workers have all
    stopped the pass removes the entries at every other position only: the
    workers at the 1st, 3rd, 5th, ... place are joined and removed, those
    at the 2nd, 4th, ... place stay, so that half of the entries (rounded
    down) are left and a list of two or more is never emptied; the worker
    passed over at the head goes in the next pass. *)
Theorem reconcile_pool_removes_every_other known jt s :
  NoDup (map wid (pool_of jt s)) ->
  let ws := pool_of jt s in
  let pass := WorkerManager.reconcile_pool known jt in
  (forall pre w1 w2 post,
     ws = pre ++ w1 :: w2 :: post ->
     meets w1 jt s ->
     alive w1 (env s) = false ->
     exists pre' post' evs1 evs2,
       outcome pass s = Ok tt
       /\ ~ meets w2 jt s
       /\ pool_of jt (exec pass s) = pre' ++ w2 :: post'
       /\ incl pre' pre /\ incl post' post
       /\ trace (exec pass s) = trace s ++ evs1 ++ EvJoin (wid w1) :: evs2
       /\ ~ In (EvJoin (wid w1)) (evs1 ++ evs2)
       /\ ~ In (EvJoin (wid w2)) (evs1 ++ evs2)
       /\ ~ In (wid w1) (map wid (pool_of jt (exec pass s))))
  /\ (forall pre w post,
        ws = pre ++ w :: post ->
        (forall x, In x pre -> alive x (env s) = true) ->
        meets w jt s)
  /\ pass s
     = (Ok tt,
        pass_over known jt (met_at (env s) (length ws) 0 ws) s)
  /\ (forall all_modules p pre w post,
        pool_consistent s ->
        ws = pre ++ w :: post ->
        length pre <= p ->
        p <= length (sched s) ->
        (forall k, k <= p ->
           alive w (env (exec (WorkerManager.ticks all_modules k) s)) = false) ->
        In (EvJoin (wid w))
           (trace (exec (WorkerManager.ticks all_modules (S p)) s)))
  /\ ((forall w, In w ws -> alive w (env s) = false) ->
      outcome pass s = Ok tt
      /\ pool_of jt (exec pass s) = every_other false ws
      /\ trace (exec pass s) =
           trace s ++ map (fun w => EvJoin (wid w)) (every_other true ws)
      /\ length (pool_of jt (exec pass s)) = Nat.div2 (length ws)
      /\ (2 <= length ws -> pool_of jt (exec pass s) <> [])
      /\ (forall w1 w2 rest,
            ws = w1 :: w2 :: rest ->
            ~ In (wid w2) (map wid (pool_of jt (exec pass (exec pass s)))))).
Proof.
  intros ND ws pass. split.
  { intros pre w1 w2 post W M D1.
    assert (Em : met_at (env s) (length ws) 0 ws = met (env s) false ws).
    { assert (E := met_at_met (env s) (length ws) [] ws ND (Nat.le_refl _)).
      cbn [app List.length] in E. exact E. }
    assert (M1 : In w1 (met (env s) false ws)) by now apply meets_met.
    destruct (pass_over_pair known jt (env s) s pre w1 w2 post eq_refl ND W M1 D1)
      as [pre' [post' [evs1 [evs2 Q]]]].
    exists pre', post', evs1, evs2.
    unfold outcome, exec, pass. rewrite reconcile_pool_met. fold ws. rewrite Em.
    split; [reflexivity|]. split; [|exact Q].
    intros M2. apply meets_met in M2; auto. fold ws in M2. revert M2.
    rewrite W. apply met_steps_over; auto.
    - fold ws in ND. now rewrite W in ND.
    - now rewrite <- W. }
  split.
  { intros pre w post W A. now apply (meets_behind_running w jt pre post). }
  split; [apply reconcile_pool_met|].
  split.
  { intros all_modules p pre w post C W.
    exact (joined_within_ticks all_modules w jt p s pre post C W). }
  intros D.
  destruct (reconcile_pool_stopped known jt s ND D) as [s' [R [Q [T E]]]].
  fold pass in R. unfold outcome, exec. rewrite R. simpl.
  split; [reflexivity|]. split; [exact Q|]. split; [exact T|].
  split; [rewrite Q; apply every_other_length|].
  split.
  - intros L. rewrite Q. fold ws.
    destruct ws as [|a [|b r]]; simpl in *; try lia. discriminate.
  - intros w1 w2 rest W. fold ws in Q, T. rewrite W in Q, T. simpl in Q, T.
    fold ws in ND. rewrite W in ND. simpl in ND.
    inversion ND as [|? ? N1 ND1]; subst.
    inversion ND1 as [|? ? N2 ND2]; subst.
    assert (ND' : NoDup (map wid (pool_of jt s'))).
    { rewrite Q. simpl. constructor.
      - intros I. apply N2. rewrite every_other_map in I.
        eapply every_other_In; eauto.
      - rewrite every_other_map. now apply every_other_NoDup. }
    assert (D' : forall w, In w (pool_of jt s') -> alive w (env s') = false).
    { intros w I. rewrite E. apply D. fold ws. rewrite W. rewrite Q in I.
      destruct I as [I|I]; [subst; right; now left|].
      right. right. eapply every_other_In; eauto. }
    destruct (reconcile_pool_stopped known jt s' ND' D') as [s2 [R2 [Q2 _]]].
    fold pass in R2. rewrite R2. simpl. rewrite Q2, Q. simpl.
    intros I. apply N2. rewrite every_other_map in I.
    apply every_other_In in I. rewrite every_other_map in I.
    eapply every_other_In; eauto.
Qed.

(** C1 (amended).  Take a worker that is the only pool entry carrying its
    job id, running and with its job id absent from the job table at the
    start of each of [n] consecutive ticks.  Over these ticks the delegation
    loop issues at most one interrupt for it, none at all if the id was in
    the stopping list already, and after an interrupt the id is in the
    stopping list.  The interrupt is issued in the first of these ticks
    whose pass over the pool meets the worker while the id is not in the
    stopping list: none was issued before that tick, one has been issued by
    its end, and one by the end of the [n] ticks.  (A pass meets the worker
    in particular when every entry before it in its pool list is running.)
    A reconciliation step issues an interrupt only for a running worker
    whose job id is neither in the snapshot nor in the stopping list,
    appends the id to the list, and drops an id from the list only on
    meeting a stopped worker with that job id: the id of a worker that is
    the only pool entry carrying it is dropped only when that worker itself
    is met and has stopped. *)
Theorem one_interrupt_while_draining all_modules wk n s :
  sole_carrier wk s ->
  wid wk < next_wid s ->
  draining wk all_modules n s ->
  let s' := exec (WorkerManager.ticks all_modules n) s in
  let issued tr := interrupts_of (wid wk) tr in
  issued (trace s') <= issued (trace s) + 1
  /\ (In (job_id (job wk)) (stopping_workers s) ->
      issued (trace s') = issued (trace s))
  /\ (issued (trace s') = issued (trace s) + 1 ->
      In (job_id (job wk)) (stopping_workers s'))
  /\ (forall jt k,
        k < n ->
        let sk := exec (WorkerManager.ticks all_modules k) s in
        outcome (WorkerManager.ticks all_modules k) s = Ok tt ->
        meets wk jt sk ->
        ~ In (job_id (job wk)) (stopping_workers sk) ->
        issued (trace sk) = issued (trace s)
        /\ issued (trace (exec (WorkerManager.delegate all_modules) sk))
           = issued (trace s) + 1
        /\ issued (trace s') = issued (trace s) + 1)
  /\ (forall jt pre post s0,
        pool_of jt s0 = pre ++ wk :: post ->
        (forall w, In w pre -> alive w (env s0) = true) ->
        meets wk jt s0)
  /\ (forall known jt w v s0,
        let s1 := exec (WorkerManager.reconcile_worker known jt w) s0 in
        interrupts_of v (trace s1) <> interrupts_of v (trace s0) ->
        v = wid w
        /\ alive w (env s0) = true
        /\ ~ In (job_id (job w)) known
        /\ ~ In (job_id (job w)) (stopping_workers s0)
        /\ stopping_workers s1 = stopping_workers s0 ++ [job_id (job w)])
  /\ (forall known jt w id s0,
        let s1 := exec (WorkerManager.reconcile_worker known jt w) s0 in
        In id (stopping_workers s0) ->
        ~ In id (stopping_workers s1) ->
        alive w (env s0) = false /\ id = job_id (job w))
  /\ (forall known jt w s0,
        let s1 := exec (WorkerManager.reconcile_worker known jt w) s0 in
        sole_carrier wk s0 ->
        In w (pool_of jt s0) ->
        In (job_id (job wk)) (stopping_workers s0) ->
        ~ In (job_id (job wk)) (stopping_workers s1) ->
        w = wk /\ alive wk (env s0) = false).
Proof.
  intros Sole Fresh D s' issued.
  set (c0 := issued (trace s)).
  set (b := Py.mem (job_id (job wk)) (stopping_workers s)).
  assert (H0 : once wk c0 b s).
  { split; [exact Sole|]. split; [exact Fresh|]. left. split; auto.
    intros B. now apply mem_true. }
  pose proof (once_ticks wk c0 b all_modules n s H0 D) as [_ [_ Cnt]].
  fold s' in Cnt. fold (issued (trace s')) in Cnt.
  split; [destruct Cnt as [[C _]|[C _]]; lia|].
  split.
  { intros I. apply mem_true in I. fold b in I.
    destruct Cnt as [[C _]|[_ [_ C]]]; [exact C|congruence]. }
  split.
  { intros E. destruct Cnt as [[C _]|[_ [C _]]]; [lia|exact C]. }
  split.
  { intros jt k L sk Run M NS.
    assert (Dk : draining wk all_modules k s).
    { intros j Lj. apply D. lia. }
    pose proof (once_ticks wk c0 b all_modules k s H0 Dk) as [Sk [Fk Ck]].
    fold sk in Sk, Fk, Ck.
    assert (Ek : issued (trace sk) = c0).
    { destruct Ck as [[C _]|[_ [C _]]]; [exact C|contradiction]. }
    destruct (D k L) as [A NK]. fold sk in A, NK. cbv zeta in A, NK.
    pose proof (delegate_meets all_modules wk jt sk M A NK NS Sk) as Low.
    fold (issued (trace sk)) in Low. rewrite Ek in Low.
    assert (Up : c0 + 1 <= issued (trace s')).
    { unfold s'. replace n with (k + S (n - S k)) by lia.
      rewrite (ticks_add all_modules (S (n - S k)) k s Run). fold sk.
      cbn [WorkerManager.ticks]. unfold exec, bind. unfold exec in Low.
      destruct (WorkerManager.delegate all_modules sk) as [[[]| |] s1];
        cbn [fst snd] in *; auto.
      apply (ticks_inv (fun s => c0 + 1 <= issued (trace s))); auto.
      intros s2. apply delegate_interrupts. }
    assert (H1 : once wk c0 false sk).
    { split; [exact Sk|]. split; [exact Fk|]. left. split; [exact Ek|].
      discriminate. }
    pose proof (once_delegate wk c0 false all_modules sk H1 A NK)
      as [_ [_ C1]].
    split; [exact Ek|]. split.
    - unfold issued in *. destruct C1 as [[C _]|[C _]]; lia.
    - destruct Cnt as [[C _]|[C _]]; lia. }
  split.
  { intros jt pre post s0. apply meets_behind_running. }
  split.
  { intros known jt w v s0. apply reconcile_worker_interrupt. }
  split.
  { intros known jt w id s0. apply reconcile_worker_forget. }
  intros known jt w s0 s1 So I In0 Out.
  destruct (reconcile_worker_forget known jt w (job_id (job wk)) s0 In0 Out)
    as [A E].
  assert (W : w = wk).
  { apply So; [now apply (pool_of_workers jt)|]. right. now symmetry. }
  subst w. now split.
Qed.

(** * Concrete instances of the further properties *)

Lemma delegate_keeps_pool_consistent_witness :
  pool_consistent Examples.one_draining
  /\ pool_consistent
       (exec (WorkerManager.delegate Examples.registry) Examples.one_draining)
  /\ stopping_workers
       (exec (WorkerManager.delegate Examples.registry) Examples.one_draining)
     = [5%Z].
Proof.
  assert (C : pool_consistent Examples.one_draining).
  { unfold pool_consistent, pool_workers. cbn.
    split; [repeat constructor; intros []|].
    split; [intros w [E|[]]; subst w; cbn; lia|].
    split; [constructor|intros id []]. }
  split; [exact C|].
  destruct (delegate_keeps_pool_consistent Examples.registry
              Examples.one_draining C) as [D _].
  split; [exact D|]. vm_compute. reflexivity.
Defined.

Lemma worker_calls_follow_thread_life_witness :
  trace (exec (WorkerManager.ticks Examples.registry 2) Examples.skipped_run)
  = [EvClaim (Examples.board_job 1); EvStart 0;
     EvClaim (Examples.board_job 2); EvStart 1; EvSleep 1000]
    ++ EvJoin 0 :: [EvSleep 1000]
  /\ In (EvStart 0)
        [EvClaim (Examples.board_job 1); EvStart 0;
         EvClaim (Examples.board_job 2); EvStart 1; EvSleep 1000]
  /\ ~ In (EvJoin 0)
         [EvClaim (Examples.board_job 1); EvStart 0;
          EvClaim (Examples.board_job 2); EvStart 1; EvSleep 1000].
Proof.
  assert (T : trace (exec (WorkerManager.ticks Examples.registry 2)
                       (fresh_manager
                          (Examples.world_of
                             [Examples.board_job 1; Examples.board_job 2] [])
                          [Examples.becomes [] [1]; Examples.becomes [] [];
                           Examples.becomes [] []]))
              = [EvClaim (Examples.board_job 1); EvStart 0;
                 EvClaim (Examples.board_job 2); EvStart 1; EvSleep 1000]
                ++ EvJoin 0 :: [EvSleep 1000]).
  { vm_compute. reflexivity. }
  split; [exact T|].
  exact (worker_calls_follow_thread_life Examples.registry _ _ 2 _
           (EvJoin 0) _ T).
Defined.

Lemma stopped_worker_joined_within_witness :
  pool_consistent Examples.two_stopped
  /\ pool_of "board" Examples.two_stopped
     = [Examples.board_worker 0 1] ++ Examples.board_worker 1 2 :: []
  /\ (forall k, k <= 1 ->
        alive (Examples.board_worker 1 2)
          (env (exec (WorkerManager.ticks Examples.registry k)
                  Examples.two_stopped)) = false)
  /\ ~ In (EvJoin 1)
         (trace (exec (WorkerManager.ticks Examples.registry 1)
                   Examples.two_stopped))
  /\ In (EvJoin 1)
        (trace (exec (WorkerManager.ticks Examples.registry 2)
                  Examples.two_stopped)).
Proof.
  assert (C : pool_consistent Examples.two_stopped).
  { unfold pool_consistent, pool_workers. cbn.
    split; [repeat constructor; cbn; intuition discriminate|].
    split; [intros w [E|[E|[]]]; subst w; cbn; lia|].
    split; [constructor|intros id []]. }
  assert (A : forall k, k <= 1 ->
                alive (Examples.board_worker 1 2)
                  (env (exec (WorkerManager.ticks Examples.registry k)
                          Examples.two_stopped)) = false).
  { intros k L. destruct k as [|[|k]].
    - vm_compute. reflexivity.
    - vm_compute. reflexivity.
    - exfalso. lia. }
  split; [exact C|]. split; [reflexivity|]. split; [exact A|]. split.
  - vm_compute. intros [E|[E|[]]]; discriminate.
  - apply (stopped_worker_joined_within Examples.registry
             (Examples.board_worker 1 2) "board" 1 Examples.two_stopped
             [Examples.board_worker 0 1] [] C eq_refl).
    + cbn. lia.
    + cbn. lia.
    + exact A.
Defined.

Lemma delegate_starts_waiting_job_witness :
  rows (env Examples.skipped_run)
  = [] ++ Examples.board_job 1 :: [Examples.board_job 2]
  /\ Queue.is_claimable (now (env Examples.skipped_run)) (Examples.board_job 1)
     = true
  /\ length (pool_of "board" Examples.skipped_run) < 2
  /\ exists w tr1 tr2,
       In w (pool_of "board"
               (exec (WorkerManager.delegate Examples.registry)
                  Examples.skipped_run))
       /\ job w = Examples.board_job 1
       /\ 0 <= wid w
       /\ trace (exec (WorkerManager.delegate Examples.registry)
                   Examples.skipped_run)
          = [] ++ tr1 ++ EvClaim (Examples.board_job 1) :: EvStart (wid w) :: tr2.
Proof.
  split; [reflexivity|]. split; [reflexivity|]. split; [cbn; lia|].
  apply (delegate_starts_waiting_job Examples.registry Examples.skipped_run
           (Examples.board_job 1) Examples.board_class []
           [Examples.board_job 2]).
  - reflexivity.
  - reflexivity.
  - reflexivity.
  - vm_compute. lia.
  - intros j' [].
Defined.

Lemma workers_filed_under_their_jobtype_witness :
  well_filed Examples.full_pool
  /\ well_filed
       (exec (WorkerManager.delegate Examples.registry) Examples.full_pool).
Proof.
  assert (F : well_filed Examples.full_pool).
  { intros jt w I. unfold pool_of, Examples.full_pool in I.
    cbn [worker_pool Py.get] in I.
    destruct (String.eqb jt "board") eqn:E; [|destruct I].
    apply String.eqb_eq in E. subst jt.
    destruct I as [I|[I|[]]]; subst w; reflexivity. }
  split; [exact F|].
  destruct (workers_filed_under_their_jobtype Examples.registry
              Examples.full_pool F) as [D _].
  exact D.
Defined.

Lemma delete_then_tick_interrupts_witness :
  sole_carrier (Examples.board_worker 1 2) Examples.full_pool
  /\ pool_of "board" Examples.full_pool
     = [Examples.board_worker 0 1] ++ Examples.board_worker 1 2 :: []
  /\ interrupts_of 1
       (trace (exec (WorkerManager.request_delete
                       (Some (Examples.board_job 2)) "" "")
                 Examples.full_pool)) = 0
  /\ interrupts_of 1
       (trace (exec (WorkerManager.delegate Examples.registry)
                 (exec (WorkerManager.request_delete
                          (Some (Examples.board_job 2)) "" "")
                    Examples.full_pool))) = 0 + 1.
Proof.
  assert (So : sole_carrier (Examples.board_worker 1 2) Examples.full_pool).
  { intros w I K. cbn in I. destruct I as [I|[I|[]]]; subst w.
    - cbn in K. destruct K; discriminate.
    - reflexivity. }
  split; [exact So|]. split; [reflexivity|].
  destruct (delete_then_tick_interrupts Examples.registry
              (Some (Examples.board_job 2)) "" "" (Examples.board_job 2)
              "board" (Examples.board_worker 1 2)
              [Examples.board_worker 0 1] [] Examples.full_pool)
    as [A [B _]].
  - reflexivity.
  - reflexivity.
  - reflexivity.
  - reflexivity.
  - intros w [E|[]]. subst w. reflexivity.
  - intros [].
  - exact So.
  - cbn. lia.
  - split; [exact A|exact B].
Defined.

Lemma loop_delegates_until_stopped_witness :
  looping Examples.stop_requested = true
  /\ outcome (WorkerManager.ticks Examples.registry 1) Examples.stop_requested
     = Ok tt
  /\ WorkerManager.loop Examples.registry Examples.has_request_interrupt
       Examples.worker_abort [true] Examples.stop_requested
     = WorkerManager.shutdown Examples.has_request_interrupt Examples.worker_abort
         (with_looping false
            (exec (WorkerManager.ticks Examples.registry 1)
                  Examples.stop_requested))
  /\ outcome (WorkerManager.loop Examples.registry Examples.has_request_interrupt
                Examples.worker_abort [true]) Examples.stop_requested
     = Ok tt
  /\ trace (exec (WorkerManager.loop Examples.registry Examples.has_request_interrupt
                    Examples.worker_abort [true]) Examples.stop_requested)
     = [EvSleep 1000; EvInterrupt 0 None; EvJoin 0; EvSleep 1000].
Proof.
  assert (Run : outcome (WorkerManager.ticks Examples.registry 1)
                  Examples.stop_requested = Ok tt) by (vm_compute; reflexivity).
  split; [reflexivity|]. split; [exact Run|].
  destruct (loop_delegates_until_stopped Examples.registry
              Examples.has_request_interrupt Examples.worker_abort [true]
              Examples.stop_requested eq_refl) as [_ R].
  destruct (R 0 [] eq_refl Run) as [_ [_ [Q _]]].
  destruct (Q (with_looping false
                 (exec (WorkerManager.ticks Examples.registry 1)
                       Examples.stop_requested))) as [_ E].
  { vm_compute. reflexivity. }
  split; [exact E|]. unfold outcome, exec at 1. rewrite E.
  split; vm_compute; reflexivity.
Defined.

Lemma loop_stops_every_worker_witness :
  looping Examples.winding_down = false
  /\ pool_entries Examples.winding_down
     = [Examples.board_worker 0 1; Examples.board_worker 1 2]
  /\ alive (Examples.board_worker 1 2) (env Examples.winding_down) = true
  /\ outcome (WorkerManager.loop Examples.registry Examples.has_request_interrupt
                Examples.worker_abort []) Examples.winding_down
     = Ok tt
  /\ trace (exec (WorkerManager.loop Examples.registry Examples.has_request_interrupt
                    Examples.worker_abort []) Examples.winding_down)
     = [EvInterrupt 0 None; EvInterrupt 1 None; EvJoin 0; EvJoin 1;
        EvSleep 1000]
  /\ sched (exec (WorkerManager.loop Examples.registry Examples.has_request_interrupt
                    Examples.worker_abort []) Examples.winding_down)
     = []
  /\ outcome (WorkerManager.loop Examples.registry Examples.has_request_interrupt
                Examples.worker_abort []) Examples.stopping_manager
     = Blocked.
Proof.
  split; [reflexivity|]. split; [reflexivity|]. split; [reflexivity|].
  destruct (loop_stops_every_worker Examples.registry
              Examples.has_request_interrupt Examples.worker_abort []
              Examples.winding_down eq_refl (fun w _ => eq_refl)) as [_ [_ R]].
  destruct (R [Examples.board_worker 0 1] (Examples.board_worker 1 2) []
              eq_refl) as [_ Q].
  { intros x [E|[]]. subst x. reflexivity. }
  unfold outcome, exec. rewrite Q.
  - repeat split; vm_compute; reflexivity.
  - vm_compute. reflexivity.
  - intros x [].
Defined.

Lemma abort_without_claimed_jobs_witness :
  cancel_rows None (env Examples.cancel_pending) = [Examples.cancel_job false]
  /\ WorkerManager.force_cancel_jobs Examples.cancel_pending
     = (Ok tt, forced_all [Examples.cancel_job false] Examples.cancel_pending)
  /\ made_claimable (Examples.cancel_job false)
       (env (forced_all [Examples.cancel_job false] Examples.cancel_pending)).
Proof.
  assert (Q : cancel_rows None (env Examples.cancel_pending)
              = [Examples.cancel_job false]) by reflexivity.
  split; [exact Q|].
  destruct (abort_without_claimed_jobs Examples.cancel_pending) as [F [M _]].
  - rewrite Q. intros q [E|[]]. subst q. reflexivity.
  - rewrite Q in F, M. split; [exact F|]. apply M. now left.
Defined.

Lemma startup_stops_at_pending_job_witness :
  WorkerManager.validate_datasources Examples.registry Examples.restarted
  = (Ok tt, Examples.restarted)
  /\ maintenance_jobs
     = [("api", None)] ++ ("expire-datasets", Some 300%Z)
         :: [("datasource-metrics", Some 86400%Z);
             ("clean-temp-files", Some 3600%Z)]
  /\ outcome (WorkerManager.startup Examples.registry "4cat")
             Examples.restarted
     = Raise JobAlreadyExistsException
  /\ map job_jobtype
       (rows (env (exec (WorkerManager.startup Examples.registry "4cat")
                     Examples.restarted)))
     = ["expire-datasets"; "api"].
Proof.
  split; [reflexivity|]. split; [reflexivity|].
  destruct (startup_stops_at_pending_job Examples.registry "4cat"
              Examples.restarted Examples.restarted
              [("api", None)] ("expire-datasets", Some 300%Z)
              [("datasource-metrics", Some 86400%Z);
               ("clean-temp-files", Some 3600%Z)])
    as [R _].
  - reflexivity.
  - reflexivity.
  - intros sp [E|[]]. subst sp. vm_compute. reflexivity.
  - unfold not_pending. vm_compute. discriminate.
  - unfold outcome, exec. rewrite R. split; [reflexivity|].
    vm_compute. reflexivity.
Defined.

Lemma process_ignores_incomplete_threads_witness :
  incomplete [("no", 5%Z)]
  /\ incomplete [("last_modified", 7%Z)]
  /\ BoardScraper.process [Examples.broken_page] (Examples.board_job 9)
       Examples.scraper
     = (Ok 0%Z,
        BoardScraper.mkScraper 6 1000 (BoardScraper.world Examples.scraper)).
Proof.
  assert (A : incomplete [("no", 5%Z)]) by (right; reflexivity).
  assert (B : incomplete [("last_modified", 7%Z)]) by (left; reflexivity).
  split; [exact A|]. split; [exact B|].
  destruct (process_ignores_incomplete_threads [Examples.broken_page]
              (Examples.board_job 9) Examples.scraper) as [_ P].
  - intros t I. cbn in I. destruct I as [E|[E|[]]]; subst t; assumption.
  - exact P.
Defined.

Lemma save_thread_keeps_thread_ids_unique_witness :
  NoDup (map thread_id (threads (BoardScraper.world Examples.scraper)))
  /\ NoDup (map thread_id
              (threads (BoardScraper.world
                 (exec (BoardScraper.process
                          [[Examples.thread_123; Examples.thread_123]]
                          (Examples.board_job 9))
                    Examples.scraper))))
  /\ map thread_id
       (threads (BoardScraper.world
          (exec (BoardScraper.process
                   [[Examples.thread_123; Examples.thread_123]]
                   (Examples.board_job 9))
             Examples.scraper)))
     = [123%Z].
Proof.
  assert (N : NoDup (map thread_id
                       (threads (BoardScraper.world Examples.scraper)))).
  { cbn. constructor. }
  split; [exact N|].
  destruct (save_thread_keeps_thread_ids_unique Examples.thread_123
              (Examples.board_job 9) Examples.scraper N) as [_ [_ P]].
  split; [apply P|]. vm_compute. reflexivity.
Defined.

Lemma get_url_names_one_board_witness :
  BoardScraper.get_url (Examples.board_job 1)
  = "http://a.4cdn.org/b/threads.json"
  /\ job_remote_id (Examples.board_job 1) = job_remote_id (Examples.board_job 2).
Proof.
  split; [reflexivity|].
  apply (get_url_names_one_board (Examples.board_job 1) (Examples.board_job 2)).
  reflexivity.
Defined.

Lemma reconcile_pool_removes_every_other_witness :
  NoDup (map wid (pool_of "board" Examples.all_stopped))
  /\ meets (Examples.board_worker 0 1) "board" Examples.all_stopped
  /\ ~ meets (Examples.board_worker 1 2) "board" Examples.all_stopped
  /\ pool_of "board"
       (exec (WorkerManager.reconcile_pool [] "board") Examples.all_stopped)
     = [Examples.board_worker 1 2; Examples.board_worker 3 4].
Proof.
  assert (ND : NoDup (map wid (pool_of "board" Examples.all_stopped))).
  { cbn. repeat constructor; cbn; intuition discriminate. }
  assert (M : meets (Examples.board_worker 0 1) "board" Examples.all_stopped).
  { vm_compute. now left. }
  split; [exact ND|]. split; [exact M|].
  destruct (reconcile_pool_removes_every_other [] "board"
              Examples.all_stopped ND) as [P [_ [_ [_ E]]]].
  split.
  - destruct (P [] (Examples.board_worker 0 1) (Examples.board_worker 1 2)
                [Examples.board_worker 2 3; Examples.board_worker 3 4]
                eq_refl M eq_refl) as [pre' [post' [evs1 [evs2 [_ [N _]]]]]].
    exact N.
  - destruct E as [_ [Q _]].
    + intros w I. reflexivity.
    + exact Q.
Defined.

(** C10, as stated, fails.  In [all_stopped] the second and the third
    entry are consecutive and have both stopped, and one tick (its pass
    over the list) joins and removes the third and leaves the second,
    unjoined, in the pool: the pass steps over the second entry, behind the
    first one that it removes, and so meets the third. *)
Lemma second_of_a_stopped_pair_removed :
  let s := Examples.all_stopped in
  let w0 := Examples.board_worker 0 1 in
  let w1 := Examples.board_worker 1 2 in
  let w2 := Examples.board_worker 2 3 in
  let w3 := Examples.board_worker 3 4 in
  let s' := exec (WorkerManager.delegate Examples.registry) s in
  pool_of "board" s = [w0] ++ w1 :: w2 :: [w3]
  /\ alive w1 (env s) = false
  /\ alive w2 (env s) = false
  /\ pool_of "board" s' = [w1; w3]
  /\ trace s' = [EvJoin (wid w0); EvJoin (wid w2)]
  /\ pool_of "board"
       (exec (WorkerManager.reconcile_pool [] "board") s) = [w1; w3].
Proof. vm_compute. repeat split. Qed.

Lemma one_interrupt_while_draining_witness :
  let wk := Examples.board_worker 1 2 in
  let s := exec (WorkerManager.ticks Examples.registry 1)
                Examples.stepped_over_run in
  sole_carrier wk s
  /\ wid wk < next_wid s
  /\ draining wk Examples.registry 2 s
  /\ pool_of "board" s = [Examples.board_worker 0 1; wk]
  /\ ~ meets wk "board" s
  /\ interrupts_of 1 (trace (exec (WorkerManager.ticks Examples.registry 1) s))
     = 0
  /\ meets wk "board" (exec (WorkerManager.ticks Examples.registry 1) s)
  /\ interrupts_of 1 (trace (exec (WorkerManager.ticks Examples.registry 2) s))
     = 1.
Proof.
  cbv zeta.
  set (wk := Examples.board_worker 1 2).
  set (s := exec (WorkerManager.ticks Examples.registry 1)
                 Examples.stepped_over_run).
  assert (So : sole_carrier wk s).
  { intros w I K. vm_compute in I. destruct I as [I|[I|[]]]; subst w.
    - vm_compute in K. destruct K as [K|K]; discriminate.
    - reflexivity. }
  assert (F : wid wk < next_wid s) by (vm_compute; lia).
  assert (D : draining wk Examples.registry 2 s).
  { intros k L. destruct k as [|[|k]].
    - split; [vm_compute; reflexivity|]. vm_compute. intros [].
    - split; [vm_compute; reflexivity|]. vm_compute. intros [].
    - exfalso. lia. }
  assert (M : meets wk "board" (exec (WorkerManager.ticks Examples.registry 1) s)).
  { vm_compute. now left. }
  split; [exact So|]. split; [exact F|]. split; [exact D|].
  split; [vm_compute; reflexivity|].
  split.
  { vm_compute. intros [K|[]]. discriminate. }
  split; [vm_compute; reflexivity|].
  split; [exact M|].
  destruct (one_interrupt_while_draining Examples.registry wk 2 s So F D)
    as [_ [_ [_ [R _]]]].
  destruct (R "board" 1 (Nat.lt_succ_diag_r 1)) as [_ [_ E]].
  - vm_compute. reflexivity.
  - exact M.
  - vm_compute. intros [].
  - exact E.
Defined.
